(** * KahootQuizClone: the real-time quiz engine

    A shallow embedding of [backend/internal/service] (the packet codec,
    the per-game state machine of [game.go] and the routing of the net
    service) together with the properties of its specification.

    Conventions of the embedding:
    - a Go [int] is a [Z] kept in the 64-bit range by [GoInt.wrap];
    - a [*websocket.Conn] is an opaque handle compared by identity;
    - a slice is a [list]; [g.Players] holds pointers, and the roster is
      the only place these pointers live, so a [*Player] is modelled by
      its position in the roster;
    - every method of [*Game] is a computation in the monad [M], which
      threads the game, logs every packet handed to [SendPacket] and
      records a run-time panic ([index out of range]). *)

From Stdlib Require Import ZArith Lia Permutation Sorted.
From Stdlib.Strings Require Import Byte.
From stdpp Require Import base numbers list sorting strings pretty.

Local Open Scope Z_scope.

(** ** Go integers *)

Module GoInt.

Definition min_int : Z := - 2 ^ 63.
Definition max_int : Z := 2 ^ 63 - 1.

(** Two's complement wrap-around of 64-bit signed arithmetic. *)
Definition wrap (z : Z) : Z := (z + 2 ^ 63) mod 2 ^ 64 - 2 ^ 63.

Definition in_range (z : Z) : Prop := min_int <= z <= max_int.

(** [len(s)] of a slice. *)
Definition len {A} (s : list A) : Z := Z.of_nat (length s).

Lemma wrap_small z : in_range z -> wrap z = z.
Proof.
  unfold in_range, min_int, max_int, wrap. intros Hz.
  rewrite Z.mod_small; lia.
Qed.

Lemma wrap_in_range z : in_range (wrap z).
Proof.
  unfold in_range, min_int, max_int, wrap.
  pose proof (Z.mod_pos_bound (z + 2 ^ 63) (2 ^ 64) ltac:(lia)). lia.
Qed.

Lemma len_nonneg {A} (s : list A) : 0 <= len s.
Proof. unfold len. lia. Qed.

End GoInt.

Import GoInt.

(** ** Entities ([internal/entity]) *)

Definition ObjectID := N.
Definition UUID := N.
Definition Conn := nat.

Record QuizChoice := mkChoice {
  Choice_Id : string;
  Choice_Name : string;
  Correct : bool
}.

Record QuizQuestion := mkQuestion {
  Question_Id : string;
  Question_Name : string;
  Question_Time : Z;
  Choices : list QuizChoice
}.

Record Quiz := mkQuiz {
  Quiz_Id : ObjectID;
  Quiz_Name : string;
  Questions : list QuizQuestion
}.

(** ** Players, game states, games ([service/game.go]) *)

Record Player := mkPlayer {
  Player_Id : UUID;
  Player_Name : string;
  Connection : Conn;
  Points : Z;
  LastAwardedPoints : Z;
  Answered : bool
}.

(** [iota] numbers the states 0 to 4 in this order. *)
Inductive GameState :=
  | LobbyState
  | PlayState
  | IntermissionState
  | RevealState
  | EndState.

Record LeaderboardEntry := mkEntry {
  Entry_Name : string;
  Entry_Points : Z
}.

Record Game := mkGame {
  Game_Id : UUID;
  Game_Quiz : Quiz;
  CurrentQuestion : Z;
  Code : string;
  State : GameState;
  Ended : bool;
  Time : Z;
  Players : list Player;
  Host : Conn
}.

#[global] Instance GameState_eq_dec : EqDecision GameState.
Proof. solve_decision. Defined.

#[global] Instance Player_inhabited : Inhabited Player :=
  populate (mkPlayer 0%N "" 0%nat 0 0 false).

(** Field updates, one per assignment the methods perform. *)
Definition set_State (s : GameState) (g : Game) : Game :=
  mkGame (Game_Id g) (Game_Quiz g) (CurrentQuestion g) (Code g) s
         (Ended g) (Time g) (Players g) (Host g).
Definition set_Ended (b : bool) (g : Game) : Game :=
  mkGame (Game_Id g) (Game_Quiz g) (CurrentQuestion g) (Code g) (State g)
         b (Time g) (Players g) (Host g).
Definition set_Time (t : Z) (g : Game) : Game :=
  mkGame (Game_Id g) (Game_Quiz g) (CurrentQuestion g) (Code g) (State g)
         (Ended g) t (Players g) (Host g).
Definition set_CurrentQuestion (i : Z) (g : Game) : Game :=
  mkGame (Game_Id g) (Game_Quiz g) i (Code g) (State g)
         (Ended g) (Time g) (Players g) (Host g).
Definition set_Players (ps : list Player) (g : Game) : Game :=
  mkGame (Game_Id g) (Game_Quiz g) (CurrentQuestion g) (Code g) (State g)
         (Ended g) (Time g) ps (Host g).

Definition set_Answered (b : bool) (p : Player) : Player :=
  mkPlayer (Player_Id p) (Player_Name p) (Connection p) (Points p)
           (LastAwardedPoints p) b.
Definition set_LastAwardedPoints (z : Z) (p : Player) : Player :=
  mkPlayer (Player_Id p) (Player_Name p) (Connection p) (Points p)
           z (Answered p).
Definition set_Points (z : Z) (p : Player) : Player :=
  mkPlayer (Player_Id p) (Player_Name p) (Connection p) z
           (LastAwardedPoints p) (Answered p).

(** ** Packets ([NetService]) *)

Inductive Packet :=
  | ConnectPacket (code name : string)
  | HostGamePacket (quizId : string)
  | QuestionShowPacket (question : QuizQuestion)
  | ChangeGameStatePacket (state : GameState)
  | PlayerJoinPacket (player : Player)
  | PlayerDisconnectPacket (playerId : UUID)
  | StartGamePacket
  | TickPacket (tick : Z)
  | QuestionAnswerPacket (question : Z)
  | PlayerRevealPacket (points : Z)
  | LeaderboardPacket (points : list LeaderboardEntry).

(** A value of Go's [any]: the dynamic type is either a packet struct
    [T] or a pointer [*T]; [nil] is the absence of a value. *)
Inductive any :=
  | Val (p : Packet)
  | Ptr (p : Packet).

(** [packetIdToPacket]: a pointer to a zero packet for the four tags the
    server reads, [nil] otherwise. *)
Definition packetIdToPacket (packetId : byte) : option any :=
  match packetId with
  | x00 => Some (Ptr (ConnectPacket "" ""))
  | x01 => Some (Ptr (HostGamePacket ""))
  | x05 => Some (Ptr StartGamePacket)
  | x07 => Some (Ptr (QuestionAnswerPacket 0))
  | _ => None
  end.

(** [packetToPacketId]: the type switch lists struct types only, so no
    pointer matches; [None] is the error [invalid packet type]. *)
Definition packetToPacketId (packet : any) : option byte :=
  match packet with
  | Val (QuestionShowPacket _) => Some x02
  | Val (HostGamePacket _) => Some x01
  | Val (ChangeGameStatePacket _) => Some x03
  | Val (PlayerJoinPacket _) => Some x04
  | Val (TickPacket _) => Some x06
  | Val (PlayerRevealPacket _) => Some x08
  | Val (LeaderboardPacket _) => Some x09
  | Val (PlayerDisconnectPacket _) => Some x0a
  | _ => None
  end.

(** ** Go's [sort.Slice]

    [getLeaderboard] sorts the roster with [sort.Slice], which the Go
    library documents as not stable.  The library runs its pattern-defeating
    quicksort ([pdqsort_func] of [sort/zsortfunc.go]) on the slice through
    the two operations [Less(i, j)] and [Swap(i, j)]; the functions below
    follow it loop by loop, a Go [for] being a recursion on a count of
    remaining iterations.  Indices are naturals: every index the library
    forms lies inside [a, b).  The pseudo-random generator of
    [breakPatterns_func] is a parameter ([next]): it only selects which
    elements are swapped. *)

Module sort.
Section Slice.

Context {A : Type} `{Inhabited A}.
Variable less : A -> A -> bool.
Variable next : Z -> Z.

Definition Less (data : list A) (i j : nat) : bool :=
  less (data !!! i) (data !!! j).

(** [data[i], data[j] = data[j], data[i]].  Outside the slice, where Go
    panics, the slice is left as it is; the library never swaps there. *)
Definition Swap (data : list A) (i j : nat) : list A :=
  match data !! i, data !! j with
  | Some x, Some y => <[i := y]> (<[j := x]> data)
  | _, _ => data
  end.

(** [for j := i; j > a && Less(j, j-1); j-- { Swap(j, j-1) }] *)
Fixpoint insertionSort_shift (a j : nat) (data : list A) : list A :=
  match j with
  | O => data
  | S j' =>
      if bool_decide (a < j)%nat && Less data j j'
      then insertionSort_shift a j' (Swap data j j')
      else data
  end.

(** [for i := ...; i < b; i++ { ... }], [n] iterations left at most. *)
Fixpoint insertionSort_loop (a b i n : nat) (data : list A) : list A :=
  match n with
  | O => data
  | S n' =>
      if bool_decide (i < b)%nat
      then insertionSort_loop a b (S i) n' (insertionSort_shift a i data)
      else data
  end.

Definition insertionSort_func (data : list A) (a b : nat) : list A :=
  insertionSort_loop a b (a + 1) (b - a) data.

Fixpoint siftDown_loop (n : nat) (data : list A) (root hi first : nat)
  : list A :=
  match n with
  | O => data
  | S n' =>
      let child := (2 * root + 1)%nat in
      if bool_decide (hi <= child)%nat then data
      else
        let child :=
          if bool_decide (child + 1 < hi)%nat
             && Less data (first + child) (first + child + 1)
          then S child else child in
        if negb (Less data (first + root) (first + child)) then data
        else siftDown_loop n' (Swap data (first + root) (first + child))
                           child hi first
  end.

Definition siftDown_func (data : list A) (lo hi first : nat) : list A :=
  siftDown_loop hi data lo hi first.

(** [for i := (hi - 1) / 2; i >= 0; i-- { siftDown(i, hi, first) }],
    with [n = i + 1]. *)
Fixpoint heapSort_build (n : nat) (data : list A) (hi first : nat) : list A :=
  match n with
  | O => data
  | S i => heapSort_build i (siftDown_func data i hi first) hi first
  end.

(** [for i := hi - 1; i >= 0; i-- { Swap(first, first+i); siftDown(lo, i, first) }],
    with [n = i + 1]. *)
Fixpoint heapSort_pop (n : nat) (data : list A) (lo first : nat) : list A :=
  match n with
  | O => data
  | S i =>
      heapSort_pop i (siftDown_func (Swap data first (first + i)) lo i first)
                   lo first
  end.

Definition heapSort_func (data : list A) (a b : nat) : list A :=
  let first := a in
  let lo := 0%nat in
  let hi := (b - a)%nat in
  heapSort_pop hi (heapSort_build ((hi - 1) / 2 + 1) data hi first) lo first.

(** [for i <= j && Less(i, a) { i++ }] *)
Fixpoint scan_up (n : nat) (p : nat -> bool) (i j : nat) : nat :=
  match n with
  | O => i
  | S n' => if bool_decide (i <= j)%nat && p i then scan_up n' p (S i) j else i
  end.

(** [for i <= j && p(j) { j-- }]; [j] is only decremented while
    [1 <= i <= j]. *)
Fixpoint scan_down (n : nat) (p : nat -> bool) (i j : nat) : nat :=
  match n with
  | O => j
  | S n' =>
      if bool_decide (i <= j)%nat && p j then scan_down n' p i (j - 1) else j
  end.

(** The main loop of [partition_func]; the pivot sits at index [a]. *)
Fixpoint partition_loop (n : nat) (data : list A) (a b i j : nat)
  : list A * nat :=
  match n with
  | O => (data, j)
  | S n' =>
      let i := scan_up (b - a) (fun i => Less data i a) i j in
      let j := scan_down (b - a) (fun j => negb (Less data j a)) i j in
      if bool_decide (j < i)%nat then (data, j)
      else partition_loop n' (Swap data i j) a b (S i) (j - 1)
  end.

Definition partition_func (data : list A) (a b pivot : nat)
  : list A * nat * bool :=
  let data := Swap data a pivot in
  let i := (a + 1)%nat in
  let j := (b - 1)%nat in
  let i := scan_up (b - a) (fun i => Less data i a) i j in
  let j := scan_down (b - a) (fun j => negb (Less data j a)) i j in
  if bool_decide (j < i)%nat then (Swap data j a, j, true)
  else
    let '(data, j) :=
      partition_loop (b - a) (Swap data i j) a b (S i) (j - 1) in
    (Swap data j a, j, false).

Fixpoint partitionEqual_loop (n : nat) (data : list A) (a b i j : nat)
  : list A * nat :=
  match n with
  | O => (data, i)
  | S n' =>
      let i := scan_up (b - a) (fun i => negb (Less data a i)) i j in
      let j := scan_down (b - a) (fun j => Less data a j) i j in
      if bool_decide (j < i)%nat then (data, i)
      else partitionEqual_loop n' (Swap data i j) a b (S i) (j - 1)
  end.

Definition partitionEqual_func (data : list A) (a b pivot : nat)
  : list A * nat :=
  partitionEqual_loop (b - a) (Swap data a pivot) a b (a + 1) (b - 1).

(** [partialInsertionSort_func]: the two shifting loops, then the
    five-step outer loop. *)
Fixpoint shift_left (j : nat) (data : list A) : list A :=
  match j with
  | O => data
  | S j' =>
      if bool_decide (1 <= j)%nat && Less data j j'
      then shift_left j' (Swap data j j')
      else data
  end.

Fixpoint shift_right (n : nat) (b j : nat) (data : list A) : list A :=
  match n with
  | O => data
  | S n' =>
      if bool_decide (j < b)%nat && Less data j (j - 1)
      then shift_right n' b (S j) (Swap data j (j - 1))
      else data
  end.

Fixpoint partialInsertionSort_loop (steps : nat) (data : list A) (a b i : nat)
  : list A * bool :=
  match steps with
  | O => (data, false)
  | S steps' =>
      let i := scan_up (b - a) (fun i => bool_decide (i < b)%nat
                                         && negb (Less data i (i - 1))) i b in
      if bool_decide (i = b) then (data, true)
      else if bool_decide (b - a < 50)%nat then (data, false)
      else
        let data := Swap data i (i - 1) in
        let data :=
          if bool_decide (2 <= i - a)%nat then shift_left (i - 1) data
          else data in
        let data :=
          if bool_decide (2 <= b - i)%nat then shift_right (b - i) b (i + 1) data
          else data in
        partialInsertionSort_loop steps' data a b i
  end.

Definition partialInsertionSort_func (data : list A) (a b : nat)
  : list A * bool :=
  partialInsertionSort_loop 5 data a b (a + 1).

Inductive sortedHint := unknownHint | increasingHint | decreasingHint.

(** [order2_func], [median_func], [medianAdjacent_func]: the count of
    swaps is threaded explicitly. *)
Definition order2_func (data : list A) (a b swaps : nat) : nat * nat * nat :=
  if Less data b a then (b, a, S swaps) else (a, b, swaps).

Definition median_func (data : list A) (a b c swaps : nat) : nat * nat :=
  let '(a, b, swaps) := order2_func data a b swaps in
  let '(b, c, swaps) := order2_func data b c swaps in
  let '(a, b, swaps) := order2_func data a b swaps in
  (b, swaps).

Definition medianAdjacent_func (data : list A) (a swaps : nat) : nat * nat :=
  median_func data (a - 1) a (a + 1) swaps.

Definition choosePivot_func (data : list A) (a b : nat) : nat * sortedHint :=
  let l := (b - a)%nat in
  let i := (a + l / 4 * 1)%nat in
  let j := (a + l / 4 * 2)%nat in
  let k := (a + l / 4 * 3)%nat in
  let '(j, swaps) :=
    if bool_decide (8 <= l)%nat then
      let '(i, j, k, swaps) :=
        if bool_decide (50 <= l)%nat then
          let '(i, swaps) := medianAdjacent_func data i 0 in
          let '(j, swaps) := medianAdjacent_func data j swaps in
          let '(k, swaps) := medianAdjacent_func data k swaps in
          (i, j, k, swaps)
        else (i, j, k, 0%nat) in
      median_func data i j k swaps
    else (j, 0%nat) in
  match swaps with
  | 0%nat => (j, increasingHint)
  | 12%nat => (j, decreasingHint)
  | _ => (j, unknownHint)
  end.

(** [for i < j { Swap(i, j); i++; j-- }] *)
Fixpoint reverseRange_loop (n : nat) (data : list A) (i j : nat) : list A :=
  match n with
  | O => data
  | S n' =>
      if bool_decide (i < j)%nat
      then reverseRange_loop n' (Swap data i j) (S i) (j - 1)
      else data
  end.

Definition reverseRange_func (data : list A) (a b : nat) : list A :=
  reverseRange_loop (b - a) data a (b - 1).

(** [bits.Len] and [nextPowerOfTwo]. *)
Definition bits_Len (x : nat) : nat :=
  match x with O => O | _ => S (Nat.log2 x) end.

Definition nextPowerOfTwo (length : nat) : Z := 2 ^ Z.of_nat (bits_Len length).

Fixpoint breakPatterns_loop (n : nat) (data : list A) (a length idx i : nat)
  (random modulus : Z) : list A :=
  match n with
  | O => data
  | S n' =>
      let random := next random in
      let other := Z.to_nat (Z.land random (modulus - 1)) in
      let other :=
        if bool_decide (length <= other)%nat then (other - length)%nat
        else other in
      breakPatterns_loop n' (Swap data (idx - 1 + i) (a + other))
                         a length idx (S i) random modulus
  end.

Definition breakPatterns_func (data : list A) (a b : nat) : list A :=
  let length := (b - a)%nat in
  if bool_decide (8 <= length)%nat then
    breakPatterns_loop 3 data a length (a + length / 4 * 2 - 1) 0
                       (Z.of_nat length) (nextPowerOfTwo length)
  else data.

(** The turn of the loop of [pdqsort_func] up to the partition: break the
    patterns after an unbalanced partition, choose the pivot, reverse a
    decreasing slice, try the partial insertion sort on a slice that looks
    sorted.  The result is the slice, the limit, the pivot and whether the
    slice is now sorted. *)
Definition pdqsort_pivot (data : list A) (a b limit : nat)
  (wasBalanced wasPartitioned : bool) : list A * nat * nat * bool :=
  let '(data, limit) :=
    if negb wasBalanced
    then (breakPatterns_func data a b, (limit - 1)%nat)
    else (data, limit) in
  let '(pivot, hint) := choosePivot_func data a b in
  let '(data, pivot, hint) :=
    match hint with
    | decreasingHint =>
        (reverseRange_func data a b, (b - 1 - (pivot - a))%nat, increasingHint)
    | _ => (data, pivot, hint)
    end in
  let '(data, sorted) :=
    match hint with
    | increasingHint =>
        if wasBalanced && wasPartitioned
        then partialInsertionSort_func data a b
        else (data, false)
    | _ => (data, false)
    end in
  (data, limit, pivot, sorted).

(** [pdqsort_func]: one unfolding per turn of its [for] loop.  The
    recursive call on the shorter side starts with both flags set; the
    loop goes on with the longer side. *)
Fixpoint pdqsort_func (n : nat) (data : list A) (a b limit : nat)
  (wasBalanced wasPartitioned : bool) : list A :=
  match n with
  | O => data
  | S n' =>
      let length := (b - a)%nat in
      if bool_decide (length <= 12)%nat then insertionSort_func data a b
      else if bool_decide (limit = 0%nat) then heapSort_func data a b
      else
        let '(data, limit, pivot, sorted) :=
          pdqsort_pivot data a b limit wasBalanced wasPartitioned in
        if sorted then data
        else if bool_decide (0 < a)%nat && negb (Less data (a - 1) pivot) then
          let '(data, mid) := partitionEqual_func data a b pivot in
          pdqsort_func n' data mid b limit wasBalanced wasPartitioned
        else
          let '(data, mid, alreadyPartitioned) :=
            partition_func data a b pivot in
          let leftLen := (mid - a)%nat in
          let rightLen := (b - mid)%nat in
          let balanceThreshold := (length / 8)%nat in
          if bool_decide (leftLen < rightLen)%nat then
            pdqsort_func n' (pdqsort_func n' data a mid limit true true)
                         (mid + 1) b limit
                         (bool_decide (balanceThreshold <= leftLen)%nat)
                         alreadyPartitioned
          else
            pdqsort_func n' (pdqsort_func n' data (mid + 1) b limit true true)
                         a mid limit
                         (bool_decide (balanceThreshold <= rightLen)%nat)
                         alreadyPartitioned
  end.

(** [sort.Slice(x, less)] *)
Definition Slice (x : list A) : list A :=
  let length := List.length x in
  pdqsort_func (S length) x 0 length (bits_Len length) true true.

End Slice.
End sort.

(** ** The monad of the game methods

    A method of [*Game] reads and assigns the fields of [g], hands packets
    to [SendPacket] and may stop in a run-time panic.  [M A] threads the
    game, appends to the log of packets and records whether the method
    returned; after a panic the game is as the assignments run so far left
    it. *)

Definition Sent : Type := Conn * Packet.

Inductive Outcome (A : Type) :=
  | Returned (a : A)
  | Panicked.
Arguments Returned {A} a.
Arguments Panicked {A}.

Definition M (A : Type) : Type := Game -> Outcome A * Game * list Sent.

Definition ret {A} (a : A) : M A := fun g => (Returned a, g, []).

Definition bind {A B} (m : M A) (k : A -> M B) : M B := fun g =>
  match m g with
  | (Returned a, g1, out1) =>
      let '(r, g2, out2) := k a g1 in (r, g2, out1 ++ out2)
  | (Panicked, g1, out1) => (Panicked, g1, out1)
  end.

Definition get : M Game := fun g => (Returned g, g, []).
Definition modify (f : Game -> Game) : M unit := fun g => (Returned tt, f g, []).
Definition panic {A} : M A := fun g => (Panicked, g, []).
Definition emit (connection : Conn) (packet : Packet) : M unit :=
  fun g => (Returned tt, g, [(connection, packet)]).

Notation "x <- m ;; k" := (bind m (fun x => k))
  (at level 100, m at next level, right associativity, only parsing).
Notation "m ;; k" := (bind m (fun _ => k))
  (at level 100, right associativity, only parsing).

(** Projections of a run. *)
Definition outcome {A} (r : Outcome A * Game * list Sent) : Outcome A := r.1.1.
Definition game_of {A} (r : Outcome A * Game * list Sent) : Game := r.1.2.
Definition sent {A} (r : Outcome A * Game * list Sent) : list Sent := r.2.

(** [s[i]] on a slice: [None] is the panic [index out of range]. *)
Definition index {A} (s : list A) (i : Z) : option A :=
  if bool_decide (0 <= i) then s !! Z.to_nat i else None.

(** The comparison [getLeaderboard] gives to [sort.Slice]:
    [g.Players[i].Points > g.Players[j].Points]. *)
Definition byPoints (p q : Player) : bool := bool_decide (Points q < Points p).

Definition entry (p : Player) : LeaderboardEntry :=
  mkEntry (Player_Name p) (Points p).

(** [int(math.Min(3, float64(len(g.Players))))]: the conversions are exact. *)
Definition top (ps : list Player) : nat := Z.to_nat (Z.min 3 (len ps)).

(** [generateCode], given the value [r] of [rand.Intn(900000)]. *)
Definition generateCode (r : Z) : string := pretty (100000 + r).

(** [newGame], given the fresh identifier and the random draw. *)
Definition newGame (quiz : Quiz) (host : Conn) (id : UUID) (r : Z) : Game :=
  mkGame id quiz (-1) (generateCode r) LobbyState false 60 [] host.

(** ** The methods of [*Game] *)

Section GameMethods.

(** The transport: [WriteMessage c p] tells whether writing [p] on [c]
    returns a nil error.  [next] is the generator inside [sort.Slice]. *)
Variable WriteMessage : Conn -> Packet -> bool.
Variable next : Z -> Z.

(** [SendPacket]: [PacketToBytes] refuses a packet without a tag before
    anything is written; the result is [err == nil]. *)
Definition SendPacket (connection : Conn) (packet : Packet) : M bool :=
  match packetToPacketId (Val packet) with
  | None => ret false
  | Some _ => emit connection packet ;; ret (WriteMessage connection packet)
  end.

(** [BroadcastPacket]: the first failing write ends the fan-out. *)
Fixpoint BroadcastPacket_players (ps : list Player) (packet : Packet) : M bool :=
  match ps with
  | [] => ret true
  | player :: ps' =>
      ok <- SendPacket (Connection player) packet ;;
      if ok then BroadcastPacket_players ps' packet else ret false
  end.

Definition BroadcastPacket (packet : Packet) (includeHost : bool) : M bool :=
  g <- get ;;
  ok <- BroadcastPacket_players (Players g) packet ;;
  if ok then
    if includeHost then SendPacket (Host g) packet else ret true
  else ret false.

Definition ChangeState (state : GameState) : M unit :=
  modify (set_State state) ;;
  BroadcastPacket (ChangeGameStatePacket state) true ;;
  ret tt.

Definition ResetPlayerAnswerStates : M unit :=
  modify (fun g => set_Players (set_Answered false <$> Players g) g).

(** [End] *)
Definition End_ : M unit :=
  modify (set_Ended true) ;;
  ChangeState EndState.

Definition getCurrentQuestion : M QuizQuestion :=
  g <- get ;;
  match index (Questions (Game_Quiz g)) (CurrentQuestion g) with
  | Some q => ret q
  | None => panic
  end.

Definition NextQuestion : M unit :=
  modify (fun g => set_CurrentQuestion (wrap (CurrentQuestion g + 1)) g) ;;
  g <- get ;;
  if bool_decide (len (Questions (Game_Quiz g)) <= CurrentQuestion g) then End_
  else
    ResetPlayerAnswerStates ;;
    ChangeState PlayState ;;
    currentQuestion <- getCurrentQuestion ;;
    modify (set_Time (Question_Time currentQuestion)) ;;
    SendPacket (Host g) (QuestionShowPacket currentQuestion) ;;
    ret tt.

(** The body of the loop of [Reveal], player by player. *)
Definition Reveal_player (player : Player) : Player :=
  if Answered player then player else set_LastAwardedPoints 0 player.

Fixpoint Reveal_players (ps : list Player) : M unit :=
  match ps with
  | [] => ret tt
  | player :: ps' =>
      SendPacket (Connection player)
                 (PlayerRevealPacket (LastAwardedPoints (Reveal_player player))) ;;
      Reveal_players ps'
  end.

Definition Reveal : M unit :=
  modify (set_Time 5) ;;
  g <- get ;;
  modify (set_Players (Reveal_player <$> Players g)) ;;
  Reveal_players (Players g) ;;
  ChangeState RevealState.

(** [getLeaderboard]: [sort.Slice] reorders [g.Players] itself. *)
Definition getLeaderboard : M (list LeaderboardEntry) :=
  modify (fun g => set_Players (sort.Slice byPoints next (Players g)) g) ;;
  g <- get ;;
  ret (entry <$> take (top (Players g)) (Players g)).

Definition Intermission : M unit :=
  modify (set_Time 30) ;;
  ChangeState IntermissionState ;;
  points <- getLeaderboard ;;
  g <- get ;;
  SendPacket (Host g) (LeaderboardPacket points) ;;
  ret tt.

Definition Tick : M unit :=
  modify (fun g => set_Time (wrap (Time g - 1)) g) ;;
  g <- get ;;
  SendPacket (Host g) (TickPacket (Time g)) ;;
  if bool_decide (Time g = 0) then
    match State g with
    | PlayState => Reveal
    | RevealState => Intermission
    | IntermissionState => NextQuestion
    | _ => ret tt
    end
  else ret tt.

(** One turn of the goroutine [Start] launches:
    [if g.Ended { return }; g.Tick(); time.Sleep(time.Second)]. *)
Definition timer_turn : M unit :=
  g <- get ;;
  if Ended g then ret tt else Tick.

(** [Start]; the goroutine it launches is [timer_turn], scheduled by the
    environment. *)
Definition Start : M unit :=
  ChangeState PlayState ;;
  NextQuestion.

Definition StartOrSkip : M unit :=
  g <- get ;;
  if bool_decide (State g = LobbyState) then Start else NextQuestion.

(** [OnPlayerJoin], given the fresh identifier of the player. *)
Definition OnPlayerJoin (name : string) (connection : Conn) (id : UUID)
  : M unit :=
  let player := mkPlayer id name connection 0 0 false in
  modify (fun g => set_Players (Players g ++ [player]) g) ;;
  g <- get ;;
  SendPacket connection (ChangeGameStatePacket (State g)) ;;
  SendPacket (Host g) (PlayerJoinPacket player) ;;
  ret tt.

Definition OnPlayerDisconnect (player : Player) : M unit :=
  modify (fun g =>
    set_Players
      (filter (fun p => Player_Id p <> Player_Id player) (Players g)) g) ;;
  g <- get ;;
  SendPacket (Host g) (PlayerDisconnectPacket (Player_Id player)) ;;
  ret tt.

Definition getAnsweredPlayers (g : Game) : list Player :=
  filter (fun player => Answered player = true) (Players g).

Definition isCorrectChoice (choiceIndex : Z) : M bool :=
  q <- getCurrentQuestion ;;
  let choices := Choices q in
  if bool_decide (choiceIndex < 0) || bool_decide (len choices <= choiceIndex)
  then ret false
  else
    match index choices choiceIndex with
    | Some c => ret (Correct c)
    | None => panic
    end.

(** [getPointsReward]: [1000 / 60] is the integer constant 16, and
    [math.Min] on the count of answered players is exact. *)
Definition getPointsReward (g : Game) : Z :=
  let answered := len (getAnsweredPlayers g) in
  let orderReward := 5000 - 1000 * Z.min 4 answered in
  let timeReward := wrap (Time g * (1000 / 60)) in
  wrap (orderReward + timeReward).

(** The assignments of [OnPlayerAnswer] to [*player]. *)
Definition award (reward : Z) (player : Player) : Player :=
  let player := set_LastAwardedPoints reward player in
  set_Points (wrap (Points player + LastAwardedPoints player)) player.

(** [OnPlayerAnswer]; [player] is the position in the roster of the
    player the pointer designates. *)
Definition OnPlayerAnswer (choice : Z) (player : nat) : M unit :=
  correct <- isCorrectChoice choice ;;
  (if correct : bool then
     modify (fun g =>
       set_Players (alter (award (getPointsReward g)) player (Players g)) g)
   else
     modify (fun g =>
       set_Players (alter (set_LastAwardedPoints 0) player (Players g)) g)) ;;
  modify (fun g =>
    set_Players (alter (set_Answered true) player (Players g)) g) ;;
  g <- get ;;
  if bool_decide (len (getAnsweredPlayers g) = len (Players g))
  then Reveal
  else ret tt.

End GameMethods.

(** ** The net service: decoding and routing *)

(** What [encoding/json] makes of the payload of each kind the server
    reads ([None]: [json.Unmarshal] returns an error). *)
Record Json := mkJson {
  Unmarshal_Connect : list byte -> option (string * string);
  Unmarshal_HostGame : list byte -> option string;
  Unmarshal_StartGame : list byte -> option unit;
  Unmarshal_QuestionAnswer : list byte -> option Z
}.

(** The result of a handler of the net service: whether it returned, the
    games, the packets handed to [SendPacket]. *)
Definition Handled : Type := Outcome unit * list Game * list Sent.

Definition dropped (games : list Game) : Handled := (Returned tt, games, []).

Section NetService.

Variable WriteMessage : Conn -> Packet -> bool.
Variable next : Z -> Z.
Variable json : Json.
(** [primitive.ObjectIDFromHex] and the quiz repository. *)
Variable ObjectIDFromHex : string -> option ObjectID.
Variable GetQuizById : ObjectID -> option Quiz.

(** [json.Unmarshal(data, packet)] fills the struct [packet] points to. *)
Definition json_Unmarshal (data : list byte) (packet : any) : option any :=
  match packet with
  | Ptr (ConnectPacket _ _) =>
      (fun cn => Ptr (ConnectPacket cn.1 cn.2)) <$> Unmarshal_Connect json data
  | Ptr (HostGamePacket _) =>
      (fun q => Ptr (HostGamePacket q)) <$> Unmarshal_HostGame json data
  | Ptr StartGamePacket =>
      (fun _ => Ptr StartGamePacket) <$> Unmarshal_StartGame json data
  | Ptr (QuestionAnswerPacket _) =>
      (fun q => Ptr (QuestionAnswerPacket q))
        <$> Unmarshal_QuestionAnswer json data
  | _ => None
  end.

(** [PacketToBytes], given the bytes [json.Marshal] yields. *)
Definition PacketToBytes (marshal : Packet -> list byte) (packet : any)
  : option (list byte) :=
  match packetToPacketId packet with
  | None => None
  | Some packetId =>
      match packet with
      | Val p | Ptr p => Some (packetId :: marshal p)
      end
  end.

(** The first lines of [OnIncomingMessage]: length check, tag, payload. *)
Definition decode (msg : list byte) : option any :=
  if bool_decide (length msg < 2)%nat then None
  else
    match msg with
    | [] => None
    | packetId :: data =>
        match packetIdToPacket packetId with
        | None => None
        | Some packet => json_Unmarshal data packet
        end
    end.

Definition getGameByCode (games : list Game) (code : string)
  : option (nat * Game) :=
  list_find (fun game => Code game = code) games.

Definition getGameByHost (games : list Game) (host : Conn)
  : option (nat * Game) :=
  list_find (fun game => Host game = host) games.

(** The position of the game and, in its roster, of the player. *)
Fixpoint getGameByPlayer_from (k : nat) (games : list Game) (con : Conn)
  : option (nat * nat * Player) :=
  match games with
  | [] => None
  | game :: games' =>
      match list_find (fun player => Connection player = con) (Players game) with
      | Some (i, player) => Some (k, i, player)
      | None => getGameByPlayer_from (S k) games' con
      end
  end.

Definition getGameByPlayer (games : list Game) (con : Conn)
  : option (nat * nat * Player) :=
  getGameByPlayer_from 0 games con.

(** Run a method on the game at position [k]. *)
Definition on_game (games : list Game) (k : nat) (m : M unit) : Handled :=
  match games !! k with
  | Some game =>
      let '(r, game', out) := m game in (r, <[k := game']> games, out)
  | None => dropped games
  end.

Definition OnDisconnect (games : list Game) (con : Conn) : Handled :=
  match getGameByPlayer games con with
  | None => dropped games
  | Some (k, _, player) =>
      on_game games k (OnPlayerDisconnect WriteMessage player)
  end.

(** The type switch of [OnIncomingMessage]; [id] and [r] are the fresh
    identifier and the random draw the handler may consume. *)
Definition route (games : list Game) (con : Conn) (id : UUID) (r : Z)
  (packet : any) : Handled :=
  match packet with
  | Ptr (ConnectPacket code name) =>
      match getGameByCode games code with
      | None => dropped games
      | Some (k, _) => on_game games k (OnPlayerJoin WriteMessage name con id)
      end
  | Ptr (HostGamePacket quizId) =>
      match ObjectIDFromHex quizId with
      | None => dropped games
      | Some quizId =>
          match GetQuizById quizId with
          | None => dropped games
          | Some quiz =>
              let game := newGame quiz con id r in
              let '(res, game, out) :=
                (SendPacket WriteMessage con (HostGamePacket (Code game)) ;;
                 SendPacket WriteMessage con (ChangeGameStatePacket (State game)) ;;
                 ret tt) game in
              (res, games ++ [game], out)
          end
      end
  | Ptr StartGamePacket =>
      match getGameByHost games con with
      | None => dropped games
      | Some (k, _) => on_game games k (StartOrSkip WriteMessage)
      end
  | Ptr (QuestionAnswerPacket question) =>
      match getGameByPlayer games con with
      | None => dropped games
      | Some (k, i, _) =>
          on_game games k (OnPlayerAnswer WriteMessage question i)
      end
  | _ => dropped games
  end.

Definition OnIncomingMessage (games : list Game) (con : Conn) (mt : Z)
  (msg : list byte) (id : UUID) (r : Z) : Handled :=
  match decode msg with
  | None => dropped games
  | Some packet => route games con id r packet
  end.

End NetService.

(** ** Executions of one game

    What can happen to a game once it is hosted: the host's [StartGame]
    message, a turn of the countdown goroutine, a player's answer, a join, a
    disconnect.  The handlers run one after the other (the model is
    sequential), and a turn of the goroutine ([OpTimer]) is its test of
    [Ended] followed at once by [Tick]; the executions in which a handler
    comes between that test and [Tick] are those of [play], further down.
    The goroutine exists once [Start] has run, that is, once the state has
    left the lobby.  A handler that panics leaves the game as its
    assignments so far left it, and the execution goes on from there. *)

Inductive Op :=
  | OpStartOrSkip
  | OpTimer
  | OpAnswer (choice : Z) (player : nat)
  | OpJoin (name : string) (connection : Conn) (id : UUID)
  | OpDisconnect (player : nat).

Section Executions.

Variable WriteMessage : Conn -> Packet -> bool.
Variable next : Z -> Z.

Definition exec (op : Op) : M unit :=
  match op with
  | OpStartOrSkip => StartOrSkip WriteMessage
  | OpTimer =>
      g <- get ;;
      if bool_decide (State g = LobbyState) then ret tt
      else timer_turn WriteMessage next
  | OpAnswer choice player => OnPlayerAnswer WriteMessage choice player
  | OpJoin name connection id => OnPlayerJoin WriteMessage name connection id
  | OpDisconnect player =>
      g <- get ;;
      match Players g !! player with
      | Some p => OnPlayerDisconnect WriteMessage p
      | None => ret tt
      end
  end.

(** The game after a sequence of operations, and the packets sent. *)
Fixpoint run (ops : list Op) (g : Game) : Game * list Sent :=
  match ops with
  | [] => (g, [])
  | op :: ops' =>
      let r := exec op g in
      let r' := run ops' (game_of r) in
      (r'.1, sent r ++ r'.2)
  end.

End Executions.

(** ** Packet kinds named by the properties *)

(** The packets the glossary lists as host-only. *)
Definition host_only (p : Packet) : bool :=
  match p with
  | QuestionShowPacket _ | TickPacket _ | LeaderboardPacket _
  | PlayerJoinPacket _ | PlayerDisconnectPacket _ => true
  | _ => false
  end.

Definition is_QuestionShow (p : Packet) : bool :=
  match p with QuestionShowPacket _ => true | _ => false end.

(** Tick, reveal and question-advance packets. *)
Definition is_progress (p : Packet) : bool :=
  match p with
  | TickPacket _ | PlayerRevealPacket _ | QuestionShowPacket _ => true
  | _ => false
  end.

(** ** Sample data for the examples *)

(** A transport on which every write succeeds, and the xorshift generator
    ([r ^= r << 13; r ^= r >> 7; r ^= r << 17] on 64 bits). *)
Definition delivered : Conn -> Packet -> bool := fun _ _ => true.

Definition xorshift (r : Z) : Z :=
  let r := Z.lxor r (Z.shiftl r 13 mod 2 ^ 64) in
  let r := Z.lxor r (Z.shiftr r 7) in
  Z.lxor r (Z.shiftl r 17 mod 2 ^ 64).

Definition choice (name : string) (correct : bool) : QuizChoice :=
  mkChoice name name correct.

(** A question of 60 seconds whose second choice is the correct one. *)
Definition question60 : QuizQuestion :=
  mkQuestion "q1" "2 + 2" 60 [choice "3" false; choice "4" true; choice "5" false].

(** A question with no time budget. *)
Definition question0 : QuizQuestion :=
  mkQuestion "q0" "1 + 1" 0 [choice "2" true; choice "3" false].

Definition quiz1 : Quiz := mkQuiz 1%N "sums" [question60].
Definition quiz0 : Quiz := mkQuiz 2%N "quick" [question0].

(** A roster of [n] players, all without points except where [pts] says. *)
Definition player_n (pts : nat -> Z) (answered : nat -> bool) (i : nat) : Player :=
  mkPlayer (N.of_nat i) (pretty i) (10 + i)%nat (pts i) 0 (answered i).

Definition roster (n : nat) (pts : nat -> Z) (answered : nat -> bool)
  : list Player :=
  player_n pts answered <$> seq 0 n.

(** [n] players join, named and connected by their rank.  Six players
    join, the host starts the quiz, thirty turns of the countdown pass. *)
Definition joins (n : nat) : list Op :=
  (fun i => OpJoin (pretty i) (10 + i)%nat (N.of_nat i)) <$> seq 0 n.

Definition half_time : list Op :=
  joins 6 ++ [OpStartOrSkip] ++ replicate 30 OpTimer.

(** Thirteen players join, the host starts the quiz, the last to join
    answers correctly at once; the countdown runs through the question and
    to the last second of the reveal. *)
Definition thirteen : list Op :=
  joins 13 ++ [OpStartOrSkip; OpAnswer 1 12] ++ replicate 64 OpTimer.

(** Two players join, the host starts the quiz, the first answers wrongly
    and the second correctly; the countdown runs to the last second of the
    reveal. *)
Definition two_answers : list Op :=
  [OpJoin "ann" 2%nat 8%N; OpJoin "bob" 3%nat 9%N;
   OpStartOrSkip; OpAnswer 0 0; OpAnswer 1 1] ++ replicate 4 OpTimer.

(** Two players join, the host starts the quiz, [n] turns of the countdown
    pass. *)
Definition two_joins : list Op :=
  [OpJoin "ann" 2%nat 8%N; OpJoin "bob" 3%nat 9%N].

Definition waiting (n : nat) : list Op :=
  two_joins ++ [OpStartOrSkip] ++ replicate n OpTimer.

(** A payload decoder for the examples: it reads the payload [{}] of a
    StartGame message and refuses everything else. *)
Definition json_braces : Json :=
  mkJson (fun _ => None) (fun _ => None)
         (fun data => match data with [x7b; x7d] => Some tt | _ => None end)
         (fun _ => None).

(** ** The insertion sort of short slices, as a function on lists

    [sort.Slice] sorts a slice of at most 12 elements by insertion.  [ins]
    is the inner loop of [insertionSort_func] seen from the end of the sorted
    prefix, which is kept reversed: the element moves down past every
    element it is less than. *)
Fixpoint ins {A} (less : A -> A -> bool) (x : A) (rp : list A) : list A :=
  match rp with
  | [] => [x]
  | y :: rp' => if less x y then y :: ins less x rp' else x :: rp
  end.

Definition insertion_sorted {A} (less : A -> A -> bool) (data : list A)
  : list A :=
  rev (foldl (fun rp x => ins less x rp) [] data).

(** Descending order of points, on players and on leaderboard entries. *)
Definition descending (ps : list Player) : Prop :=
  StronglySorted (fun p q => Points q <= Points p) ps.

Definition ascending (ps : list Player) : Prop :=
  StronglySorted (fun p q => Points p <= Points q) ps.

Definition descending_entries (es : list LeaderboardEntry) : Prop :=
  StronglySorted (fun e f => Entry_Points f <= Entry_Points e) es.

(** The players with [k] points, in the order of the list. *)
Definition with_points (k : Z) (ps : list Player) : list Player :=
  filter (fun p => Points p = k) ps.

(** ** Ranges of a slice

    What the proofs about [sort.Slice] say of the part of a slice between
    two indices: which swaps produced it, whether its keys ascend, what
    bounds it. *)

Section Ranges.
Context {A : Type} `{Inhabited A}.
Variable key : A -> Z.

(** [d'] comes from [d] by swaps of elements at indices inside [a, b). *)
Inductive swaps_in (a b : nat) : list A -> list A -> Prop :=
  | swaps_in_refl d : swaps_in a b d d
  | swaps_in_step d i j d' :
      (a <= i < b)%nat -> (a <= j < b)%nat -> (b <= length d)%nat ->
      swaps_in a b (sort.Swap d i j) d' -> swaps_in a b d d'.

(** The keys of [d] are in ascending order on [a, b). *)
Definition sorted_range (d : list A) (a b : nat) : Prop :=
  forall i j, (a <= i)%nat -> (i <= j)%nat -> (j < b)%nat ->
    (key (d !!! i) <= key (d !!! j))%Z.

(** Every element of [d] at an index inside [a, b) satisfies [P]. *)
Definition all_in (P : A -> Prop) (d : list A) (a b : nat) : Prop :=
  forall i, (a <= i)%nat -> (i < b)%nat -> P (d !!! i).

(** The element before the range is a lower bound of the range. *)
Definition bounded_below (d : list A) (a b : nat) : Prop :=
  (1 <= a)%nat ->
  all_in (fun x => (key (d !!! (a - 1)%nat) <= key x)%Z) d a b.

(** In the heap laid out from index [first], node [i] is not less than its
    children below [hi]. *)
Definition dominates (d : list A) (first hi i : nat) : Prop :=
  forall c, (c = 2 * i + 1 \/ c = 2 * i + 2)%nat -> (c < hi)%nat ->
    (key (d !!! (first + c)%nat) <= key (d !!! (first + i)%nat))%Z.

(** The element at [mid] separates the range [a, b). *)
Definition partitioned_at (d : list A) (a mid b : nat) : Prop :=
  (forall k, (a <= k)%nat -> (k < mid)%nat ->
     (key (d !!! k) <= key (d !!! mid))%Z)
  /\ (forall k, (mid < k)%nat -> (k < b)%nat ->
       (key (d !!! mid) <= key (d !!! k))%Z).

End Ranges.

(** ** The effect of each method on the game

    The game a method leaves and whether it returned, as functions of the
    game it starts from; the lemmas of the next part show that the methods
    compute them. *)

Definition Effect : Type := Outcome unit * Game.

(** A packet of a host-only kind goes to the host of [g]. *)
Definition addressed (g : Game) (s : Sent) : Prop :=
  host_only s.2 = true -> s.1 = Host g.

Definition revealed (g : Game) : Game :=
  set_State RevealState
    (set_Players (Reveal_player <$> Players g) (set_Time 5 g)).

Definition advanced (g : Game) : Game :=
  set_CurrentQuestion (wrap (CurrentQuestion g + 1)) g.

Definition ended (g : Game) : Game :=
  set_State EndState (set_Ended true g).

Definition asking (g : Game) : Game :=
  set_State PlayState (set_Players (set_Answered false <$> Players g) g).

Definition NextQuestion_effect (g : Game) : Effect :=
  let g1 := advanced g in
  if bool_decide (len (Questions (Game_Quiz g)) <= CurrentQuestion g1)
  then (Returned tt, ended g1)
  else
    match index (Questions (Game_Quiz g)) (CurrentQuestion g1) with
    | Some q => (Returned tt, set_Time (Question_Time q) (asking g1))
    | None => (Panicked, asking g1)
    end.

Definition StartOrSkip_effect (g : Game) : Effect :=
  if bool_decide (State g = LobbyState)
  then NextQuestion_effect (set_State PlayState g)
  else NextQuestion_effect g.

Definition joined (name : string) (connection : Conn) (id : UUID) (g : Game)
  : Game :=
  set_Players (Players g ++ [mkPlayer id name connection 0 0 false]) g.

Definition left (player : Player) (g : Game) : Game :=
  set_Players (filter (fun p => Player_Id p <> Player_Id player) (Players g)) g.

(** [choices[choiceIndex].Correct] behind the bounds check. *)
Definition correct_choice (q : QuizQuestion) (choiceIndex : Z) : bool :=
  default false (Correct <$> index (Choices q) choiceIndex).

(** The game once [OnPlayerAnswer] has assigned the fields of the player. *)
Definition answered_by (correct : bool) (player : nat) (g : Game) : Game :=
  let g1 :=
    set_Players
      (alter (if correct then award (getPointsReward g)
              else set_LastAwardedPoints 0) player (Players g)) g in
  set_Players (alter (set_Answered true) player (Players g1)) g1.

Definition OnPlayerAnswer_effect (choice : Z) (player : nat) (g : Game)
  : Effect :=
  match index (Questions (Game_Quiz g)) (CurrentQuestion g) with
  | None => (Panicked, g)
  | Some q =>
      let g2 := answered_by (correct_choice q choice) player g in
      if bool_decide (len (getAnsweredPlayers g2) = len (Players g2))
      then (Returned tt, revealed g2)
      else (Returned tt, g2)
  end.

Section Effects.

Variable next : Z -> Z.

Definition ranked (g : Game) : Game :=
  set_Players (sort.Slice byPoints next (Players g)) g.

Definition Tick_effect (g : Game) : Effect :=
  let g1 := set_Time (wrap (Time g - 1)) g in
  if bool_decide (Time g1 = 0) then
    match State g1 with
    | PlayState => (Returned tt, revealed g1)
    | RevealState =>
        (Returned tt, ranked (set_State IntermissionState (set_Time 30 g1)))
    | IntermissionState => NextQuestion_effect g1
    | _ => (Returned tt, g1)
    end
  else (Returned tt, g1).

Definition exec_effect (op : Op) (g : Game) : Effect :=
  match op with
  | OpStartOrSkip => StartOrSkip_effect g
  | OpTimer =>
      if bool_decide (State g = LobbyState) then (Returned tt, g)
      else if Ended g then (Returned tt, g)
      else Tick_effect g
  | OpAnswer choice player => OnPlayerAnswer_effect choice player g
  | OpJoin name connection id => (Returned tt, joined name connection id g)
  | OpDisconnect player =>
      match Players g !! player with
      | Some p => (Returned tt, left p g)
      | None => (Returned tt, g)
      end
  end.

End Effects.

(** The game is over: [End] has run and the index is past the questions. *)
Definition over (g : Game) : Prop :=
  Ended g = true /\ State g = EndState
  /\ len (Questions (Game_Quiz g)) <= CurrentQuestion g.

(** The states an execution goes through: in the lobby before the first
    question, on a question of the quiz, or over. *)
Definition in_lobby (g : Game) : Prop :=
  State g = LobbyState /\ CurrentQuestion g = -1 /\ Ended g = false.

Definition on_question (g : Game) : Prop :=
  State g <> LobbyState /\ State g <> EndState /\ Ended g = false
  /\ 0 <= CurrentQuestion g < len (Questions (Game_Quiz g)).

Definition consistent (g : Game) : Prop :=
  in_lobby g \/ on_question g \/ over g.

(** Split the log of a sequence of calls into the logs of the calls. *)
Ltac split_log :=
  cbn [app]; rewrite ?app_nil_r, ?Forall_app; repeat split; try assumption.

(** ** Who is written to

    The connections a fan-out writes to, in order: it stops after the first
    write that returns an error. *)
Fixpoint upto_failure (ok : Conn -> bool) (cs : list Conn) : list Conn :=
  match cs with
  | [] => []
  | c :: cs' => c :: (if ok c then upto_failure ok cs' else [])
  end.

(** The players' connections in roster order, then the host's if asked. *)
Definition recipients (g : Game) (includeHost : bool) : list Conn :=
  (Connection <$> Players g) ++ (if includeHost then [Host g] else []).

(** The log of one packet written to each of the connections. *)
Definition to_each (cs : list Conn) (packet : Packet) : list Sent :=
  (fun c => (c, packet)) <$> cs.

(** What [Reveal] tells a player: the points of the last answer, or 0
    without an answer. *)
Definition reveal_points (p : Player) : Z :=
  if Answered p then LastAwardedPoints p else 0.

(** What the scoreboard knows of a player: who it is and the total. *)
Definition standing (p : Player) : UUID * string * Conn * Z :=
  (Player_Id p, Player_Name p, Connection p, Points p).

(** What identifies a game in the directory of the net service. *)
Definition same_identity (game game' : Game) : Prop :=
  Game_Id game' = Game_Id game /\ Code game' = Code game
  /\ Host game' = Host game /\ Game_Quiz game' = Game_Quiz game.

(** ** The session of a connection ([controller/ws.go])

    [Ws] reads messages from the connection until [ReadMessage] returns an
    error, hands each one to [OnIncomingMessage], and calls [OnDisconnect]
    on the error.  A session is given by the messages read before the
    error; with each comes the identifier and the random draw its handler
    may consume.  A panic in a handler unwinds the loop: [OnDisconnect] is
    not reached. *)
Record Read := mkRead {
  Read_mt : Z;
  Read_msg : list byte;
  Read_id : UUID;
  Read_r : Z
}.

Section WebsocketController.

Variable WriteMessage : Conn -> Packet -> bool.
Variable json : Json.
Variable ObjectIDFromHex : string -> option ObjectID.
Variable GetQuizById : ObjectID -> option Quiz.

Fixpoint Ws (games : list Game) (con : Conn) (reads : list Read) : Handled :=
  match reads with
  | [] => OnDisconnect WriteMessage games con
  | rd :: reads' =>
      match OnIncomingMessage WriteMessage json ObjectIDFromHex GetQuizById
              games con (Read_mt rd) (Read_msg rd) (Read_id rd) (Read_r rd) with
      | (Returned _, games1, out1) =>
          let '(res, games2, out2) := Ws games1 con reads' in
          (res, games2, out1 ++ out2)
      | (Panicked, games1, out1) => (Panicked, games1, out1)
      end
  end.

End WebsocketController.

(** A payload decoder for the examples that reads the same packet of each
    kind whatever the payload. *)
Definition json_const (connect : option (string * string))
  (host : option string) (answer : option Z) : Json :=
  mkJson (fun _ => connect) (fun _ => host) (fun _ => Some tt) (fun _ => answer).

(** The directory [games'] has every game of [games] at its place, with
    the same identifier, code, host and quiz. *)
Definition extends (games games' : list Game) : Prop :=
  (length games <= length games')%nat
  /\ forall k game, games !! k = Some game ->
       exists game', games' !! k = Some game' /\ same_identity game game'.

(** The notice of a change of state, as [ChangeState] writes it: to the
    players and then the host, up to the first write that fails. *)
Definition notice_log (WriteMessage : Conn -> Packet -> bool) (g : Game)
  (state : GameState) : list Sent :=
  to_each (upto_failure (fun c => WriteMessage c (ChangeGameStatePacket state))
                        (recipients g true))
          (ChangeGameStatePacket state).

(** ** The quiz repository, its service and its HTTP controller

    [collection/quiz.go], [service/quiz.go] and [controller/quiz.go].  The
    MongoDB driver, the parser of the request body and
    [primitive.ObjectIDFromHex] are parameters; [E] is the type of the
    errors they return.  A Go result [(value, err)] is a pair of options,
    [None] for [nil]. *)

(** An [error]: one the driver or the parser returned, or one made with
    [errors.New]. *)
Inductive error (E : Type) :=
  | Returned_error (e : E)
  | errors_New (text : string).
Arguments Returned_error {E} e.
Arguments errors_New {E} text.

(** What a handler of the controller answers: a status without a body
    ([ctx.SendStatus]), a body ([ctx.JSON]), or the error it returns to the
    framework. *)
Inductive Response (E : Type) :=
  | SendStatus (status : Z)
  | JSON_quiz (quiz : Quiz)
  | JSON_quizzes (quizzes : list Quiz)
  | Failed (err : error E).
Arguments SendStatus {E} status.
Arguments JSON_quiz {E} quiz.
Arguments JSON_quizzes {E} quizzes.
Arguments Failed {E} err.

Module QuizCollection.
Section QuizCollection.

Variable E : Type.
(** [FindOne(ctx, bson.M{"_id": id})] followed by [result.Decode(&quiz)]. *)
Variable FindOne : ObjectID -> E + Quiz.
(** [Find(ctx, bson.M{})] followed by [cursor.All(ctx, &quizzes)]. *)
Variable Find : E + list Quiz.
(** [UpdateOne(ctx, bson.M{"_id": id}, bson.M{"$set": quiz})]. *)
Variable UpdateOne : ObjectID -> Quiz -> option E.

Definition GetQuizzes : list Quiz * option E :=
  match Find with
  | inl err => ([], Some err)
  | inr quizzes => (quizzes, None)
  end.

Definition GetQuizById (id : ObjectID) : option Quiz * option E :=
  match FindOne id with
  | inl err => (None, Some err)
  | inr quiz => (Some quiz, None)
  end.

Definition UpdateQuiz (quiz : Quiz) : option E := UpdateOne (Quiz_Id quiz) quiz.

End QuizCollection.
End QuizCollection.

Module QuizService.
Section QuizService.

Variable E : Type.
Variable FindOne : ObjectID -> E + Quiz.
Variable Find : E + list Quiz.
Variable UpdateOne : ObjectID -> Quiz -> option E.

Definition GetQuizById (id : ObjectID) : option Quiz * option E :=
  QuizCollection.GetQuizById E FindOne id.

Definition UpdateQuiz (id : ObjectID) (name : string)
  (questions : list QuizQuestion) : option (error E) :=
  let '(quiz, err) := QuizCollection.GetQuizById E FindOne id in
  match err with
  | Some err => Some (Returned_error err)
  | None =>
      match quiz with
      | None => Some (errors_New "quiz not found")
      | Some quiz =>
          let quiz := mkQuiz (Quiz_Id quiz) name questions in
          Returned_error <$> QuizCollection.UpdateQuiz E UpdateOne quiz
      end
  end.

Definition GetQuizzes : list Quiz * option E :=
  QuizCollection.GetQuizzes E Find.

End QuizService.
End QuizService.

Module QuizController.
Section QuizController.

Variable E : Type.
Variable FindOne : ObjectID -> E + Quiz.
Variable Find : E + list Quiz.
Variable UpdateOne : ObjectID -> Quiz -> option E.
Variable ObjectIDFromHex : string -> option ObjectID.
(** [ctx.BodyParser(&req)] on the body of the request. *)
Variable BodyParser : list byte -> E + string * list QuizQuestion.

Definition GetQuizById (quizIdStr : string) : Response E :=
  match ObjectIDFromHex quizIdStr with
  | None => SendStatus 400
  | Some quizId =>
      let '(quiz, err) := QuizService.GetQuizById E FindOne quizId in
      match err with
      | Some err => Failed (Returned_error err)
      | None =>
          match quiz with
          | None => SendStatus 404
          | Some quiz => JSON_quiz quiz
          end
      end
  end.

Definition UpdateQuizById (quizIdStr : string) (body : list byte) : Response E :=
  match ObjectIDFromHex quizIdStr with
  | None => SendStatus 400
  | Some quizId =>
      match BodyParser body with
      | inl err => Failed (Returned_error err)
      | inr (name, questions) =>
          match QuizService.UpdateQuiz E FindOne UpdateOne quizId name questions with
          | Some err => Failed err
          | None => SendStatus 200
          end
      end
  end.

Definition GetQuizzes : Response E :=
  let '(quizzes, err) := QuizService.GetQuizzes E Find in
  match err with
  | Some err => Failed (Returned_error err)
  | None => JSON_quizzes quizzes
  end.

End QuizController.
End QuizController.

(** ** Quizzes with sensible times

    The time of every question of the quiz is between 1 and [B]. *)
Definition well_timed (B : Z) (quiz : Quiz) : Prop :=
  Forall (fun q => 1 <= Question_Time q <= B) (Questions quiz).

(** A player whose total is between 0 and [bound] and whose last award is
    not negative. *)
Definition player_ok (bound : Z) (p : Player) : Prop :=
  0 <= Points p <= bound /\ 0 <= LastAwardedPoints p.

(** What holds of a game of a well-timed quiz after [n] operations: the
    game is consistent, the index has gone up by at most one for each
    operation, the countdown is between 1 and [B] until the game ends, and
    no player has been awarded more than [5000 + 16 * B] for each
    operation. *)
Definition sound (B : Z) (n : nat) (g : Game) : Prop :=
  consistent g
  /\ well_timed B (Game_Quiz g)
  /\ len (Questions (Game_Quiz g)) <= max_int
  /\ CurrentQuestion g < Z.of_nat n
  /\ (State g <> EndState -> 1 <= Time g <= B)
  /\ Forall (player_ok (Z.of_nat n * (5000 + 16 * B))) (Players g).

(** The turns of the countdown a game spends on the questions [qs] when
    nobody answers: for each question its time, the 5 seconds [Reveal] sets
    and the 30 seconds [Intermission] sets. *)
Fixpoint unattended (qs : list QuizQuestion) : nat :=
  match qs with
  | [] => 0%nat
  | q :: qs' => (Z.to_nat (Question_Time q) + 35 + unattended qs')%nat
  end.

(** ** More sample data *)

(** Ann and Bob have joined and the host has started [quiz1]: the first
    question is open with 60 seconds to go. *)
Definition asked : Game :=
  (run delivered xorshift (two_joins ++ [OpStartOrSkip])
       (newGame quiz1 1%nat 7%N 0)).1.

(** Both have answered, Bob correctly: the answer is being revealed. *)
Definition revealing : Game :=
  (run delivered xorshift [OpAnswer 0 0; OpAnswer 1 1] asked).1.

(** The same start on [quiz0], whose question has no time. *)
Definition asked0 : Game :=
  (run delivered xorshift (two_joins ++ [OpStartOrSkip])
       (newGame quiz0 1%nat 7%N 0)).1.

(** A directory with one game in the lobby, which Ann has joined. *)
Definition lobby1 : list Game :=
  [(run delivered xorshift [OpJoin "ann" 2%nat 8%N]
        (newGame quiz1 1%nat 7%N 0)).1].

(** Messages of each kind the server reads, with the payload [{}]. *)
Definition msg_Connect : list byte := [x00; x7b; x7d].
Definition msg_HostGame : list byte := [x01; x7b; x7d].
Definition msg_StartGame : list byte := [x05; x7b; x7d].
Definition msg_QuestionAnswer : list byte := [x07; x7b; x7d].

(** A decoder that reads a join of Zoe with the code 100000, a request for
    the quiz [1] and the choice 1. *)
Definition json_sample : Json :=
  json_const (Some ("100000", "zoe")) (Some "1") (Some 1).

(** ** Executions that interrupt the countdown goroutine

    The goroutine of [Start] runs
    [for { if g.Ended { return }; g.Tick(); time.Sleep(time.Second) }]
    and nothing locks the game: the handler of a message can run between
    the test of [g.Ended] and the call of [g.Tick].  In [run] a turn of the
    goroutine ([OpTimer]) is the test followed at once by [Tick]; here the
    test and [Tick] are separate steps, and any handler may come between
    them.  [Pc] says where the goroutine stands: before its test (it sleeps,
    or does not exist yet: in the lobby the test step does nothing), between
    the test and [Tick], or returned.  The handlers and [Tick] themselves
    are not interrupted. *)
Inductive Pc := AtTest | AtTick | Gone.

Inductive Event :=
  | EvStartOrSkip
  | EvAnswer (choice : Z) (player : nat)
  | EvJoin (name : string) (connection : Conn) (id : UUID)
  | EvDisconnect (player : nat)
  | EvTest
  | EvTick.

Section Interleaving.

Variable WriteMessage : Conn -> Packet -> bool.
Variable next : Z -> Z.

(** The handler of a message: the goroutine stays where it is. *)
Definition handled (op : Op) (s : Game * Pc) : Game * Pc * list Sent :=
  let r := exec WriteMessage next op s.1 in
  (game_of r, s.2, sent r).

Definition step (e : Event) (s : Game * Pc) : Game * Pc * list Sent :=
  match e with
  | EvStartOrSkip => handled OpStartOrSkip s
  | EvAnswer choice player => handled (OpAnswer choice player) s
  | EvJoin name connection id => handled (OpJoin name connection id) s
  | EvDisconnect player => handled (OpDisconnect player) s
  | EvTest =>
      match s.2 with
      | AtTest =>
          if bool_decide (State s.1 = LobbyState) then (s, [])
          else if Ended s.1 then (s.1, Gone, [])
          else (s.1, AtTick, [])
      | _ => (s, [])
      end
  | EvTick =>
      match s.2 with
      | AtTick =>
          let r := Tick WriteMessage next s.1 in
          (game_of r, AtTest, sent r)
      | _ => (s, [])
      end
  end.

(** The game and the goroutine after a sequence of steps, and the packets
    sent. *)
Fixpoint play (es : list Event) (s : Game * Pc) : Game * Pc * list Sent :=
  match es with
  | [] => (s, [])
  | e :: es' =>
      let r := step e s in
      let r' := play es' r.1 in
      (r'.1, r.2 ++ r'.2)
  end.

End Interleaving.

(** The steps of an execution whose turns of the goroutine are not
    interrupted. *)
Definition schedule (ops : list Op) : list Event :=
  ops ≫= fun op =>
    match op with
    | OpStartOrSkip => [EvStartOrSkip]
    | OpTimer => [EvTest; EvTick]
    | OpAnswer choice player => [EvAnswer choice player]
    | OpJoin name connection id => [EvJoin name connection id]
    | OpDisconnect player => [EvDisconnect player]
    end.





(** * Properties *)

(** ** What the methods do to the game and which packets they send *)

Section Runs.

Variable WriteMessage : Conn -> Packet -> bool.
Variable next : Z -> Z.

Lemma SendPacket_run connection packet g :
  exists ok out,
    SendPacket WriteMessage connection packet g = (Returned ok, g, out)
    /\ Forall (fun s => s = (connection, packet)) out.
Proof.
  unfold SendPacket.
  destruct (packetToPacketId (Val packet)); cbn.
  - eexists _, _. split; [reflexivity|]. repeat constructor.
  - eexists _, _. split; [reflexivity|]. constructor.
Qed.

Lemma BroadcastPacket_players_run ps packet g :
  exists ok out,
    BroadcastPacket_players WriteMessage ps packet g = (Returned ok, g, out)
    /\ Forall (fun s => s.2 = packet /\ s.1 ∈ Connection <$> ps) out.
Proof.
  induction ps as [|p ps IH]; cbn.
  - eexists _, _. split; [reflexivity|]. constructor.
  - unfold bind.
    destruct (SendPacket_run (Connection p) packet g) as (ok & out & -> & Hout).
    destruct ok.
    + destruct IH as (ok' & out' & -> & Hout').
      eexists _, _. split; [reflexivity|].
      apply Forall_app. split.
      * eapply Forall_impl; [exact Hout|]. intros s ->. cbn.
        split; [reflexivity|]. left.
      * eapply Forall_impl; [exact Hout'|]. intros s [? ?].
        split; [assumption|]. cbn. right. assumption.
    + eexists _, _. split; [reflexivity|]. rewrite app_nil_r.
      eapply Forall_impl; [exact Hout|]. intros s ->. cbn.
      split; [reflexivity|]. left.
Qed.

Lemma BroadcastPacket_run packet includeHost g :
  exists ok out,
    BroadcastPacket WriteMessage packet includeHost g = (Returned ok, g, out)
    /\ Forall (fun s => s.2 = packet) out.
Proof.
  unfold BroadcastPacket, bind, get.
  destruct (BroadcastPacket_players_run (Players g) packet g)
    as (ok & out & -> & Hout).
  assert (Hout' : Forall (fun s : Sent => s.2 = packet) out).
  { eapply Forall_impl; [exact Hout|]. intros s [? _]. assumption. }
  destruct ok, includeHost; cbn.
  - destruct (SendPacket_run (Host g) packet g) as (ok & out2 & -> & Hout2).
    eexists _, _. split; [reflexivity|].
    apply Forall_app. split; [assumption|].
    eapply Forall_impl; [exact Hout2|]. intros s ->. reflexivity.
  - eexists _, _. split; [reflexivity|]. rewrite app_nil_r. assumption.
  - eexists _, _. split; [reflexivity|]. rewrite app_nil_r. assumption.
  - eexists _, _. split; [reflexivity|]. rewrite app_nil_r. assumption.
Qed.

Lemma ChangeState_run state g :
  exists out,
    ChangeState WriteMessage state g = (Returned tt, set_State state g, out)
    /\ Forall (fun s => s.2 = ChangeGameStatePacket state) out.
Proof.
  unfold ChangeState, bind, modify.
  destruct (BroadcastPacket_run (ChangeGameStatePacket state) true
              (set_State state g)) as (ok & out & -> & Hout).
  cbn. eexists. split; [reflexivity|]. rewrite app_nil_r. assumption.
Qed.

Lemma End_run g :
  exists out,
    End_ WriteMessage g
      = (Returned tt, set_State EndState (set_Ended true g), out)
    /\ Forall (fun s => s.2 = ChangeGameStatePacket EndState) out.
Proof.
  unfold End_, bind, modify.
  destruct (ChangeState_run EndState (set_Ended true g)) as (out & -> & Hout).
  cbn. eexists. split; [reflexivity|]. assumption.
Qed.

Lemma Reveal_players_run ps g :
  exists out,
    Reveal_players WriteMessage ps g = (Returned tt, g, out)
    /\ Forall (fun s => exists points, s.2 = PlayerRevealPacket points) out.
Proof.
  induction ps as [|p ps IH]; cbn [Reveal_players].
  - eexists. split; [reflexivity|]. constructor.
  - unfold bind.
    destruct (SendPacket_run (Connection p)
                (PlayerRevealPacket (LastAwardedPoints (Reveal_player p))) g)
      as (ok & out & -> & Hout).
    destruct IH as (out' & -> & Hout').
    eexists. split; [reflexivity|].
    apply Forall_app. split; [|assumption].
    eapply Forall_impl; [exact Hout|]. intros s ->. eexists. reflexivity.
Qed.

Lemma Reveal_run g :
  exists out,
    Reveal WriteMessage g = (Returned tt, revealed g, out)
    /\ Forall (fun s => host_only s.2 = false) out.
Proof.
  unfold Reveal, bind, modify, get.
  destruct (Reveal_players_run (Players (set_Time 5 g))
              (set_Players (Reveal_player <$> Players (set_Time 5 g))
                           (set_Time 5 g))) as (out & -> & Hout).
  destruct (ChangeState_run RevealState
              (set_Players (Reveal_player <$> Players (set_Time 5 g))
                           (set_Time 5 g))) as (out' & -> & Hout').
  cbn. eexists. split; [reflexivity|].
  apply Forall_app. split.
  - eapply Forall_impl; [exact Hout|]. intros s [n ->]. reflexivity.
  - eapply Forall_impl; [exact Hout'|]. intros s ->. reflexivity.
Qed.

Lemma Intermission_run g :
  exists out,
    Intermission WriteMessage next g
      = (Returned tt, ranked next (set_State IntermissionState (set_Time 30 g)), out)
    /\ Forall (addressed g) out.
Proof.
  unfold Intermission, getLeaderboard, bind, modify, get, ret.
  destruct (ChangeState_run IntermissionState (set_Time 30 g))
    as (out & -> & Hout).
  cbn [fst snd].
  match goal with
  | |- context [SendPacket WriteMessage ?c ?p ?g'] =>
      destruct (SendPacket_run c p g') as (ok & out' & -> & Hout')
  end.
  eexists. split; [reflexivity|].
  rewrite !app_nil_l, !app_nil_r.
  apply Forall_app. split.
  - eapply Forall_impl; [exact Hout|]. intros s Hs. unfold addressed.
    rewrite Hs. discriminate.
  - eapply Forall_impl; [exact Hout'|]. intros s ->. intros _. reflexivity.
Qed.


Lemma NextQuestion_run g :
  exists out,
    NextQuestion WriteMessage g = (NextQuestion_effect g, out)
    /\ Forall (addressed g) out
    /\ (len (Questions (Game_Quiz g)) <= CurrentQuestion (advanced g) ->
        Forall (fun s => s.2 = ChangeGameStatePacket EndState) out).
Proof.
  unfold NextQuestion, NextQuestion_effect, bind, modify, get.
  cbn [fst snd]. fold (advanced g).
  change (Game_Quiz (advanced g)) with (Game_Quiz g).
  case_bool_decide as Hlen.
  - destruct (End_run (advanced g)) as (out & -> & Hout).
    exists out. split; [reflexivity|]. split; [|intros _; assumption].
    eapply Forall_impl; [exact Hout|]. intros s Hs. unfold addressed.
    rewrite Hs. discriminate.
  - unfold ResetPlayerAnswerStates, modify.
    destruct (ChangeState_run PlayState
                (set_Players (set_Answered false <$> Players (advanced g))
                             (advanced g))) as (out & -> & Hout).
    change (set_State PlayState _) with (asking (advanced g)).
    unfold getCurrentQuestion, bind, get.
    change (Game_Quiz (asking (advanced g))) with (Game_Quiz g).
    change (CurrentQuestion (asking (advanced g)))
      with (CurrentQuestion (advanced g)).
    assert (Hout' : Forall (addressed g) out).
    { eapply Forall_impl; [exact Hout|]. intros s Hs. unfold addressed.
      rewrite Hs. discriminate. }
    destruct (index (Questions (Game_Quiz g)) (CurrentQuestion (advanced g)))
      as [q|]; cbn [ret panic fst snd].
    + match goal with
      | |- context [SendPacket WriteMessage ?c ?p ?g'] =>
          destruct (SendPacket_run c p g') as (ok & out' & -> & Hout2)
      end.
      eexists. split; [reflexivity|]. split; [|intros; lia].
      rewrite !app_nil_l, !app_nil_r.
      apply Forall_app. split; [assumption|].
      eapply Forall_impl; [exact Hout2|]. intros s ->. intros _. reflexivity.
    + eexists. split; [reflexivity|]. split; [|intros; lia].
      rewrite !app_nil_l, !app_nil_r. assumption.
Qed.

Lemma quiet_addressed g out :
  Forall (fun s : Sent => host_only s.2 = false) out ->
  Forall (addressed g) out.
Proof.
  intros Hout. eapply Forall_impl; [exact Hout|].
  intros s Hs. unfold addressed. rewrite Hs. discriminate.
Qed.

Lemma Tick_run g :
  exists out,
    Tick WriteMessage next g = (Tick_effect next g, out)
    /\ Forall (addressed g) out.
Proof.
  unfold Tick, Tick_effect, bind, modify, get. cbn [fst snd].
  set (g1 := set_Time (wrap (Time g - 1)) g).
  destruct (SendPacket_run (Host g1) (TickPacket (Time g1)) g1)
    as (ok & out & -> & Hout).
  assert (Hout' : Forall (addressed g) out).
  { eapply Forall_impl; [exact Hout|]. intros s ->. intros _. reflexivity. }
  case_bool_decide as Ht.
  - destruct (State g1).
    + eexists. split; [reflexivity|]. split_log.
    + destruct (Reveal_run g1) as (out' & -> & Hout2).
      eexists. split; [reflexivity|]. split_log.
      apply quiet_addressed. assumption.
    + destruct (NextQuestion_run g1) as (out' & -> & Hout2 & _).
      destruct (NextQuestion_effect g1) as [[] ?].
      * eexists. split; [reflexivity|]. split_log.
      * eexists. split; [reflexivity|]. split_log.
    + destruct (Intermission_run g1) as (out' & -> & Hout2).
      eexists. split; [reflexivity|]. split_log.
    + eexists. split; [reflexivity|]. split_log.
  - eexists. split; [reflexivity|]. split_log.
Qed.

Lemma StartOrSkip_run g :
  exists out,
    StartOrSkip WriteMessage g = (StartOrSkip_effect g, out)
    /\ Forall (addressed g) out
    /\ (State g <> LobbyState ->
        len (Questions (Game_Quiz g)) <= CurrentQuestion (advanced g) ->
        Forall (fun s => s.2 = ChangeGameStatePacket EndState) out).
Proof.
  unfold StartOrSkip, StartOrSkip_effect, Start, bind, get. cbn [fst snd].
  case_bool_decide as Hs.
  - destruct (ChangeState_run PlayState g) as (out & -> & Hout).
    destruct (NextQuestion_run (set_State PlayState g)) as (out' & -> & Hout' & _).
    destruct (NextQuestion_effect (set_State PlayState g)) as [r g'].
    eexists. split; [reflexivity|]. split; [|intros; congruence].
    split_log. eapply Forall_impl; [exact Hout|].
    intros s Hp. unfold addressed. rewrite Hp. discriminate.
  - destruct (NextQuestion_run g) as (out & -> & Hout & Hend).
    destruct (NextQuestion_effect g) as [r g'].
    eexists. split; [reflexivity|]. split_log. intros _. exact Hend.
Qed.

Lemma OnPlayerJoin_run name connection id g :
  exists out,
    OnPlayerJoin WriteMessage name connection id g
      = (Returned tt, joined name connection id g, out)
    /\ Forall (addressed g) out
    /\ Forall (fun s => is_progress s.2 = false) out.
Proof.
  unfold OnPlayerJoin, bind, modify, get. cbn [fst snd].
  fold (joined name connection id g).
  repeat match goal with
  | |- context [SendPacket WriteMessage ?c ?p ?g'] =>
      let H := fresh "Hout" in
      destruct (SendPacket_run c p g') as (? & ? & -> & H)
  end.
  eexists. split; [reflexivity|]. split_log.
  - eapply Forall_impl; [exact Hout|]. intros s ->. intros Hh. discriminate.
  - eapply Forall_impl; [exact Hout0|]. intros s ->. intros _. reflexivity.
  - eapply Forall_impl; [exact Hout|]. intros s ->. reflexivity.
  - eapply Forall_impl; [exact Hout0|]. intros s ->. reflexivity.
Qed.

Lemma OnPlayerDisconnect_run player g :
  exists out,
    OnPlayerDisconnect WriteMessage player g = (Returned tt, left player g, out)
    /\ Forall (addressed g) out
    /\ Forall (fun s => is_progress s.2 = false) out.
Proof.
  unfold OnPlayerDisconnect, bind, modify, get. cbn [fst snd].
  fold (left player g).
  match goal with
  | |- context [SendPacket WriteMessage ?c ?p ?g'] =>
      destruct (SendPacket_run c p g') as (? & ? & -> & Hout)
  end.
  eexists. split; [reflexivity|]. split_log.
  - eapply Forall_impl; [exact Hout|]. intros s ->. intros _. reflexivity.
  - eapply Forall_impl; [exact Hout|]. intros s ->. reflexivity.
Qed.

Lemma isCorrectChoice_run choiceIndex g :
  isCorrectChoice choiceIndex g
  = match index (Questions (Game_Quiz g)) (CurrentQuestion g) with
    | Some q => (Returned (correct_choice q choiceIndex), g, [])
    | None => (Panicked, g, [])
    end.
Proof.
  unfold isCorrectChoice, getCurrentQuestion, bind, get. cbn [fst snd].
  destruct (index (Questions (Game_Quiz g)) (CurrentQuestion g)) as [q|];
    [|reflexivity].
  cbn [ret fst snd]. unfold correct_choice, index.
  repeat case_bool_decide; cbn [orb]; try reflexivity; try lia.
  - rewrite lookup_ge_None_2; [reflexivity|]. unfold len in *. lia.
  - destruct (Choices q !! Z.to_nat choiceIndex) as [c|] eqn:Hc; [reflexivity|].
    apply lookup_ge_None_1 in Hc. unfold len in *. lia.
Qed.

Lemma OnPlayerAnswer_run choice player g :
  exists out,
    OnPlayerAnswer WriteMessage choice player g
      = (OnPlayerAnswer_effect choice player g, out)
    /\ Forall (fun s => host_only s.2 = false) out
    /\ (index (Questions (Game_Quiz g)) (CurrentQuestion g) = None -> out = []).
Proof.
  unfold OnPlayerAnswer, OnPlayerAnswer_effect, bind.
  rewrite isCorrectChoice_run.
  destruct (index (Questions (Game_Quiz g)) (CurrentQuestion g)) as [q|].
  2:{ exists (@nil Sent). repeat split. constructor. }
  unfold answered_by.
  destruct (correct_choice q choice); unfold modify, get; cbn [fst snd app];
    case_bool_decide;
    try (match goal with
         | |- context [Reveal WriteMessage ?G] =>
             destruct (Reveal_run G) as (out & -> & Hout)
         end);
    eexists; (split; [reflexivity|]); split_log;
    try constructor; try discriminate.
Qed.

Lemma exec_run op g :
  exists out,
    exec WriteMessage next op g = (exec_effect next op g, out)
    /\ Forall (addressed g) out
    /\ (over g -> CurrentQuestion g < max_int ->
        Forall (fun s => is_progress s.2 = false) out).
Proof.
  assert (Hnil : forall P : Sent -> Prop, Forall P []) by constructor.
  destruct op as [| |choice player|name connection id|player];
    cbn [exec exec_effect].
  - destruct (StartOrSkip_run g) as (out & -> & Hout & Hend).
    exists out. split; [reflexivity|]. split; [assumption|].
    intros (He & Hs & Hlen) Hmax.
    eapply Forall_impl; [apply Hend|].
    + congruence.
    + unfold advanced. cbn.
      pose proof (len_nonneg (Questions (Game_Quiz g))).
      rewrite wrap_small; unfold in_range, min_int, max_int in *; lia.
    + intros s ->. reflexivity.
  - unfold bind, get, timer_turn. cbn [fst snd].
    case_bool_decide; [exists []; cbn; auto|].
    unfold bind, get. cbn [fst snd].
    destruct (Ended g) eqn:He; [exists []; cbn; auto|].
    destruct (Tick_run g) as (out & -> & Hout).
    destruct (Tick_effect next g) as [r g'].
    exists out. split; [reflexivity|]. split; [assumption|].
    intros (He' & _). congruence.
  - destruct (OnPlayerAnswer_run choice player g) as (out & -> & Hout & Hnone).
    exists out. split; [reflexivity|]. split; [apply quiet_addressed; assumption|].
    intros (He & Hs & Hlen) Hmax. rewrite Hnone; [constructor|].
    unfold index. case_bool_decide; [|reflexivity].
    apply lookup_ge_None_2. unfold len in Hlen. lia.
  - destruct (OnPlayerJoin_run name connection id g) as (out & -> & Hout & Hq).
    exists out. auto.
  - unfold bind, get. cbn [fst snd].
    destruct (Players g !! player) as [p|]; [|exists []; cbn; auto].
    destruct (OnPlayerDisconnect_run p g) as (out & -> & Hout & Hq).
    exists out. auto.
Qed.

(** *** The question index along an execution *)

Lemma NextQuestion_effect_spec g :
  let g' := (NextQuestion_effect g).2 in
  Host g' = Host g /\ Game_Quiz g' = Game_Quiz g
  /\ CurrentQuestion g' = wrap (CurrentQuestion g + 1)
  /\ ((len (Questions (Game_Quiz g)) <= CurrentQuestion g'
       /\ State g' = EndState /\ Ended g' = true)
      \/ (CurrentQuestion g' < len (Questions (Game_Quiz g))
          /\ State g' = PlayState /\ Ended g' = Ended g)).
Proof.
  unfold NextQuestion_effect. cbn [advanced set_CurrentQuestion CurrentQuestion].
  case_bool_decide as Hlen.
  - cbn. repeat split. left. repeat split. assumption.
  - destruct (index _ _); cbn; repeat split; right; repeat split; lia.
Qed.

Lemma wrap_succ z : -1 <= z < max_int -> wrap (z + 1) = z + 1.
Proof.
  intros Hz. apply wrap_small. unfold in_range, min_int, max_int in *. lia.
Qed.

Lemma NextQuestion_effect_step g :
  len (Questions (Game_Quiz g)) <= max_int ->
  CurrentQuestion g < max_int ->
  ((CurrentQuestion g = -1 /\ Ended g = false) \/ on_question g \/ over g) ->
  let g' := (NextQuestion_effect g).2 in
  consistent g' /\ Host g' = Host g /\ Game_Quiz g' = Game_Quiz g
  /\ CurrentQuestion g' = CurrentQuestion g + 1
  /\ (over g -> over g')
  /\ (~ over g -> State g' = EndState ->
      CurrentQuestion g' = len (Questions (Game_Quiz g))).
Proof.
  intros Hlen Hmax Hg.
  pose proof (len_nonneg (Questions (Game_Quiz g))) as Hpos.
  assert (Hi : -1 <= CurrentQuestion g).
  { destruct Hg as [[Hi _]|[(_ & _ & _ & Hi)|(_ & _ & Hi)]]; lia. }
  destruct (NextQuestion_effect_spec g) as (Hh & Hq & Hidx & Hcase).
  rewrite wrap_succ in Hidx by lia.
  cbv zeta. rewrite Hq, Hh, Hidx.
  split; [|split; [reflexivity|split; [reflexivity|split; [reflexivity|]]]].
  - unfold consistent, on_question, over. rewrite Hq, Hidx.
    destruct Hcase as [(Hge & Hs & He)|(Hlt & Hs & He)].
    + right. right. repeat split; [assumption|assumption|lia].
    + right. left. rewrite Hs.
      assert (Ended g = false).
      { destruct Hg as [[_ He']|[(_ & _ & He' & _)|(_ & _ & Hi')]];
          [assumption|assumption|lia]. }
      repeat split; try discriminate; try lia. congruence.
  - split.
    + intros (He & Hs & Hi'). unfold over. rewrite Hq, Hidx.
      destruct Hcase as [(Hge & Hs' & He')|(Hlt & _)]; [|lia].
      repeat split; [assumption|assumption|lia].
    + intros Hno Hs.
      destruct Hcase as [(Hge & Hs' & He')|(Hlt & Hs' & _)]; [|congruence].
      destruct Hg as [Hm|[(_ & _ & _ & Hi')|Ho]]; [| lia |contradiction].
      lia.
Qed.

(** A game that differs from a consistent one in its countdown and roster
    only, or whose state moved between the question states, is consistent. *)
Lemma consistent_frame g g' :
  Game_Quiz g' = Game_Quiz g -> CurrentQuestion g' = CurrentQuestion g ->
  Ended g' = Ended g ->
  (State g' = State g
   \/ (State g <> LobbyState /\ State g <> EndState
       /\ State g' <> LobbyState /\ State g' <> EndState)) ->
  consistent g ->
  consistent g' /\ (over g -> over g')
  /\ (~ over g -> State g' = EndState ->
      CurrentQuestion g' = len (Questions (Game_Quiz g))).
Proof.
  intros Hq Hi He Hs Hg.
  unfold consistent, in_lobby, on_question, over in *.
  rewrite Hq, Hi, He.
  destruct Hs as [Hs|(H1 & H2 & H3 & H4)].
  - rewrite Hs. intuition congruence.
  - intuition congruence.
Qed.

Lemma index_Some_range {A} (s : list A) i x :
  index s i = Some x -> 0 <= i < len s.
Proof.
  unfold index, len. case_bool_decide; [|discriminate].
  intros Hx. apply lookup_lt_Some in Hx. lia.
Qed.

Lemma exec_effect_step op g :
  len (Questions (Game_Quiz g)) <= max_int ->
  CurrentQuestion g < max_int ->
  consistent g ->
  let g' := (exec_effect next op g).2 in
  consistent g' /\ Host g' = Host g /\ Game_Quiz g' = Game_Quiz g
  /\ (CurrentQuestion g' = CurrentQuestion g
      \/ CurrentQuestion g' = CurrentQuestion g + 1)
  /\ (over g -> over g')
  /\ (~ over g -> State g' = EndState ->
      CurrentQuestion g' = len (Questions (Game_Quiz g))).
Proof.
  intros Hlen Hmax Hg.
  assert (Hsame : forall g', Host g' = Host g -> Game_Quiz g' = Game_Quiz g ->
    CurrentQuestion g' = CurrentQuestion g -> Ended g' = Ended g ->
    (State g' = State g
     \/ (State g <> LobbyState /\ State g <> EndState
         /\ State g' <> LobbyState /\ State g' <> EndState)) ->
    consistent g' /\ Host g' = Host g /\ Game_Quiz g' = Game_Quiz g
    /\ (CurrentQuestion g' = CurrentQuestion g
        \/ CurrentQuestion g' = CurrentQuestion g + 1)
    /\ (over g -> over g')
    /\ (~ over g -> State g' = EndState ->
        CurrentQuestion g' = len (Questions (Game_Quiz g)))).
  { intros g' Hh Hq Hi He Hs.
    destruct (consistent_frame g g' Hq Hi He Hs Hg) as (? & ? & ?).
    intuition auto. }
  assert (Hnext : forall g1, Host g1 = Host g -> Game_Quiz g1 = Game_Quiz g ->
    CurrentQuestion g1 = CurrentQuestion g ->
    ((CurrentQuestion g1 = -1 /\ Ended g1 = false) \/ on_question g1 \/ over g1) ->
    (over g -> over g1) -> (over g1 -> over g) ->
    let g' := (NextQuestion_effect g1).2 in
    consistent g' /\ Host g' = Host g /\ Game_Quiz g' = Game_Quiz g
    /\ (CurrentQuestion g' = CurrentQuestion g
        \/ CurrentQuestion g' = CurrentQuestion g + 1)
    /\ (over g -> over g')
    /\ (~ over g -> State g' = EndState ->
        CurrentQuestion g' = len (Questions (Game_Quiz g)))).
  { intros g1 Hh Hq Hi Hc Ho1 Ho2.
    destruct (NextQuestion_effect_step g1) as (? & Hh' & Hq' & Hi' & Ho' & He');
      [rewrite Hq; assumption|rewrite Hi; assumption|assumption|].
    cbv zeta. rewrite Hh', Hq', Hi', Hh, Hi. rewrite Hq in *.
    intuition (auto; try congruence). }
  destruct op as [| |choice player|name connection id|player];
    cbn [exec_effect].
  - unfold StartOrSkip_effect. case_bool_decide as Hs.
    + apply Hnext; try reflexivity.
      * left. destruct Hg as [(_ & ? & ?)|[(? & _)|(_ & ? & _)]];
          [split; assumption|contradiction|congruence].
      * intros (_ & ? & _). congruence.
      * intros (_ & ? & _). discriminate.
    + apply Hnext; try reflexivity; auto.
      destruct Hg as [(? & _)|[?|?]]; [contradiction|auto|auto].
  - case_bool_decide as Hs; [apply Hsame; auto|].
    destruct (Ended g) eqn:He; [apply Hsame; auto|].
    assert (Hon : on_question g).
    { destruct Hg as [(? & _)|[?|(? & _)]]; [contradiction|assumption|congruence]. }
    destruct Hon as (Hs1 & Hs2 & _ & Hi).
    unfold Tick_effect. cbn [State set_Time].
    case_bool_decide; [|apply Hsame; auto].
    destruct (State g) eqn:Hst; try contradiction.
    + apply Hsame; auto; right; repeat split; discriminate.
    + apply Hnext; try reflexivity.
      * right. left. unfold on_question. cbn. rewrite Hst.
        repeat split; try discriminate; try assumption; lia.
      * intros (? & _). congruence.
      * intros (? & _). cbn in *. congruence.
    + apply Hsame; auto; right; repeat split; discriminate.
  - unfold OnPlayerAnswer_effect.
    destruct (index _ _) as [q|] eqn:Hq; [|apply Hsame; auto].
    apply index_Some_range in Hq.
    assert (Hon : on_question g).
    { destruct Hg as [(_ & ? & _)|[?|(_ & _ & ?)]]; [lia|assumption|lia]. }
    destruct Hon as (Hs1 & Hs2 & _ & Hi).
    case_bool_decide; apply Hsame; auto;
      right; repeat split; (discriminate || assumption).
  - apply Hsame; auto.
  - destruct (Players g !! player); apply Hsame; auto.
Qed.

Lemma exec_effect_Host op g : Host (exec_effect next op g).2 = Host g.
Proof.
  destruct op as [| |choice player|name connection id|player];
    cbn [exec_effect].
  - unfold StartOrSkip_effect. case_bool_decide.
    + destruct (NextQuestion_effect_spec (set_State PlayState g)) as (-> & _).
      reflexivity.
    + destruct (NextQuestion_effect_spec g) as (-> & _). reflexivity.
  - case_bool_decide; [reflexivity|]. destruct (Ended g); [reflexivity|].
    unfold Tick_effect. case_bool_decide; [|reflexivity].
    cbn [State set_Time]. destruct (State g); try reflexivity.
    destruct (NextQuestion_effect_spec (set_Time (wrap (Time g - 1)) g))
      as (-> & _). reflexivity.
  - unfold OnPlayerAnswer_effect. destruct (index _ _); [|reflexivity].
    case_bool_decide; reflexivity.
  - reflexivity.
  - destruct (Players g !! player); reflexivity.
Qed.

Lemma game_of_exec op g :
  game_of (exec WriteMessage next op g) = (exec_effect next op g).2.
Proof. destruct (exec_run op g) as (out & -> & _). reflexivity. Qed.

Lemma run_app ops1 ops2 g :
  run WriteMessage next (ops1 ++ ops2) g
  = ((run WriteMessage next ops2 (run WriteMessage next ops1 g).1).1,
     (run WriteMessage next ops1 g).2
       ++ (run WriteMessage next ops2 (run WriteMessage next ops1 g).1).2).
Proof.
  revert g. induction ops1 as [|op ops1 IH]; intros g; cbn [run app fst snd].
  - destruct (run WriteMessage next ops2 g). reflexivity.
  - rewrite IH. cbn [fst snd]. rewrite app_assoc. reflexivity.
Qed.

Lemma run_Host ops g :
  Host (run WriteMessage next ops g).1 = Host g
  /\ Forall (addressed g) (run WriteMessage next ops g).2.
Proof.
  revert g. induction ops as [|op ops IH]; intros g; cbn [run].
  - split; [reflexivity|constructor].
  - destruct (exec_run op g) as (out & Hr & Hout & _).
    pose proof (exec_effect_Host op g) as Hh.
    destruct (IH (game_of (exec WriteMessage next op g))) as [Hh' Hout'].
    rewrite game_of_exec in *.
    cbn [fst snd] in *. rewrite Hr. cbn [sent snd].
    split; [congruence|]. apply Forall_app. split; [assumption|].
    eapply Forall_impl; [exact Hout'|]. unfold addressed. intros s Hs Hk.
    rewrite <- Hh. auto.
Qed.


Lemma newGame_consistent quiz host id r : consistent (newGame quiz host id r).
Proof. left. repeat split. Qed.

End Runs.

(** ** The question index (C3) *)




(** ** Who receives the question (C9) *)

Lemma on_game_sent (P : Sent -> Prop) games k (m : M unit) :
  (forall game, games !! k = Some game -> Forall P (m game).2) ->
  Forall P (on_game games k m).2.
Proof.
  intros Hm. unfold on_game. destruct (games !! k) as [game|] eqn:Hk.
  - specialize (Hm game eq_refl). destruct (m game) as [[res game'] out].
    exact Hm.
  - constructor.
Qed.

(** Through the routing of the net service, a packet of a host-only kind
    goes to the host of a game of the directory. *)
Lemma route_to_host
  (WriteMessage : Conn -> Packet -> bool)
  (ObjectIDFromHex : string -> option ObjectID)
  (GetQuizById : ObjectID -> option Quiz)
  (games : list Game) (con : Conn) (id : UUID) (r : Z) (packet : any) :
  Forall (fun s => host_only s.2 = true ->
                   exists game, In game games /\ s.1 = Host game)
         (route WriteMessage ObjectIDFromHex GetQuizById games con id r packet).2.
Proof.
  assert (Hin : forall k game (out : list Sent),
            games !! k = Some game -> Forall (addressed game) out ->
            Forall (fun s => host_only s.2 = true ->
                             exists game, In game games /\ s.1 = Host game) out).
  { intros k game out Hk Hout. eapply Forall_impl; [exact Hout|].
    intros s Hs Hh. exists game. split; [|apply Hs; exact Hh].
    apply list_elem_of_In. eapply list_elem_of_lookup_2. exact Hk. }
  destruct packet as [p|p]; [constructor|].
  destruct p; cbn [route]; try constructor.
  - destruct (getGameByCode games code) as [[k ?]|]; [|constructor].
    apply on_game_sent. intros game Hk.
    destruct (OnPlayerJoin_run WriteMessage name con id game)
      as (out & -> & Hout & _).
    eapply Hin; eassumption.
  - destruct (ObjectIDFromHex quizId) as [quizId'|]; [|constructor].
    destruct (GetQuizById quizId') as [quiz|]; [|constructor].
    unfold bind.
    repeat match goal with
    | |- context [SendPacket WriteMessage ?c ?q ?g'] =>
        let H := fresh "Hout" in
        destruct (SendPacket_run WriteMessage c q g') as (? & ? & -> & H)
    end.
    cbn [ret fst snd app]. rewrite app_nil_r. apply Forall_app. split.
    + eapply Forall_impl; [exact Hout|]. intros s ->. discriminate.
    + eapply Forall_impl; [exact Hout0|]. intros s ->. discriminate.
  - destruct (getGameByHost games con) as [[k ?]|]; [|constructor].
    apply on_game_sent. intros game Hk.
    destruct (StartOrSkip_run WriteMessage game) as (out & -> & Hout & _).
    eapply Hin; eassumption.
  - destruct (getGameByPlayer games con) as [[[k i] ?]|]; [|constructor].
    apply on_game_sent. intros game Hk.
    destruct (OnPlayerAnswer_run WriteMessage question i game)
      as (out & -> & Hout & _).
    eapply Hin; [exact Hk|]. apply quiet_addressed. exact Hout.
Qed.

(** C9, as the code has it.  Along every execution of a game, a
    QuestionShow packet (and every packet of a host-only kind) is sent to
    the host connection of the game and to no other connection: a
    connection that is not the host's never receives one.  A player's
    connection receives it exactly when it is the host's own connection.
    Through the net service, an incoming message makes no QuestionShow
    packet go anywhere but to the host of a game of the directory. *)
Theorem C9_question_show_to_host
  (WriteMessage : Conn -> Packet -> bool) (next : Z -> Z)
  (g : Game) (ops : list Op) :
  Host (run WriteMessage next ops g).1 = Host g
  /\ Forall (fun s => is_QuestionShow s.2 = true -> s.1 = Host g)
            (run WriteMessage next ops g).2
  /\ (forall connection, connection <> Host g ->
       Forall (fun s => s.1 = connection -> is_QuestionShow s.2 = false)
              (run WriteMessage next ops g).2)
  /\ (forall json ObjectIDFromHex GetQuizById games con mt msg id r,
       Forall (fun s => is_QuestionShow s.2 = true ->
                        exists game, In game games /\ s.1 = Host game)
              (OnIncomingMessage WriteMessage json ObjectIDFromHex GetQuizById
                                 games con mt msg id r).2).
Proof.
  destruct (run_Host WriteMessage next ops g) as [Hh Hout].
  split; [exact Hh|]. split; [|split].
  - eapply Forall_impl; [exact Hout|]. intros [c p] Ha Hq. apply Ha.
    destruct p; try discriminate. reflexivity.
  - intros connection Hne. eapply Forall_impl; [exact Hout|].
    intros [c p] Ha Hc. cbn in *. subst c.
    destruct p; try reflexivity. exfalso. apply Hne. apply Ha. reflexivity.
  - intros json ObjectIDFromHex GetQuizById games con mt msg id r.
    unfold OnIncomingMessage. destruct (decode json msg) as [packet|];
      [|constructor].
    eapply Forall_impl; [apply route_to_host|].
    intros [c p] Ha Hq. apply Ha. destruct p; try discriminate. reflexivity.
Qed.

(** The claim that no player's connection ever receives a QuestionShow
    packet fails: nothing keeps the host connection from joining its own
    game.  Connection 1 hosts the game, joins it with a Connect message and
    starts it; the question, with the correctness flags of its choices, is
    then sent to connection 1, which is the connection of a player of the
    roster. *)
Lemma C9_counterexample :
  let res :=
    run delivered xorshift [OpJoin "host" 1%nat 8%N; OpStartOrSkip]
        (newGame quiz1 1%nat 7%N 0) in
  In (1%nat, QuestionShowPacket question60) res.2
  /\ In 1%nat (map Connection (Players res.1)).
Proof.
  vm_compute. split; repeat (first [left; reflexivity | right]).
Qed.

(** ** Answers and points (C1, C4, C10) *)

Lemma filter_Answered_alter (f : Player -> Player) (ps : list Player) i :
  (forall p, Answered (f p) = Answered p) ->
  length (filter (fun p => Answered p = true) (alter f i ps))
  = length (filter (fun p => Answered p = true) ps).
Proof.
  intros Hf. revert i. induction ps as [|p ps IH]; intros [|i];
    cbn [alter list_alter]; try reflexivity.
  - rewrite !filter_cons, Hf. destruct (decide (Answered p = true)); reflexivity.
  - rewrite !filter_cons. destruct (decide (Answered p = true)); cbn [length];
      rewrite IH; reflexivity.
Qed.

Lemma filter_Answered_fmap (f : Player -> Player) (ps : list Player) :
  (forall p, Answered (f p) = Answered p) ->
  length (filter (fun p => Answered p = true) (f <$> ps))
  = length (filter (fun p => Answered p = true) ps).
Proof.
  intros Hf. induction ps as [|p ps IH]; [reflexivity|].
  rewrite fmap_cons, !filter_cons, Hf.
  destruct (decide (Answered p = true)); cbn [length];
    rewrite IH; reflexivity.
Qed.

Lemma filter_Answered_set (ps : list Player) i p :
  ps !! i = Some p ->
  length (filter (fun p => Answered p = true) (alter (set_Answered true) i ps))
  = (length (filter (fun p => Answered p = true) ps)
     + if Answered p then 0 else 1)%nat.
Proof.
  revert i. induction ps as [|p0 ps IH]; intros [|i] Hp;
    cbn [alter list_alter lookup list_lookup] in *; try discriminate.
  - injection Hp as ->. rewrite !filter_cons. cbn [Answered set_Answered].
    rewrite decide_True by reflexivity.
    destruct (Answered p) eqn:Hp; cbn [length].
    + rewrite decide_True by reflexivity. cbn [length]. lia.
    + rewrite decide_False by discriminate. lia.
  - rewrite !filter_cons. destruct (decide (Answered p0 = true)); cbn [length];
      rewrite (IH _ Hp); reflexivity.
Qed.

Lemma Reveal_player_Answered p : Answered (Reveal_player p) = Answered p.
Proof. unfold Reveal_player. destruct (Answered p) eqn:E; cbn; congruence. Qed.

Lemma award_Answered z p : Answered (award z p) = Answered p.
Proof. reflexivity. Qed.

(** The player at position [i] once [OnPlayerAnswer] has returned. *)
Lemma OnPlayerAnswer_effect_player choice i g q p :
  index (Questions (Game_Quiz g)) (CurrentQuestion g) = Some q ->
  Players g !! i = Some p ->
  let e := OnPlayerAnswer_effect choice i g in
  e.1 = Returned tt
  /\ Players e.2 !! i
     = Some (set_Answered true
               ((if correct_choice q choice then award (getPointsReward g)
                 else set_LastAwardedPoints 0) p))
  /\ length (getAnsweredPlayers e.2)
     = (length (getAnsweredPlayers g) + if Answered p then 0 else 1)%nat.
Proof.
  intros Hq Hp. unfold OnPlayerAnswer_effect. rewrite Hq.
  set (f := if correct_choice q choice then award (getPointsReward g)
            else set_LastAwardedPoints 0).
  assert (Hf : forall p', Answered (f p') = Answered p').
  { intros p'. unfold f. destruct (correct_choice q choice); reflexivity. }
  assert (H2 : Players (answered_by (correct_choice q choice) i g) !! i
               = Some (set_Answered true (f p))).
  { unfold answered_by. cbn. rewrite !list_lookup_alter_eq, Hp. reflexivity. }
  assert (H3 : length (getAnsweredPlayers
                         (answered_by (correct_choice q choice) i g))
               = (length (getAnsweredPlayers g)
                  + if Answered p then 0 else 1)%nat).
  { unfold getAnsweredPlayers, answered_by. cbn.
    rewrite (filter_Answered_set _ i (f p)).
    - rewrite filter_Answered_alter by exact Hf. rewrite Hf. reflexivity.
    - rewrite list_lookup_alter_eq, Hp. reflexivity. }
  case_bool_decide; cbn [fst snd]; (split; [reflexivity|]).
  - split.
    + unfold revealed. cbn [Players set_State set_Players].
      rewrite list_lookup_fmap, H2. reflexivity.
    + rewrite <- H3. unfold getAnsweredPlayers, revealed.
      cbn [Players set_State set_Players].
      apply filter_Answered_fmap, Reveal_player_Answered.
  - split; assumption.
Qed.

(** C1, as the code has it.  Whenever a question is current (in the Play
    state in particular) an answer of the player at position [i] returns.
    If the chosen choice is correct, the points awarded are
    [orderBonus + timeBonus] in 64-bit arithmetic, where [orderBonus] is
    5000 minus 1000 times [min(4, answered)], [answered] being the number
    of players whose answered flag is set when the answer arrives (for a
    player who had not answered yet: the number who have answered including
    this one, minus 1), and [timeBonus] is 16 times the countdown, 16 being
    the integer quotient [1000 / 60].  With 30 seconds left the 1st, 2nd, 5th
    and 6th respondents are awarded 5480, 4480, 1480 and 1480.  An incorrect
    or out-of-range choice awards 0. *)
Theorem C1_scoring
  (WriteMessage : Conn -> Packet -> bool)
  (g : Game) (q : QuizQuestion) (choice : Z) (i : nat) (p : Player) :
  index (Questions (Game_Quiz g)) (CurrentQuestion g) = Some q ->
  Players g !! i = Some p ->
  let res := OnPlayerAnswer WriteMessage choice i g in
  let awarded := LastAwardedPoints <$> Players (game_of res) !! i in
  let answered := len (getAnsweredPlayers g) in
  let orderBonus := 5000 - 1000 * Z.min 4 answered in
  outcome res = Returned tt
  /\ (Answered p = false ->
      answered = len (getAnsweredPlayers (game_of res)) - 1)
  /\ (correct_choice q choice = true ->
      awarded = Some (wrap (orderBonus + wrap (Time g * 16)))
      /\ (- 2 ^ 58 <= Time g <= 2 ^ 58 ->
          awarded = Some (orderBonus + 16 * Time g))
      /\ (Time g = 30 ->
          (answered = 0 -> awarded = Some 5480)
          /\ (answered = 1 -> awarded = Some 4480)
          /\ (answered = 4 -> awarded = Some 1480)
          /\ (answered = 5 -> awarded = Some 1480)))
  /\ (correct_choice q choice = false -> awarded = Some 0).
Proof.
  intros Hq Hp res awarded answered orderBonus.
  destruct (OnPlayerAnswer_run WriteMessage choice i g) as (out & Hr & _).
  destruct (OnPlayerAnswer_effect_player choice i g q p Hq Hp)
    as (Hret & Hpl & Hcount).
  assert (Hgame : game_of res = (OnPlayerAnswer_effect choice i g).2).
  { unfold res. rewrite Hr. reflexivity. }
  assert (Hbonus : - 2 ^ 58 <= Time g <= 2 ^ 58 ->
            wrap (orderBonus + wrap (Time g * 16)) = orderBonus + 16 * Time g).
  { intros Ht. pose proof (len_nonneg (getAnsweredPlayers g)).
    assert (1000 <= orderBonus <= 5000) by (unfold orderBonus; fold answered; lia).
    rewrite (wrap_small (Time g * 16));
      [rewrite wrap_small|]; unfold in_range, min_int, max_int; lia. }
  split; [unfold res, outcome; rewrite Hr; exact Hret|].
  split.
  { intros Ha. rewrite Hgame. unfold answered, len. rewrite Hcount, Ha. lia. }
  unfold awarded. rewrite Hgame, Hpl.
  split.
  - intros ->. cbn [fmap option_fmap option_map LastAwardedPoints set_Answered
                    award set_LastAwardedPoints set_Points].
    assert (Hreward : getPointsReward g
                      = wrap (orderBonus + wrap (Time g * 16))) by reflexivity.
    rewrite Hreward.
    split; [reflexivity|]. split.
    + intros Ht. rewrite Hbonus by exact Ht. reflexivity.
    + intros Ht. rewrite Hbonus by (rewrite Ht; lia). rewrite Ht.
      unfold orderBonus.
      repeat split; intros ->; reflexivity.
  - intros ->. reflexivity.
Qed.

(** The first respondent, 30 seconds into the 60-second question of
    [quiz1], choosing the correct choice. *)
Lemma C1_scoring_witness :
  let g := (run delivered xorshift half_time (newGame quiz1 1%nat 7%N 0)).1 in
  index (Questions (Game_Quiz g)) (CurrentQuestion g) = Some question60
  /\ Players g !! 0%nat = Some (mkPlayer 0%N "0" 10%nat 0 0 false)
  /\ State g = PlayState /\ Time g = 30
  /\ LastAwardedPoints
       <$> Players (game_of (OnPlayerAnswer delivered 1 0 g)) !! 0%nat
     = Some 5480.
Proof.
  pose (g := (run delivered xorshift half_time (newGame quiz1 1%nat 7%N 0)).1).
  assert (Hq : index (Questions (Game_Quiz g)) (CurrentQuestion g)
               = Some question60) by (vm_compute; reflexivity).
  assert (Hp : Players g !! 0%nat = Some (mkPlayer 0%N "0" 10%nat 0 0 false))
    by (vm_compute; reflexivity).
  split; [exact Hq|]. split; [exact Hp|].
  split; [vm_compute; reflexivity|]. split; [vm_compute; reflexivity|].
  destruct (C1_scoring delivered g question60 1 0%nat _ Hq Hp)
    as (_ & _ & Hc & _).
  destruct (Hc ltac:(vm_compute; reflexivity)) as (_ & _ & H30).
  destruct (H30 ltac:(vm_compute; reflexivity)) as (H0 & _).
  exact (H0 ltac:(vm_compute; reflexivity)).
Defined.

(** The figures of the claim fail.  Six players answer the 60-second
    question correctly, one after the other, with 30 seconds left: they are
    awarded 5480, 4480, 3480, 2480, 1480 and 1480 points, not 5500, 4500,
    1500 and 1500 for the 1st, 2nd, 5th and 6th, the time bonus being
    [30 * 16]. *)
Lemma C1_counterexample :
  let g30 := (run delivered xorshift half_time (newGame quiz1 1%nat 7%N 0)).1 in
  let g :=
    (run delivered xorshift
       [OpAnswer 1 0; OpAnswer 1 1; OpAnswer 1 2;
        OpAnswer 1 3; OpAnswer 1 4; OpAnswer 1 5] g30).1 in
  State g30 = PlayState /\ Time g30 = 30
  /\ Question_Time <$> index (Questions (Game_Quiz g30)) (CurrentQuestion g30)
     = Some 60
  /\ LastAwardedPoints <$> Players g = [5480; 4480; 3480; 2480; 1480; 1480]
  /\ LastAwardedPoints <$> Players g !! 0%nat <> Some 5500.
Proof. vm_compute. repeat split; discriminate. Qed.

(** C10, as the code has it.  [OnPlayerAnswer] tests neither the answered
    flag of the player nor the state of the game: whenever a question is
    current, a correct answer of a player whose flag is already set returns
    and awards [getPointsReward] again, adding it to the cumulative total
    (in 64-bit arithmetic).  The award is at least 1000 and the total
    increases each time, provided the countdown is not negative and
    nothing overflows the 64-bit int: 16 times the countdown plus 5000 and
    the new total are at most [2^63 - 1] (the old total being an int, at
    least [-2^63]). *)
Theorem C10_repeated_answer
  (WriteMessage : Conn -> Packet -> bool)
  (g : Game) (q : QuizQuestion) (choice : Z) (i : nat) (p : Player) :
  index (Questions (Game_Quiz g)) (CurrentQuestion g) = Some q ->
  Players g !! i = Some p ->
  Answered p = true ->
  correct_choice q choice = true ->
  let res := OnPlayerAnswer WriteMessage choice i g in
  let reward := getPointsReward g in
  outcome res = Returned tt
  /\ exists p',
       Players (game_of res) !! i = Some p'
       /\ Answered p' = true
       /\ LastAwardedPoints p' = reward
       /\ Points p' = wrap (Points p + reward)
       /\ (0 <= Time g -> Time g * 16 + 5000 <= max_int ->
           min_int <= Points p -> Points p + reward <= max_int ->
           1000 <= reward /\ Points p < Points p').
Proof.
  intros Hq Hp Ha Hc res reward.
  destruct (OnPlayerAnswer_run WriteMessage choice i g) as (out & Hr & _).
  destruct (OnPlayerAnswer_effect_player choice i g q p Hq Hp)
    as (Hret & Hpl & _).
  split; [unfold res, outcome; rewrite Hr; exact Hret|].
  unfold res, game_of. rewrite Hr. cbn [fst snd]. rewrite Hpl, Hc.
  eexists. split; [reflexivity|].
  cbn [Answered LastAwardedPoints Points set_Answered award
       set_LastAwardedPoints set_Points].
  fold reward. repeat split.
  - unfold reward, getPointsReward.
    pose proof (len_nonneg (getAnsweredPlayers g)).
    rewrite (wrap_small (Time g * (1000 / 60)));
      [rewrite wrap_small|]; change (1000 / 60) with 16;
      unfold in_range, min_int, max_int in *; lia.
  - assert (Hreward : 1000 <= reward).
    { unfold reward, getPointsReward.
      pose proof (len_nonneg (getAnsweredPlayers g)).
      rewrite (wrap_small (Time g * (1000 / 60)));
        [rewrite wrap_small|]; change (1000 / 60) with 16;
        unfold in_range, min_int, max_int in *; lia. }
    rewrite wrap_small; unfold in_range, min_int in *; lia.
Qed.

(** A second correct answer with 30 seconds left, as the only respondent
    so far: 4480 more points. *)
Lemma C10_repeated_answer_witness :
  let g :=
    (run delivered xorshift (half_time ++ [OpAnswer 1 0])
         (newGame quiz1 1%nat 7%N 0)).1 in
  Answered <$> Players g !! 0%nat = Some true
  /\ Points <$> Players g !! 0%nat = Some 5480
  /\ Points <$> Players (game_of (OnPlayerAnswer delivered 1 0 g)) !! 0%nat
     = Some 9960.
Proof.
  pose (g := (run delivered xorshift (half_time ++ [OpAnswer 1 0])
                  (newGame quiz1 1%nat 7%N 0)).1).
  assert (Hq : index (Questions (Game_Quiz g)) (CurrentQuestion g)
               = Some question60) by (vm_compute; reflexivity).
  assert (Hp : Players g !! 0%nat
               = Some (mkPlayer 0%N "0" 10%nat 5480 5480 true))
    by (vm_compute; reflexivity).
  split; [vm_compute; reflexivity|]. split; [vm_compute; reflexivity|].
  destruct (C10_repeated_answer delivered g question60 1 0%nat _ Hq Hp
              eq_refl eq_refl) as (_ & p' & Hp' & _ & _ & Hpoints & _).
  change (Points <$> Players (game_of (OnPlayerAnswer delivered 1 0 g)) !! 0%nat
          = Some 9960).
  rewrite Hp'. cbn [fmap option_fmap option_map]. rewrite Hpoints.
  vm_compute. reflexivity.
Defined.

(** The total does not always increase.  The question of [quiz0] has no
    time budget, so the countdown starts at 0 and the goroutine takes it
    below zero without ever revealing; after 300 turns the first correct
    answer of a player is worth 200 points and her second one -800: her total
    falls from 200 to -600. *)
Lemma C10_counterexample :
  let g :=
    (run delivered xorshift (waiting 300 ++ [OpAnswer 0 0])
         (newGame quiz0 1%nat 7%N 0)).1 in
  let res := OnPlayerAnswer delivered 0 0 g in
  State g = PlayState /\ Time g = -300
  /\ Answered <$> Players g !! 0%nat = Some true
  /\ Points <$> Players g !! 0%nat = Some 200
  /\ outcome res = Returned tt
  /\ LastAwardedPoints <$> Players (game_of res) !! 0%nat = Some (-800)
  /\ Points <$> Players (game_of res) !! 0%nat = Some (-600).
Proof. vm_compute. repeat split. Qed.

(** ** Answers without a current question (C4) *)

Lemma OnPlayerAnswer_without_question
  (WriteMessage : Conn -> Packet -> bool) (g : Game) (choice : Z) (i : nat) :
  index (Questions (Game_Quiz g)) (CurrentQuestion g) = None ->
  OnPlayerAnswer WriteMessage choice i g = (Panicked, g, []).
Proof.
  intros Hq.
  destruct (OnPlayerAnswer_run WriteMessage choice i g) as (out & -> & _ & Hout).
  rewrite (Hout Hq). unfold OnPlayerAnswer_effect. rewrite Hq. reflexivity.
Qed.

(** C4 fails on the code.  [isCorrectChoice] checks the choice index
    against the choices but [getCurrentQuestion] indexes the questions with
    no check: in the lobby (index -1) and after the last question (index at
    the count) the answer of a player stops in the panic
    [index out of range], both in [OnPlayerAnswer] and through the routing
    of the QuestionAnswer packet of that player's connection. *)
Lemma C4_answer_without_question_panics :
  let lobby :=
    (run delivered xorshift [OpJoin "ann" 2%nat 8%N]
         (newGame quiz1 1%nat 7%N 0)).1 in
  let finished :=
    (run delivered xorshift [OpStartOrSkip; OpStartOrSkip] lobby).1 in
  (State lobby = LobbyState /\ CurrentQuestion lobby = -1
   /\ outcome (OnPlayerAnswer delivered 0 0 lobby) = Panicked
   /\ (route delivered (fun _ => None) (fun _ => None) [lobby]
              2%nat 9%N 0 (Ptr (QuestionAnswerPacket 0))).1.1 = Panicked)
  /\ (State finished = EndState /\ CurrentQuestion finished = 1
      /\ outcome (OnPlayerAnswer delivered 0 0 finished) = Panicked).
Proof. vm_compute. repeat split. Qed.

(** ** The packet codec (C8, C2) *)

Lemma packetIdToPacket_Some packetId packet :
  packetIdToPacket packetId = Some packet ->
  In packetId [x00; x01; x05; x07]
  /\ In packet [Ptr (ConnectPacket "" ""); Ptr (HostGamePacket "");
                Ptr StartGamePacket; Ptr (QuestionAnswerPacket 0)].
Proof.
  destruct packetId; cbn; intros Hp; try discriminate;
    injection Hp as <-; split; auto 10.
Qed.

Lemma packetIdToPacket_None packetId :
  ~ In packetId [x00; x01; x05; x07] -> packetIdToPacket packetId = None.
Proof.
  intros Hn. destruct (packetIdToPacket packetId) eqn:Hp; [|reflexivity].
  apply packetIdToPacket_Some in Hp. tauto.
Qed.

(** C8.  Decoding an incoming message yields a typed packet exactly when
    the message has at least 2 bytes, its first byte is one of the tags 0
    (Connect), 1 (HostGame), 5 (StartGame) and 7 (QuestionAnswer), and the
    remaining bytes decode as the payload of that kind.  In every other case
    (a message under 2 bytes, another tag, a payload [json.Unmarshal]
    refuses) no packet is produced and [OnIncomingMessage] returns with no
    packet sent and the games as they were. *)
Theorem C8_decoding
  (WriteMessage : Conn -> Packet -> bool) (json : Json)
  (ObjectIDFromHex : string -> option ObjectID)
  (GetQuizById : ObjectID -> option Quiz)
  (games : list Game) (con : Conn) (mt : Z) (msg : list byte)
  (id : UUID) (r : Z) :
  (forall packet,
     decode json msg = Some packet <->
     (2 <= length msg)%nat
     /\ exists packetId data zero,
          msg = packetId :: data
          /\ In packetId [x00; x01; x05; x07]
          /\ packetIdToPacket packetId = Some zero
          /\ json_Unmarshal json data zero = Some packet)
  /\ ((length msg < 2)%nat -> decode json msg = None)
  /\ (forall packetId data,
        msg = packetId :: data -> ~ In packetId [x00; x01; x05; x07] ->
        decode json msg = None)
  /\ (forall packetId data zero,
        msg = packetId :: data -> packetIdToPacket packetId = Some zero ->
        json_Unmarshal json data zero = None -> decode json msg = None)
  /\ (decode json msg = None ->
      OnIncomingMessage WriteMessage json ObjectIDFromHex GetQuizById
                        games con mt msg id r
      = (Returned tt, games, [])).
Proof.
  split; [|split; [|split; [|split]]].
  - intros packet. unfold decode. split.
    + case_bool_decide as Hlen; [discriminate|].
      destruct msg as [|packetId data]; [discriminate|].
      destruct (packetIdToPacket packetId) as [zero|] eqn:Hz; [|discriminate].
      intros Hp. split; [lia|]. exists packetId, data, zero.
      repeat split; try assumption.
      apply packetIdToPacket_Some in Hz. tauto.
    + intros (Hlen & packetId & data & zero & -> & _ & Hz & Hp).
      rewrite bool_decide_eq_false_2 by lia. rewrite Hz. exact Hp.
  - intros Hlen. unfold decode. rewrite bool_decide_eq_true_2 by exact Hlen.
    reflexivity.
  - intros packetId data -> Hn. unfold decode.
    case_bool_decide; [reflexivity|].
    rewrite packetIdToPacket_None by exact Hn. reflexivity.
  - intros packetId data zero -> Hz Hp. unfold decode.
    case_bool_decide; [reflexivity|]. rewrite Hz. exact Hp.
  - intros Hd. unfold OnIncomingMessage. rewrite Hd. reflexivity.
Qed.

(** C2, as the code has it.  Every packet the decoder yields is a pointer
    to a Connect, HostGame, StartGame or QuestionAnswer struct, and
    re-encoding it fails ([invalid packet type]): the encoder tags the
    values of the kinds the server emits, never a pointer.  Of the four
    kinds only the HostGame value has a tag, 1, the tag it was decoded from;
    its encoding decodes back to the packet when [json.Unmarshal] reads what
    [json.Marshal] wrote.  The Connect, StartGame and QuestionAnswer values
    are refused as well. *)
Theorem C2_reencoding
  (json : Json) (marshal : Packet -> list byte)
  (msg : list byte) (packet : any) :
  decode json msg = Some packet ->
  PacketToBytes marshal packet = None
  /\ exists p,
       packet = Ptr p
       /\ match p with
          | HostGamePacket quizId =>
              PacketToBytes marshal (Val p) = Some (x01 :: marshal p)
              /\ (marshal p <> [] ->
                  Unmarshal_HostGame json (marshal p) = Some quizId ->
                  decode json (x01 :: marshal p) = Some packet)
          | ConnectPacket _ _ | StartGamePacket | QuestionAnswerPacket _ =>
              PacketToBytes marshal (Val p) = None
          | _ => False
          end.
Proof.
  unfold decode. case_bool_decide as Hlen; [discriminate|].
  destruct msg as [|packetId data]; [discriminate|].
  destruct (packetIdToPacket packetId) as [zero|] eqn:Hz; [|discriminate].
  apply packetIdToPacket_Some in Hz. destruct Hz as [_ Hz].
  cbn in Hz. intros Hp.
  destruct Hz as [<-|[<-|[<-|[<-|[]]]]]; cbn in Hp.
  - destruct (Unmarshal_Connect json data) as [[c n]|]; [|discriminate].
    injection Hp as <-. split; [reflexivity|]. eexists. split; reflexivity.
  - destruct (Unmarshal_HostGame json data) as [q|]; [|discriminate].
    injection Hp as <-. split; [reflexivity|]. eexists.
    split; [reflexivity|]. split; [reflexivity|].
    intros Hne Hq. cbn [length].
    rewrite bool_decide_eq_false_2.
    + cbn. rewrite Hq. reflexivity.
    + destruct (marshal (HostGamePacket q)); [congruence|cbn; lia].
  - destruct (Unmarshal_StartGame json data); [|discriminate].
    injection Hp as <-. split; [reflexivity|]. eexists. split; reflexivity.
  - destruct (Unmarshal_QuestionAnswer json data) as [q|]; [|discriminate].
    injection Hp as <-. split; [reflexivity|]. eexists. split; reflexivity.
Qed.

(** The StartGame message [5 { }]. *)
Lemma C2_reencoding_witness :
  decode json_braces [x05; x7b; x7d] = Some (Ptr StartGamePacket)
  /\ PacketToBytes (fun _ => [x7b; x7d]) (Ptr StartGamePacket) = None.
Proof.
  assert (H : decode json_braces [x05; x7b; x7d] = Some (Ptr StartGamePacket))
    by reflexivity.
  split; [exact H|].
  exact (proj1 (C2_reencoding json_braces (fun _ => [x7b; x7d])
                  [x05; x7b; x7d] (Ptr StartGamePacket) H)).
Defined.

(** Encoding after decoding does not round-trip for every kind the server
    reads: the StartGame message [5 { }] decodes, and the packet it decodes
    to cannot be encoded, as the pointer the decoder yields or as the struct
    it points to, whatever [json.Marshal] would write. *)
Lemma C2_counterexample :
  decode json_braces [x05; x7b; x7d] = Some (Ptr StartGamePacket)
  /\ packetToPacketId (Ptr StartGamePacket) = None
  /\ packetToPacketId (Val StartGamePacket) = None
  /\ (forall marshal : Packet -> list byte,
        PacketToBytes marshal (Ptr StartGamePacket) = None
        /\ PacketToBytes marshal (Val StartGamePacket) = None).
Proof. repeat split. Qed.

(** ** The sort of the roster (C6, C7) *)

Section SliceProperties.

Context {A : Type} `{Inhabited A}.
Variable less : A -> A -> bool.
Variable next : Z -> Z.

Lemma Swap_Permutation (data : list A) i j :
  Permutation (sort.Swap data i j) data.
Proof.
  unfold sort.Swap.
  destruct (data !! i) as [x|] eqn:Hi; [|reflexivity].
  destruct (data !! j) as [y|] eqn:Hj; [|reflexivity].
  apply Permutation_insert_swap; assumption.
Qed.

(** Every step of the sort is a swap: a loop that only swaps permutes. *)
Ltac swaps IH :=
  repeat first
    [ reflexivity
    | rewrite IH
    | rewrite Swap_Permutation
    | match goal with
      | |- context [if ?b then _ else _] => destruct b
      | |- context [match ?x with _ => _ end] => destruct x
      end ].

Lemma insertionSort_shift_Permutation a j (data : list A) :
  Permutation (sort.insertionSort_shift less a j data) data.
Proof.
  revert data. induction j as [|j IH]; intros data; cbn; [reflexivity|].
  swaps IH.
Qed.

Lemma insertionSort_func_Permutation (data : list A) a b :
  Permutation (sort.insertionSort_func less data a b) data.
Proof.
  unfold sort.insertionSort_func. generalize (a + 1)%nat as i.
  generalize (b - a)%nat as n. intros n. revert data.
  induction n as [|n IH]; intros data i; cbn; [reflexivity|].
  case_bool_decide; [|reflexivity].
  rewrite IH. apply insertionSort_shift_Permutation.
Qed.

Lemma siftDown_func_Permutation (data : list A) lo hi first :
  Permutation (sort.siftDown_func less data lo hi first) data.
Proof.
  unfold sort.siftDown_func. generalize hi at 1 as n. intros n.
  revert data lo. induction n as [|n IH]; intros data lo; cbn;
    [reflexivity|].
  swaps IH.
Qed.

Lemma heapSort_func_Permutation (data : list A) a b :
  Permutation (sort.heapSort_func less data a b) data.
Proof.
  unfold sort.heapSort_func.
  assert (Hbuild : forall n data hi first,
            Permutation (sort.heapSort_build less n data hi first) data).
  { intros n. induction n as [|n IH]; intros d hi first; cbn; [reflexivity|].
    rewrite IH. apply siftDown_func_Permutation. }
  assert (Hpop : forall n data lo first,
            Permutation (sort.heapSort_pop less n data lo first) data).
  { intros n. induction n as [|n IH]; intros d lo first; cbn; [reflexivity|].
    rewrite IH, siftDown_func_Permutation. apply Swap_Permutation. }
  rewrite Hpop. apply Hbuild.
Qed.

Lemma partition_loop_Permutation n (data : list A) a b i j :
  Permutation (sort.partition_loop less n data a b i j).1 data.
Proof.
  revert data i j. induction n as [|n IH]; intros data i j; cbn;
    [reflexivity|].
  case_bool_decide; [reflexivity|].
  rewrite IH. apply Swap_Permutation.
Qed.

Lemma partition_func_Permutation (data : list A) a b pivot :
  Permutation (sort.partition_func less data a b pivot).1.1 data.
Proof.
  unfold sort.partition_func. case_bool_decide; cbn [fst].
  - rewrite !Swap_Permutation. reflexivity.
  - match goal with
    | |- context [sort.partition_loop less ?n ?d ?a ?b ?i ?j] =>
        pose proof (partition_loop_Permutation n d a b i j) as Hl;
        destruct (sort.partition_loop less n d a b i j) as [d' j']
    end.
    cbn [fst] in *. rewrite Swap_Permutation, Hl, !Swap_Permutation.
    reflexivity.
Qed.

Lemma partitionEqual_func_Permutation (data : list A) a b pivot :
  Permutation (sort.partitionEqual_func less data a b pivot).1 data.
Proof.
  unfold sort.partitionEqual_func.
  assert (Hl : forall n data i j,
            Permutation (sort.partitionEqual_loop less n data a b i j).1 data).
  { intros n. induction n as [|n IH]; intros d i j; cbn; [reflexivity|].
    case_bool_decide; [reflexivity|]. rewrite IH. apply Swap_Permutation. }
  rewrite Hl. apply Swap_Permutation.
Qed.

Lemma partialInsertionSort_func_Permutation (data : list A) a b :
  Permutation (sort.partialInsertionSort_func less data a b).1 data.
Proof.
  unfold sort.partialInsertionSort_func.
  assert (Hleft : forall j data, Permutation (sort.shift_left less j data) data).
  { intros j. induction j as [|j IH]; intros d; cbn; [reflexivity|].
    swaps IH. }
  assert (Hright : forall n j data,
            Permutation (sort.shift_right less n b j data) data).
  { intros n. induction n as [|n IH]; intros j d; cbn; [reflexivity|].
    swaps IH. }
  assert (Hl : forall steps (d : list A) i,
            Permutation
              (sort.partialInsertionSort_loop less steps d a b i).1 d).
  { intros steps. induction steps as [|steps IH]; intros d i; cbn;
      [reflexivity|].
    case_bool_decide; [reflexivity|]. case_bool_decide; [reflexivity|].
    rewrite IH.
    repeat first [rewrite Hleft | rewrite Hright | rewrite Swap_Permutation
                 | case_bool_decide | reflexivity]. }
  apply Hl.
Qed.

Lemma reverseRange_func_Permutation (data : list A) a b :
  Permutation (sort.reverseRange_func data a b) data.
Proof.
  unfold sort.reverseRange_func. generalize (b - a)%nat as n.
  generalize (b - 1)%nat as j. generalize a as i. intros i j n.
  revert data i j.
  induction n as [|n IH]; intros data i j; cbn; [reflexivity|].
  swaps IH.
Qed.

Lemma breakPatterns_func_Permutation (data : list A) a b :
  Permutation (sort.breakPatterns_func next data a b) data.
Proof.
  assert (Hl : forall n (d : list A) len idx i random modulus,
            Permutation
              (sort.breakPatterns_loop next n d a len idx i random modulus) d).
  { intros n. induction n as [|n IH]; intros d len idx i random modulus;
      cbn; [reflexivity|].
    rewrite IH. apply Swap_Permutation. }
  unfold sort.breakPatterns_func. case_bool_decide; [apply Hl|reflexivity].
Qed.

Lemma pdqsort_pivot_Permutation (data : list A) a b limit balanced partitioned :
  Permutation
    (sort.pdqsort_pivot less next data a b limit balanced partitioned).1.1.1
    data.
Proof.
  unfold sort.pdqsort_pivot.
  destruct balanced; cbn [negb].
  - destruct (sort.choosePivot_func less data a b) as [pivot []];
      try reflexivity.
    + destruct (true && partitioned); [|reflexivity].
      pose proof (partialInsertionSort_func_Permutation data a b) as Hp.
      destruct (sort.partialInsertionSort_func less data a b). exact Hp.
    + destruct (true && partitioned).
      * pose proof (partialInsertionSort_func_Permutation
                      (sort.reverseRange_func data a b) a b) as Hp.
        destruct (sort.partialInsertionSort_func less _ a b). cbn in *.
        rewrite Hp. apply reverseRange_func_Permutation.
      * apply reverseRange_func_Permutation.
  - destruct (sort.choosePivot_func less _ a b) as [pivot []]; cbn;
      rewrite ?reverseRange_func_Permutation;
      apply breakPatterns_func_Permutation.
Qed.

Lemma pdqsort_func_Permutation n (data : list A) a b limit balanced partitioned :
  Permutation
    (sort.pdqsort_func less next n data a b limit balanced partitioned) data.
Proof.
  revert data a b limit balanced partitioned.
  induction n as [|n IH]; intros data a b limit balanced partitioned;
    [reflexivity|].
  change (Permutation
    (if bool_decide (b - a <= 12)%nat then sort.insertionSort_func less data a b
     else if bool_decide (limit = 0%nat) then sort.heapSort_func less data a b
     else
       let '(data, limit, pivot, sorted) :=
         sort.pdqsort_pivot less next data a b limit balanced partitioned in
       if sorted then data
       else if bool_decide (0 < a)%nat
               && negb (sort.Less less data (a - 1) pivot) then
         let '(data, mid) := sort.partitionEqual_func less data a b pivot in
         sort.pdqsort_func less next n data mid b limit balanced partitioned
       else
         let '(data, mid, alreadyPartitioned) :=
           sort.partition_func less data a b pivot in
         if bool_decide (mid - a < b - mid)%nat then
           sort.pdqsort_func less next n
             (sort.pdqsort_func less next n data a mid limit true true)
             (mid + 1) b limit
             (bool_decide ((b - a) / 8 <= mid - a)%nat) alreadyPartitioned
         else
           sort.pdqsort_func less next n
             (sort.pdqsort_func less next n data (mid + 1) b limit true true)
             a mid limit
             (bool_decide ((b - a) / 8 <= b - mid)%nat) alreadyPartitioned)
    data).
  case_bool_decide; [apply insertionSort_func_Permutation|].
  case_bool_decide; [apply heapSort_func_Permutation|].
  pose proof (pdqsort_pivot_Permutation data a b limit balanced partitioned)
    as Hp.
  destruct (sort.pdqsort_pivot less next data a b limit balanced partitioned)
    as [[[data1 limit1] pivot] sorted].
  cbn [fst] in Hp. destruct sorted; [exact Hp|].
  destruct (bool_decide (0 < a)%nat && negb (sort.Less less data1 (a - 1) pivot)).
  - pose proof (partitionEqual_func_Permutation data1 a b pivot) as He.
    destruct (sort.partitionEqual_func less data1 a b pivot) as [data2 mid].
    cbn [fst] in He. rewrite IH, He. exact Hp.
  - pose proof (partition_func_Permutation data1 a b pivot) as He.
    destruct (sort.partition_func less data1 a b pivot) as [[data2 mid] already].
    cbn [fst] in He. case_bool_decide; rewrite !IH, He; exact Hp.
Qed.

(** [sort.Slice] permutes the slice. *)
Lemma Slice_Permutation (x : list A) :
  Permutation (sort.Slice less next x) x.
Proof. apply pdqsort_func_Permutation. Qed.

End SliceProperties.

Section InsertionSort.

Context {A : Type} `{Inhabited A}.
Variable less : A -> A -> bool.

Lemma Swap_adjacent (pre post : list A) x y :
  sort.Swap (pre ++ y :: x :: post) (S (length pre)) (length pre)
  = pre ++ x :: y :: post.
Proof.
  unfold sort.Swap.
  replace ((pre ++ y :: x :: post) !! S (length pre)) with (Some x).
  2:{ rewrite lookup_app_r by lia.
      replace (S (length pre) - length pre)%nat with 1%nat by lia.
      reflexivity. }
  replace ((pre ++ y :: x :: post) !! length pre) with (Some y).
  2:{ rewrite lookup_app_r by lia. rewrite Nat.sub_diag. reflexivity. }
  rewrite (insert_app_r_alt _ _ (length pre)) by lia.
  rewrite Nat.sub_diag. cbn [insert list_insert].
  rewrite (insert_app_r_alt _ _ (S (length pre))) by lia.
  replace (S (length pre) - length pre)%nat with 1%nat by lia.
  reflexivity.
Qed.

Lemma insertionSort_shift_ins (rp post : list A) x :
  sort.insertionSort_shift less 0 (length rp) (rev rp ++ x :: post)
  = rev (ins less x rp) ++ post.
Proof.
  revert post. induction rp as [|y rp IH]; intros post; [reflexivity|].
  cbn [length sort.insertionSort_shift ins rev].
  rewrite bool_decide_eq_true_2 by lia. cbn [andb].
  assert (Hless : sort.Less less ((rev rp ++ [y]) ++ x :: post)
                            (S (length rp)) (length rp) = less x y).
  { unfold sort.Less. rewrite <- app_assoc. cbn [app].
    rewrite <- (length_rev rp). f_equal.
    - apply list_lookup_total_correct. rewrite lookup_app_r by lia.
      replace (S (length (rev rp)) - length (rev rp))%nat with 1%nat by lia.
      reflexivity.
    - apply list_lookup_total_correct. rewrite lookup_app_r by lia.
      rewrite Nat.sub_diag. reflexivity. }
  rewrite Hless. destruct (less x y).
  - assert (Hswap : sort.Swap ((rev rp ++ [y]) ++ x :: post)
                              (S (length rp)) (length rp)
                    = rev rp ++ x :: y :: post).
    { rewrite <- app_assoc. cbn [app]. rewrite <- (length_rev rp).
      apply Swap_adjacent. }
    rewrite Hswap, IH. cbn [rev]. rewrite <- app_assoc. reflexivity.
  - cbn [rev]. rewrite <- !app_assoc. reflexivity.
Qed.

Lemma insertionSort_loop_ins n (rp rest : list A) :
  (length rest <= n)%nat -> rp <> [] ->
  sort.insertionSort_loop less 0 (length rp + length rest) (length rp) n
                          (rev rp ++ rest)
  = rev (foldl (fun rp x => ins less x rp) rp rest).
Proof.
  revert rp rest. induction n as [|n IH]; intros rp rest Hn Hrp.
  - destruct rest; [|cbn in Hn; lia]. cbn. rewrite app_nil_r. reflexivity.
  - cbn [sort.insertionSort_loop]. destruct rest as [|x rest].
    + rewrite bool_decide_eq_false_2 by (cbn; lia). cbn.
      rewrite app_nil_r. reflexivity.
    + rewrite bool_decide_eq_true_2 by (cbn; lia).
      rewrite insertionSort_shift_ins. cbn [foldl length].
      assert (Hlen : length (ins less x rp) = S (length rp)).
      { clear. induction rp as [|y rp IH]; cbn; [reflexivity|].
        destruct (less x y); cbn; [rewrite IH|]; reflexivity. }
      replace (length rp + S (length rest))%nat
        with (length (ins less x rp) + length rest)%nat by lia.
      rewrite <- Hlen. apply IH; [cbn in Hn; lia|].
      intros E. rewrite E in Hlen. discriminate.
Qed.

Lemma insertionSort_func_ins (data : list A) :
  sort.insertionSort_func less data 0 (length data)
  = insertion_sorted less data.
Proof.
  unfold sort.insertionSort_func, insertion_sorted.
  destruct data as [|x rest]; [reflexivity|].
  cbn [length foldl ins]. rewrite Nat.sub_0_r.
  exact (insertionSort_loop_ins (S (length rest)) [x] rest ltac:(lia)
           ltac:(discriminate)).
Qed.

(** On a slice of at most 12 elements [sort.Slice] is the insertion sort. *)
Lemma Slice_short (next : Z -> Z) (x : list A) :
  (length x <= 12)%nat -> sort.Slice less next x = insertion_sorted less x.
Proof.
  intros Hx. unfold sort.Slice. cbn [sort.pdqsort_func].
  rewrite bool_decide_eq_true_2 by lia. apply insertionSort_func_ins.
Qed.

End InsertionSort.

(** *** [sort.Slice] sorts

    Every function of the sort only swaps elements inside its range, and
    leaves the range as its comment in the library says; the keys are any
    integers that [less] compares. *)

Section SwapsIn.
Context {A : Type} `{Inhabited A}.

Lemma Swap_length (d : list A) i j : length (sort.Swap d i j) = length d.
Proof.
  unfold sort.Swap. destruct (d !! i), (d !! j); try reflexivity.
  rewrite !length_insert. reflexivity.
Qed.

Lemma Swap_total (d : list A) i j :
  (i < length d)%nat -> (j < length d)%nat ->
  sort.Swap d i j = <[i := d !!! j]> (<[j := d !!! i]> d).
Proof.
  intros Hi Hj. unfold sort.Swap.
  destruct (lookup_lt_is_Some_2 d i Hi) as [x Hx].
  destruct (lookup_lt_is_Some_2 d j Hj) as [y Hy].
  rewrite Hx, Hy.
  rewrite (list_lookup_total_correct _ _ _ Hx), (list_lookup_total_correct _ _ _ Hy).
  reflexivity.
Qed.

(** What [Swap] leaves at each index, when both indices are in the slice. *)
Lemma Swap_lookup (d : list A) i j k :
  (i < length d)%nat -> (j < length d)%nat ->
  sort.Swap d i j !!! k
  = if decide (k = i) then d !!! j else if decide (k = j) then d !!! i else d !!! k.
Proof.
  intros Hi Hj. rewrite Swap_total by assumption.
  destruct (decide (k = i)) as [->|Hki].
  - apply list_lookup_total_correct. apply list_lookup_insert_eq.
    rewrite length_insert. assumption.
  - rewrite list_lookup_total_insert_ne by congruence.
    destruct (decide (k = j)) as [->|Hkj].
    + apply list_lookup_total_correct. apply list_lookup_insert_eq. assumption.
    + rewrite list_lookup_total_insert_ne by congruence. reflexivity.
Qed.

Lemma swaps_in_trans a b (d1 d2 d3 : list A) :
  swaps_in a b d1 d2 -> swaps_in a b d2 d3 -> swaps_in a b d1 d3.
Proof.
  induction 1 as [|d i j d' Hi Hj Hb Hs IH]; intros H3; [assumption|].
  apply (swaps_in_step a b d i j d3 Hi Hj Hb). apply IH. assumption.
Qed.

Lemma swaps_in_Swap a b (d : list A) i j :
  (a <= i < b)%nat -> (a <= j < b)%nat -> (b <= length d)%nat ->
  swaps_in a b d (sort.Swap d i j).
Proof.
  intros Hi Hj Hb. apply (swaps_in_step a b d i j _ Hi Hj Hb). constructor.
Qed.

Lemma swaps_in_length a b (d d' : list A) :
  swaps_in a b d d' -> length d' = length d.
Proof.
  induction 1 as [|d i j d' Hi Hj Hb Hs IH]; [reflexivity|].
  rewrite IH. apply Swap_length.
Qed.

Lemma swaps_in_weaken a b a' b' (d d' : list A) :
  (a' <= a)%nat -> (b <= b')%nat -> (b' <= length d)%nat ->
  swaps_in a b d d' -> swaps_in a' b' d d'.
Proof.
  intros Ha Hb Hl. induction 1 as [|d i j d' Hi Hj Hb' Hs IH]; [constructor|].
  apply (swaps_in_step a' b' d i j d'); [lia|lia|assumption|].
  apply IH. rewrite Swap_length. assumption.
Qed.

(** Swaps inside a range leave the elements outside it in place. *)
Lemma swaps_in_outside a b (d d' : list A) k :
  swaps_in a b d d' -> (k < a \/ b <= k)%nat -> d' !!! k = d !!! k.
Proof.
  induction 1 as [|d i j d' Hi Hj Hb Hs IH]; intros Hk; [reflexivity|].
  rewrite IH by assumption. rewrite Swap_lookup by lia.
  rewrite !decide_False by lia. reflexivity.
Qed.

(** What holds of every element of the range holds after swaps inside it. *)
Lemma swaps_in_all (P : A -> Prop) a b (d d' : list A) :
  swaps_in a b d d' -> all_in P d a b -> all_in P d' a b.
Proof.
  induction 1 as [|d i j d' Hi Hj Hb Hs IH]; intros Hall; [assumption|].
  apply IH. intros k Hk1 Hk2. rewrite Swap_lookup by lia.
  destruct (decide (k = i)); [apply Hall; lia|].
  destruct (decide (k = j)); apply Hall; lia.
Qed.

(** Swaps inside a part of the range keep what holds of the whole range. *)
Lemma swaps_in_all_sub (P : A -> Prop) a b a' b' (d d' : list A) :
  (a' <= a)%nat -> (b <= b')%nat ->
  swaps_in a b d d' -> all_in P d a' b' -> all_in P d' a' b'.
Proof.
  intros Ha Hb Hs Hall k Hk1 Hk2.
  destruct (decide (a <= k < b)%nat) as [Hin|Hout].
  - apply (swaps_in_all P a b d d' Hs); [|lia|lia].
    intros k' ? ?. apply Hall; lia.
  - rewrite (swaps_in_outside a b d d' k Hs) by lia. apply Hall; lia.
Qed.

End SwapsIn.

Section InsertionSorted.
Context {A : Type} `{Inhabited A}.
Variable less : A -> A -> bool.
Variable key : A -> Z.
Hypothesis Hless : forall x y, less x y = bool_decide (key x < key y)%Z.

#[local] Abbreviation K d i := (key (d !!! i)).

(** [Less] compares the keys of the elements at the two indices. *)
Lemma Less_key (d : list A) i j :
  sort.Less less d i j = bool_decide (K d i < K d j)%Z.
Proof. unfold sort.Less. apply Hless. Qed.

(** The inner loop of [insertionSort_func]: the element at [j], less than
    those after it up to [i], moves down to its place among the sorted rest. *)
Lemma insertionSort_shift_sorted a i j (d : list A) :
  (a <= j)%nat -> (j <= i)%nat -> (i < length d)%nat ->
  (forall p q, (a <= p)%nat -> (p <= q)%nat -> (q <= i)%nat ->
     p <> j -> q <> j -> (K d p <= K d q)%Z) ->
  (forall q, (j < q)%nat -> (q <= i)%nat -> (K d j < K d q)%Z) ->
  swaps_in a (S i) d (sort.insertionSort_shift less a j d)
  /\ sorted_range key (sort.insertionSort_shift less a j d) a (S i).
Proof.
  revert d. induction j as [|j IH]; intros d Haj Hji Hi Hpq Hq.
  - cbn. split; [constructor|]. intros p q Hp Hpq' Hq'.
    destruct (decide (q = 0)%nat) as [->|Hq0].
    + replace p with 0%nat by lia. lia.
    + destruct (decide (p = 0)%nat) as [->|Hp0].
      * pose proof (Hq q ltac:(lia) ltac:(lia)). lia.
      * apply Hpq; lia.
  - cbn [sort.insertionSort_shift]. rewrite Less_key.
    destruct (bool_decide (a < S j)%nat && bool_decide (K d (S j) < K d j)%Z)
      eqn:Hc.
    + apply andb_true_iff in Hc. destruct Hc as [Ha Hlt].
      apply bool_decide_eq_true_1 in Ha, Hlt.
      assert (Hsw : forall k, sort.Swap d (S j) j !!! k
                = if decide (k = S j) then d !!! j
                  else if decide (k = j) then d !!! (S j) else d !!! k).
      { intros k. apply Swap_lookup; lia. }
      destruct (IH (sort.Swap d (S j) j)) as [Hs Hsorted];
        [lia|lia|rewrite Swap_length; lia| | |].
      * intros p q Hp Hpq' Hq' Hpj Hqj. rewrite !Hsw.
        repeat destruct (decide _); subst; try lia.
        -- apply Hpq; lia.
        -- apply Hpq; lia.
        -- apply Hpq; lia.
      * intros q Hjq Hqi. rewrite !Hsw.
        repeat destruct (decide _); subst; try lia.
        apply Hq; lia.
      * split; [|exact Hsorted].
        eapply swaps_in_trans; [|exact Hs].
        apply (swaps_in_Swap a (S i) d (S j) j); lia.
    + split; [constructor|].
      apply andb_false_iff in Hc.
      intros p q Hp Hpq' Hq'.
      destruct (decide (p = S j)) as [->|Hpj].
      * destruct (decide (q = S j)) as [->|Hqj]; [lia|].
        pose proof (Hq q ltac:(lia) ltac:(lia)). lia.
      * destruct (decide (q = S j)) as [->|Hqj]; [|apply Hpq; lia].
        destruct Hc as [Hc|Hc]; apply bool_decide_eq_false_1 in Hc; [lia|].
        assert (K d p <= K d j)%Z by (apply Hpq; lia). lia.
Qed.

Lemma insertionSort_loop_sorted n a b i (d : list A) :
  (a <= i)%nat -> (b - i <= n)%nat -> (b <= length d)%nat ->
  sorted_range key d a i ->
  swaps_in a b d (sort.insertionSort_loop less a b i n d)
  /\ sorted_range key (sort.insertionSort_loop less a b i n d) a b.
Proof.
  revert d i. induction n as [|n IH]; intros d i Hai Hn Hb Hs.
  - cbn. split; [constructor|]. intros p q Hp Hpq Hq. apply Hs; lia.
  - cbn [sort.insertionSort_loop]. case_bool_decide as Hib.
    + destruct (insertionSort_shift_sorted a i i d) as [Hsw Hsorted];
        [lia|lia|lia| | |].
      * intros p q Hp Hpq Hq Hpi Hqi. apply Hs; lia.
      * intros q Hq1 Hq2. lia.
      * destruct (IH (sort.insertionSort_shift less a i d) (S i))
          as [Hsw' Hsorted']; [lia|lia| |exact Hsorted|].
        { rewrite (swaps_in_length _ _ _ _ Hsw). exact Hb. }
        split; [|exact Hsorted'].
        eapply swaps_in_trans; [|exact Hsw'].
        eapply swaps_in_weaken; [| | |exact Hsw]; lia.
    + split; [constructor|]. intros p q Hp Hpq Hq. apply Hs; lia.
Qed.

(** [insertionSort_func] sorts the range. *)
Lemma insertionSort_func_sorted a b (d : list A) :
  (b <= length d)%nat ->
  swaps_in a b d (sort.insertionSort_func less d a b)
  /\ sorted_range key (sort.insertionSort_func less d a b) a b.
Proof.
  intros Hb. unfold sort.insertionSort_func.
  apply insertionSort_loop_sorted; [lia|lia|exact Hb|].
  intros p q Hp Hpq Hq. replace q with p by lia. lia.
Qed.

End InsertionSorted.

Section Scans.

Lemma scan_up_spec n (p : nat -> bool) i j :
  (j + 1 - i <= n)%nat ->
  let i' := sort.scan_up n p i j in
  (i <= i')%nat /\ (i' <= Nat.max i (j + 1))%nat
  /\ (forall k, (i <= k)%nat -> (k < i')%nat -> p k = true)
  /\ ((i' <= j)%nat -> p i' = false).
Proof.
  revert i. induction n as [|n IH]; intros i Hn; cbn.
  - split; [lia|]. split; [lia|]. split; intros; lia.
  - destruct (bool_decide (i <= j)%nat && p i) eqn:Hc.
    + apply andb_true_iff in Hc. destruct Hc as [Hij Hp].
      apply bool_decide_eq_true_1 in Hij.
      destruct (IH (S i)) as (H1 & H2 & H3 & H4); [lia|].
      split; [lia|]. split; [lia|]. split; [|assumption].
      intros k Hk1 Hk2. destruct (decide (k = i)) as [->|]; [assumption|].
      apply H3; lia.
    + split; [lia|]. split; [lia|]. split; [intros; lia|].
      intros Hij. apply andb_false_iff in Hc. destruct Hc as [Hc|Hc];
        [apply bool_decide_eq_false_1 in Hc; lia|assumption].
Qed.

Lemma scan_down_spec n (p : nat -> bool) i j :
  (1 <= i)%nat -> (j + 1 - i <= n)%nat -> (i <= j + 1)%nat ->
  let j' := sort.scan_down n p i j in
  (j' <= j)%nat /\ (i <= j' + 1)%nat
  /\ (forall k, (j' < k)%nat -> (k <= j)%nat -> p k = true)
  /\ ((i <= j')%nat -> p j' = false).
Proof.
  intros Hi. revert j. induction n as [|n IH]; intros j Hn Hij; cbn.
  - split; [lia|]. split; [lia|]. split; intros; lia.
  - destruct (bool_decide (i <= j)%nat && p j) eqn:Hc.
    + apply andb_true_iff in Hc. destruct Hc as [Hij' Hp].
      apply bool_decide_eq_true_1 in Hij'.
      destruct (IH (j - 1)%nat) as (H1 & H2 & H3 & H4); [lia|lia|].
      split; [lia|]. split; [lia|]. split; [|assumption].
      intros k Hk1 Hk2. destruct (decide (k = j)) as [->|]; [assumption|].
      apply H3; lia.
    + split; [lia|]. split; [lia|]. split; [intros; lia|].
      intros Hij'. apply andb_false_iff in Hc. destruct Hc as [Hc|Hc];
        [apply bool_decide_eq_false_1 in Hc; lia|assumption].
Qed.

End Scans.

Section Partition.
Context {A : Type} `{Inhabited A}.
Variable less : A -> A -> bool.
Variable key : A -> Z.
Hypothesis Hless : forall x y, less x y = bool_decide (key x < key y)%Z.

#[local] Abbreviation K d i := (key (d !!! i)).

Lemma partition_loop_spec n a b i j (d : list A) :
  (j + 1 - i <= n)%nat -> (a + 1 <= i)%nat -> (j < b)%nat -> (i <= j + 1)%nat ->
  (b <= length d)%nat ->
  (forall k, (a + 1 <= k)%nat -> (k < i)%nat -> (K d k < K d a)%Z) ->
  (forall k, (j < k)%nat -> (k < b)%nat -> (K d a <= K d k)%Z) ->
  let r := sort.partition_loop less n d a b i j in
  swaps_in (a + 1) b d r.1
  /\ (a <= r.2)%nat /\ (r.2 < b)%nat
  /\ (forall k, (a + 1 <= k)%nat -> (k <= r.2)%nat -> (K r.1 k < K d a)%Z)
  /\ (forall k, (r.2 < k)%nat -> (k < b)%nat -> (K d a <= K r.1 k)%Z).
Proof.
  revert d i j. induction n as [|n IH]; intros d i j Hn Hai Hjb Hij Hb Hlo Hhi.
  - cbn. split; [constructor|]. repeat split; try lia.
    + intros k Hk1 Hk2. apply Hlo; lia.
    + exact Hhi.
  - cbn [sort.partition_loop].
    pose proof (scan_up_spec (b - a) (fun i => sort.Less less d i a) i j
                  ltac:(lia)) as Hup.
    set (i' := sort.scan_up (b - a) (fun i => sort.Less less d i a) i j) in *.
    cbv zeta in Hup. destruct Hup as (Hu1 & Hu2 & Hu3 & Hu4).
    pose proof (scan_down_spec (b - a)
                  (fun j => negb (sort.Less less d j a)) i' j
                  ltac:(lia) ltac:(lia) ltac:(lia)) as Hdown.
    set (j' := sort.scan_down (b - a)
                 (fun j => negb (sort.Less less d j a)) i' j) in *.
    cbv zeta in Hdown. destruct Hdown as (Hd1 & Hd2 & Hd3 & Hd4).
    assert (Hlo' : forall k, (a + 1 <= k)%nat -> (k < i')%nat ->
                     (K d k < K d a)%Z).
    { intros k Hk1 Hk2. destruct (decide (k < i)%nat); [apply Hlo; lia|].
      specialize (Hu3 k ltac:(lia) ltac:(lia)). cbn in Hu3.
      rewrite (Less_key less key Hless) in Hu3.
      apply bool_decide_eq_true_1 in Hu3. exact Hu3. }
    assert (Hhi' : forall k, (j' < k)%nat -> (k < b)%nat ->
                     (K d a <= K d k)%Z).
    { intros k Hk1 Hk2. destruct (decide (j < k)%nat); [apply Hhi; lia|].
      specialize (Hd3 k ltac:(lia) ltac:(lia)). cbn in Hd3.
      rewrite (Less_key less key Hless) in Hd3.
      apply negb_true_iff, bool_decide_eq_false_1 in Hd3. lia. }
    case_bool_decide as Hji.
    + cbn [fst snd]. split; [constructor|]. repeat split; try lia.
      * intros k Hk1 Hk2. apply Hlo'; lia.
      * exact Hhi'.
    + specialize (Hu4 ltac:(lia)). specialize (Hd4 ltac:(lia)).
      cbn in Hu4, Hd4. rewrite (Less_key less key Hless) in Hu4, Hd4.
      apply bool_decide_eq_false_1 in Hu4.
      apply negb_false_iff, bool_decide_eq_true_1 in Hd4.
      assert (Hne : i' <> j') by (intros E; rewrite E in Hu4; lia).
      assert (Hsw : forall k, sort.Swap d i' j' !!! k
                = if decide (k = i') then d !!! j'
                  else if decide (k = j') then d !!! i' else d !!! k).
      { intros k. apply Swap_lookup; lia. }
      assert (Ha : sort.Swap d i' j' !!! a = d !!! a).
      { rewrite Hsw. rewrite !decide_False by lia. reflexivity. }
      destruct (IH (sort.Swap d i' j') (S i') (j' - 1)%nat)
        as (Hs & Hr1 & Hr2 & Hr3 & Hr4);
        [lia|lia|lia|lia|rewrite Swap_length; lia| | |].
      * intros k Hk1 Hk2. rewrite Ha, Hsw.
        destruct (decide (k = i')); [exact Hd4|].
        rewrite decide_False by lia. apply Hlo'; lia.
      * intros k Hk1 Hk2. rewrite Ha, Hsw.
        rewrite decide_False by lia.
        destruct (decide (k = j')); [lia|]. apply Hhi'; lia.
      * rewrite Ha in Hr3, Hr4.
        split; [|repeat split; assumption].
        eapply swaps_in_trans; [|exact Hs].
        apply (swaps_in_Swap (a + 1) b d i' j'); lia.
Qed.

(** [partition_func] is one more turn of its loop, followed by the swap
    that puts the pivot in its place. *)
Lemma partition_func_loop (d : list A) a b pivot :
  let r := sort.partition_loop less (S (b - a)) (sort.Swap d a pivot) a b
                               (a + 1) (b - 1) in
  (sort.partition_func less d a b pivot).1 = (sort.Swap r.1 r.2 a, r.2).
Proof.
  unfold sort.partition_func. cbn [sort.partition_loop].
  case_bool_decide; [reflexivity|].
  rewrite Nat.add_1_r.
  destruct (sort.partition_loop less (b - a) _ a b _ _). reflexivity.
Qed.

(** [partition_func] leaves the pivot at [mid], the elements less than it
    before [mid] and the others after. *)
Lemma partition_func_spec (d : list A) a b pivot :
  (a <= pivot)%nat -> (pivot < b)%nat -> (b <= length d)%nat ->
  let r := sort.partition_func less d a b pivot in
  let d' := r.1.1 in
  let mid := r.1.2 in
  swaps_in a b d d'
  /\ (a <= mid)%nat /\ (mid < b)%nat
  /\ (forall k, (a <= k)%nat -> (k < mid)%nat -> (K d' k < K d' mid)%Z)
  /\ (forall k, (mid < k)%nat -> (k < b)%nat -> (K d' mid <= K d' k)%Z).
Proof.
  intros Hap Hpb Hb. cbv zeta. rewrite partition_func_loop. cbn [fst snd].
  set (d1 := sort.Swap d a pivot).
  assert (Hb1 : (b <= length d1)%nat) by (unfold d1; rewrite Swap_length; lia).
  destruct (partition_loop_spec (S (b - a)) a b (a + 1) (b - 1) d1)
    as (Hs & Hr1 & Hr2 & Hr3 & Hr4); [lia|lia|lia|lia|exact Hb1| | |].
  { intros k ? ?. lia. }
  { intros k ? ?. lia. }
  set (r := sort.partition_loop less (S (b - a)) d1 a b (a + 1) (b - 1)) in *.
  assert (Hlen : length r.1 = length d1) by (apply (swaps_in_length _ _ _ _ Hs)).
  assert (Hra : r.1 !!! a = d1 !!! a).
  { apply (swaps_in_outside (a + 1) b d1 r.1 a Hs). lia. }
  assert (Hsw : forall k, sort.Swap r.1 r.2 a !!! k
            = if decide (k = r.2) then r.1 !!! a
              else if decide (k = a) then r.1 !!! r.2 else r.1 !!! k).
  { intros k. apply Swap_lookup; lia. }
  split.
  { eapply swaps_in_trans; [apply (swaps_in_Swap a b d a pivot); lia|].
    fold d1.
    eapply swaps_in_trans;
      [apply (swaps_in_weaken (a + 1) b a b d1 r.1); [lia|lia|lia|exact Hs]|].
    apply (swaps_in_Swap a b r.1 r.2 a); lia. }
  split; [exact Hr1|]. split; [exact Hr2|]. split.
  - intros k Hk1 Hk2. rewrite (Hsw k), (Hsw r.2).
    rewrite (decide_True (P := r.2 = r.2)) by reflexivity.
    rewrite (decide_False (P := k = r.2)) by lia. rewrite Hra.
    destruct (decide (k = a)); apply Hr3; lia.
  - intros k Hk1 Hk2. rewrite (Hsw k), (Hsw r.2).
    rewrite (decide_True (P := r.2 = r.2)) by reflexivity.
    rewrite (decide_False (P := k = r.2)) by lia.
    rewrite (decide_False (P := k = a)) by lia. rewrite Hra. apply Hr4; lia.
Qed.

End Partition.

Section PartitionEqual.
Context {A : Type} `{Inhabited A}.
Variable less : A -> A -> bool.
Variable key : A -> Z.
Hypothesis Hless : forall x y, less x y = bool_decide (key x < key y)%Z.

#[local] Abbreviation K d i := (key (d !!! i)).

Lemma partitionEqual_loop_spec n a b i j (d : list A) :
  (j + 1 - i <= n)%nat -> (a + 1 <= i)%nat -> (j < b)%nat -> (i <= j + 1)%nat ->
  (b <= length d)%nat ->
  (forall k, (a + 1 <= k)%nat -> (k < i)%nat -> (K d k <= K d a)%Z) ->
  (forall k, (j < k)%nat -> (k < b)%nat -> (K d a < K d k)%Z) ->
  let r := sort.partitionEqual_loop less n d a b i j in
  swaps_in (a + 1) b d r.1
  /\ (a + 1 <= r.2)%nat /\ (r.2 <= b)%nat
  /\ (forall k, (a + 1 <= k)%nat -> (k < r.2)%nat -> (K r.1 k <= K d a)%Z)
  /\ (forall k, (r.2 <= k)%nat -> (k < b)%nat -> (K d a < K r.1 k)%Z).
Proof.
  revert d i j. induction n as [|n IH]; intros d i j Hn Hai Hjb Hij Hb Hlo Hhi.
  - cbn. split; [constructor|]. split; [lia|]. split; [lia|]. split.
    + exact Hlo.
    + intros k Hk1 Hk2. apply Hhi; lia.
  - cbn [sort.partitionEqual_loop].
    pose proof (scan_up_spec (b - a) (fun i => negb (sort.Less less d a i)) i j
                  ltac:(lia)) as Hup.
    set (i' := sort.scan_up (b - a)
                 (fun i => negb (sort.Less less d a i)) i j) in *.
    cbv zeta in Hup. destruct Hup as (Hu1 & Hu2 & Hu3 & Hu4).
    pose proof (scan_down_spec (b - a) (fun j => sort.Less less d a j) i' j
                  ltac:(lia) ltac:(lia) ltac:(lia)) as Hdown.
    set (j' := sort.scan_down (b - a) (fun j => sort.Less less d a j) i' j) in *.
    cbv zeta in Hdown. destruct Hdown as (Hd1 & Hd2 & Hd3 & Hd4).
    assert (Hlo' : forall k, (a + 1 <= k)%nat -> (k < i')%nat ->
                     (K d k <= K d a)%Z).
    { intros k Hk1 Hk2. destruct (decide (k < i)%nat); [apply Hlo; lia|].
      specialize (Hu3 k ltac:(lia) ltac:(lia)). cbn in Hu3.
      rewrite (Less_key less key Hless) in Hu3.
      apply negb_true_iff, bool_decide_eq_false_1 in Hu3. lia. }
    assert (Hhi' : forall k, (j' < k)%nat -> (k < b)%nat ->
                     (K d a < K d k)%Z).
    { intros k Hk1 Hk2. destruct (decide (j < k)%nat); [apply Hhi; lia|].
      specialize (Hd3 k ltac:(lia) ltac:(lia)). cbn in Hd3.
      rewrite (Less_key less key Hless) in Hd3.
      apply bool_decide_eq_true_1 in Hd3. exact Hd3. }
    case_bool_decide as Hji.
    + cbn [fst snd]. split; [constructor|]. split; [lia|]. split; [lia|].
      split; [exact Hlo'|]. intros k Hk1 Hk2. apply Hhi'; lia.
    + specialize (Hu4 ltac:(lia)). specialize (Hd4 ltac:(lia)).
      cbn in Hu4, Hd4. rewrite (Less_key less key Hless) in Hu4, Hd4.
      apply negb_false_iff, bool_decide_eq_true_1 in Hu4.
      apply bool_decide_eq_false_1 in Hd4.
      assert (Hne : i' <> j') by (intros E; rewrite E in Hu4; lia).
      assert (Hsw : forall k, sort.Swap d i' j' !!! k
                = if decide (k = i') then d !!! j'
                  else if decide (k = j') then d !!! i' else d !!! k).
      { intros k. apply Swap_lookup; lia. }
      assert (Ha : sort.Swap d i' j' !!! a = d !!! a).
      { rewrite Hsw. rewrite !decide_False by lia. reflexivity. }
      destruct (IH (sort.Swap d i' j') (S i') (j' - 1)%nat)
        as (Hs & Hr1 & Hr2 & Hr3 & Hr4);
        [lia|lia|lia|lia|rewrite Swap_length; lia| | |].
      * intros k Hk1 Hk2. rewrite Ha, Hsw.
        destruct (decide (k = i')); [lia|].
        rewrite decide_False by lia. apply Hlo'; lia.
      * intros k Hk1 Hk2. rewrite Ha, Hsw.
        rewrite decide_False by lia.
        destruct (decide (k = j')); [exact Hu4|]. apply Hhi'; lia.
      * rewrite Ha in Hr3, Hr4.
        split; [|repeat split; assumption].
        eapply swaps_in_trans; [|exact Hs].
        apply (swaps_in_Swap (a + 1) b d i' j'); lia.
Qed.

(** [partitionEqual_func] leaves the elements not greater than the pivot
    before [mid] and the greater ones from [mid] on. *)
Lemma partitionEqual_func_spec (d : list A) a b pivot :
  (a <= pivot)%nat -> (pivot < b)%nat -> (b <= length d)%nat ->
  let r := sort.partitionEqual_func less d a b pivot in
  swaps_in a b d r.1
  /\ (a + 1 <= r.2)%nat /\ (r.2 <= b)%nat
  /\ (forall k, (a <= k)%nat -> (k < r.2)%nat -> (K r.1 k <= K d pivot)%Z)
  /\ (forall k, (r.2 <= k)%nat -> (k < b)%nat -> (K d pivot < K r.1 k)%Z).
Proof.
  intros Hap Hpb Hb. cbv zeta. unfold sort.partitionEqual_func.
  set (d1 := sort.Swap d a pivot).
  assert (Hb1 : (b <= length d1)%nat) by (unfold d1; rewrite Swap_length; lia).
  assert (Hd1a : d1 !!! a = d !!! pivot).
  { unfold d1. rewrite Swap_lookup by lia. rewrite decide_True by reflexivity.
    reflexivity. }
  destruct (partitionEqual_loop_spec (b - a) a b (a + 1) (b - 1) d1)
    as (Hs & Hr1 & Hr2 & Hr3 & Hr4); [lia|lia|lia|lia|exact Hb1| | |].
  { intros k ? ?. lia. }
  { intros k ? ?. lia. }
  set (r := sort.partitionEqual_loop less (b - a) d1 a b (a + 1) (b - 1)) in *.
  rewrite Hd1a in Hr3, Hr4.
  split.
  { eapply swaps_in_trans; [apply (swaps_in_Swap a b d a pivot); lia|].
    fold d1.
    apply (swaps_in_weaken (a + 1) b a b d1 r.1); [lia|lia|lia|exact Hs]. }
  split; [exact Hr1|]. split; [exact Hr2|]. split; [|exact Hr4].
  intros k Hk1 Hk2. destruct (decide (k = a)) as [->|Hka]; [|apply Hr3; lia].
  rewrite (swaps_in_outside (a + 1) b d1 r.1 a Hs) by lia. rewrite Hd1a. lia.
Qed.

End PartitionEqual.

Section Pivot.
Context {A : Type} `{Inhabited A}.
Variable less : A -> A -> bool.
Variable next : Z -> Z.

Lemma median_func_choice (d : list A) a b c swaps :
  let m := (sort.median_func less d a b c swaps).1 in
  m = a \/ m = b \/ m = c.
Proof.
  unfold sort.median_func, sort.order2_func.
  repeat (match goal with
          | |- context [if ?x then _ else _] => destruct x
          end; cbn); auto.
Qed.

(** The pivot chosen is an index of the range. *)
Lemma choosePivot_func_range (d : list A) a b :
  (8 <= b - a)%nat ->
  (a <= (sort.choosePivot_func less d a b).1)%nat
  /\ ((sort.choosePivot_func less d a b).1 < b)%nat.
Proof.
  intros Hl. unfold sort.choosePivot_func.
  rewrite bool_decide_eq_true_2 by lia.
  assert (Hq : (2 <= (b - a) / 4)%nat).
  { apply Nat.div_le_lower_bound; lia. }
  assert (Hq' : ((b - a) / 4 * 4 <= b - a)%nat).
  { rewrite Nat.mul_comm. apply Nat.Div0.mul_div_le. }
  set (q := ((b - a) / 4)%nat) in *.
  assert (Hfin : forall (r : nat * nat),
            (a + 1 <= r.1)%nat /\ (r.1 < b)%nat ->
            (a <= (let '(j, swaps) := r in
                   match swaps with
                   | 0%nat => (j, sort.increasingHint)
                   | 12%nat => (j, sort.decreasingHint)
                   | _ => (j, sort.unknownHint)
                   end).1)%nat
            /\ ((let '(j, swaps) := r in
                 match swaps with
                 | 0%nat => (j, sort.increasingHint)
                 | 12%nat => (j, sort.decreasingHint)
                 | _ => (j, sort.unknownHint)
                 end).1 < b)%nat).
  { intros [j swaps] [Hj1 Hj2]. cbn [fst] in *.
    do 13 (destruct swaps as [|swaps]; [cbn; lia|]). cbn; lia. }
  apply Hfin. clear Hfin.
  case_bool_decide as H50.
  - pose proof (median_func_choice d (a + q * 1 - 1) (a + q * 1) (a + q * 1 + 1) 0)
      as Hi.
    unfold sort.medianAdjacent_func.
    destruct (sort.median_func less d (a + q * 1 - 1) (a + q * 1)
                (a + q * 1 + 1) 0) as [i s1].
    pose proof (median_func_choice d (a + q * 2 - 1) (a + q * 2) (a + q * 2 + 1) s1)
      as Hj.
    destruct (sort.median_func less d (a + q * 2 - 1) (a + q * 2)
                (a + q * 2 + 1) s1) as [j s2].
    pose proof (median_func_choice d (a + q * 3 - 1) (a + q * 3) (a + q * 3 + 1) s2)
      as Hk.
    destruct (sort.median_func less d (a + q * 3 - 1) (a + q * 3)
                (a + q * 3 + 1) s2) as [k s3].
    pose proof (median_func_choice d i j k s3) as Hm.
    cbn [fst] in *. lia.
  - pose proof (median_func_choice d (a + q * 1) (a + q * 2) (a + q * 3) 0) as Hm.
    cbn [fst] in *. lia.
Qed.

Lemma reverseRange_func_swaps (d : list A) a b :
  (b <= length d)%nat -> swaps_in a b d (sort.reverseRange_func d a b).
Proof.
  intros Hb. unfold sort.reverseRange_func.
  assert (Hl : forall n (d : list A) i j,
            (a <= i)%nat -> (j < b)%nat -> (b <= length d)%nat ->
            swaps_in a b d (sort.reverseRange_loop n d i j)).
  { intros n. induction n as [|n IH]; intros d0 i j Hi Hj Hb0; cbn;
      [constructor|].
    case_bool_decide; [|constructor].
    eapply swaps_in_trans; [apply (swaps_in_Swap a b d0 i j); lia|].
    apply IH; [lia|lia|rewrite Swap_length; lia]. }
  destruct (decide (a < b)%nat) as [Hab|Hab].
  - apply Hl; lia.
  - replace (b - a)%nat with 0%nat by lia. constructor.
Qed.

Lemma land_mask_bound r n :
  (0 <= Z.land r (2 ^ Z.of_nat n - 1) < 2 ^ Z.of_nat n)%Z.
Proof.
  replace (2 ^ Z.of_nat n - 1)%Z with (Z.ones (Z.of_nat n)).
  - rewrite Z.land_ones by lia. apply Z.mod_pos_bound. lia.
  - rewrite Z.ones_equiv. lia.
Qed.

Lemma nextPowerOfTwo_bound l :
  (0 < l)%nat ->
  (sort.nextPowerOfTwo l <= 2 * Z.of_nat l)%Z.
Proof.
  intros Hl. unfold sort.nextPowerOfTwo, sort.bits_Len.
  destruct l as [|l']; [lia|].
  pose proof (Nat.log2_spec (S l') ltac:(lia)) as [Hlo _].
  rewrite Nat2Z.inj_succ, Z.pow_succ_r by lia.
  assert (Hz : (2 ^ Z.of_nat (Nat.log2 (S l')) <= Z.of_nat (S l'))%Z).
  { rewrite <- (Nat2Z.inj_pow 2). lia. }
  lia.
Qed.

(** [breakPatterns_func] swaps inside the range, whatever the generator
    draws. *)
Lemma breakPatterns_func_swaps (d : list A) a b :
  (b <= length d)%nat -> swaps_in a b d (sort.breakPatterns_func next d a b).
Proof.
  intros Hb. unfold sort.breakPatterns_func.
  case_bool_decide as Hl; [|constructor].
  assert (Hq : (2 <= (b - a) / 4)%nat).
  { apply Nat.div_le_lower_bound; lia. }
  assert (Hq' : ((b - a) / 4 * 4 <= b - a)%nat).
  { rewrite Nat.mul_comm. apply Nat.Div0.mul_div_le. }
  set (idx := (a + (b - a) / 4 * 2 - 1)%nat).
  assert (Hloop : forall n (d : list A) i random,
            (i + n <= 3)%nat -> (b <= length d)%nat ->
            swaps_in a b d
              (sort.breakPatterns_loop next n d a (b - a) idx i random
                 (sort.nextPowerOfTwo (b - a)))).
  { intros n. induction n as [|n IH]; intros d0 i random Hi Hb0; cbn;
      [constructor|].
    set (o := Z.to_nat (Z.land (next random) (sort.nextPowerOfTwo (b - a) - 1))).
    assert (Ho : (o < 2 * (b - a))%nat).
    { unfold o. pose proof (nextPowerOfTwo_bound (b - a) ltac:(lia)) as Hp.
      unfold sort.nextPowerOfTwo in *.
      pose proof (land_mask_bound (next random) (sort.bits_Len (b - a))).
      lia. }
    eapply swaps_in_trans; [|apply IH; [lia|rewrite Swap_length; lia]].
    apply swaps_in_Swap; [unfold idx; lia| |lia].
    case_bool_decide; lia. }
  apply Hloop; lia.
Qed.

End Pivot.

Section Partial.
Context {A : Type} `{Inhabited A}.
Variable less : A -> A -> bool.
Variable key : A -> Z.
Hypothesis Hless : forall x y, less x y = bool_decide (key x < key y)%Z.

#[local] Abbreviation K d i := (key (d !!! i)).

Lemma bounded_below_swaps a b (d d' : list A) :
  swaps_in a b d d' -> bounded_below key d a b -> bounded_below key d' a b.
Proof.
  intros Hs Hd Ha.
  rewrite (swaps_in_outside a b d d' (a - 1) Hs) by lia.
  apply (swaps_in_all _ a b d d' Hs). apply Hd. exact Ha.
Qed.

Lemma sorted_range_extend (d : list A) a i i' :
  (a < i)%nat -> (i <= i')%nat ->
  sorted_range key d a i ->
  (forall k, (i <= k)%nat -> (k < i')%nat -> (K d (k - 1)%nat <= K d k)%Z) ->
  sorted_range key d a i'.
Proof.
  intros Hai Hii Hs Hadj.
  replace i' with (i + (i' - i))%nat by lia.
  assert (Hm : (i + (i' - i) <= i')%nat) by lia. revert Hm.
  generalize (i' - i)%nat as m. intros m. induction m as [|m IH]; intros Hm.
  - rewrite Nat.add_0_r. exact Hs.
  - intros p q Hp Hpq Hq.
    destruct (decide (q < i + m)%nat) as [Hlt|Hge]; [apply IH; lia|].
    assert (q = (i + m)%nat) by lia. subst q.
    destruct (decide (p = i + m)%nat) as [->|Hne]; [lia|].
    specialize (Hadj (i + m)%nat ltac:(lia) ltac:(lia)).
    assert (K d p <= K d (i + m - 1)%nat)%Z by (apply IH; lia).
    lia.
Qed.

Lemma sorted_range_same (d d' : list A) a b :
  (forall k, (a <= k)%nat -> (k < b)%nat -> d' !!! k = d !!! k) ->
  sorted_range key d a b -> sorted_range key d' a b.
Proof.
  intros Hsame Hs p q Hp Hpq Hq. rewrite !Hsame by lia. apply Hs; lia.
Qed.

(** The leftward shift of [partialInsertionSort_func] stops at index 1, not
    at [a]; it is the shift of the insertion sort when the element before
    the range bounds the range from below. *)
Lemma shift_left_insertion a j (d : list A) :
  (a <= j)%nat -> (j < length d)%nat ->
  ((1 <= a)%nat -> forall k, (a <= k)%nat -> (k <= j)%nat ->
     (K d (a - 1)%nat <= K d k)%Z) ->
  sort.shift_left less j d = sort.insertionSort_shift less a j d.
Proof.
  revert d. induction j as [|j IH]; intros d Haj Hj Hlow; [reflexivity|].
  cbn [sort.shift_left sort.insertionSort_shift].
  rewrite (bool_decide_eq_true_2 (1 <= S j)%nat) by lia.
  destruct (decide (a < S j)%nat) as [Hlt|Hge].
  - rewrite (bool_decide_eq_true_2 (a < S j)%nat) by lia.
    destruct (true && sort.Less less d (S j) j); [|reflexivity].
    apply IH; [lia|rewrite Swap_length; lia|].
    intros Ha k Hk1 Hk2. rewrite !Swap_lookup by lia.
    rewrite (decide_False (P := (a - 1 = S j)%nat)) by lia.
    rewrite (decide_False (P := (a - 1 = j)%nat)) by lia.
    repeat destruct (decide _); apply Hlow; lia.
  - rewrite (bool_decide_eq_false_2 (a < S j)%nat) by lia.
    assert (a = S j) by lia. subst a.
    cbn [andb]. rewrite (Less_key less key Hless).
    rewrite bool_decide_eq_false_2; [reflexivity|].
    specialize (Hlow ltac:(lia) (S j) ltac:(lia) ltac:(lia)).
    replace (S j - 1)%nat with j in Hlow by lia. lia.
Qed.

Lemma shift_right_swaps n lo b j (d : list A) :
  (lo + 1 <= j)%nat -> (b <= length d)%nat ->
  swaps_in lo b d (sort.shift_right less n b j d).
Proof.
  revert d j. induction n as [|n IH]; intros d j Hj Hb; cbn; [constructor|].
  destruct (bool_decide (j < b)%nat && sort.Less less d j (j - 1)) eqn:Hc;
    [|constructor].
  apply andb_true_iff in Hc. destruct Hc as [Hjb _].
  apply bool_decide_eq_true_1 in Hjb.
  eapply swaps_in_trans; [apply (swaps_in_Swap lo b d j (j - 1)); lia|].
  apply IH; [lia|rewrite Swap_length; lia].
Qed.

Lemma partialInsertionSort_loop_spec steps a b i (d : list A) :
  (a + 1 <= i)%nat -> (i <= b)%nat -> (b <= length d)%nat ->
  sorted_range key d a i -> bounded_below key d a b ->
  let r := sort.partialInsertionSort_loop less steps d a b i in
  swaps_in a b d r.1 /\ (r.2 = true -> sorted_range key r.1 a b).
Proof.
  revert d i. induction steps as [|steps IH]; intros d i Hai Hib Hb Hs Hlow.
  - cbn. split; [constructor|discriminate].
  - cbn [sort.partialInsertionSort_loop].
    pose proof (scan_up_spec (b - a)
                  (fun i => bool_decide (i < b)%nat
                            && negb (sort.Less less d i (i - 1))) i b
                  ltac:(lia)) as Hup.
    set (i' := sort.scan_up (b - a)
                 (fun i => bool_decide (i < b)%nat
                           && negb (sort.Less less d i (i - 1))) i b) in *.
    cbv zeta in Hup. destruct Hup as (Hu1 & Hu2 & Hu3 & Hu4).
    assert (Hi'b : (i' <= b)%nat).
    { destruct (decide (i' <= b)%nat) as [|Hgt]; [assumption|].
      specialize (Hu3 b ltac:(lia) ltac:(lia)). cbn in Hu3.
      apply andb_true_iff in Hu3. destruct Hu3 as [Hu3 _].
      apply bool_decide_eq_true_1 in Hu3. lia. }
    assert (Hs' : sorted_range key d a i').
    { apply (sorted_range_extend d a i i'); [lia|lia|exact Hs|].
      intros k Hk1 Hk2. specialize (Hu3 k Hk1 Hk2). cbn in Hu3.
      apply andb_true_iff in Hu3. destruct Hu3 as [_ Hu3].
      rewrite (Less_key less key Hless) in Hu3.
      apply negb_true_iff, bool_decide_eq_false_1 in Hu3. lia. }
    cbv zeta. destruct (decide (i' = b)) as [Hend|Hend].
    { rewrite (bool_decide_eq_true_2 (i' = b)) by exact Hend.
      cbn [fst snd]. split; [apply swaps_in_refl|]. intros _. rewrite <- Hend.
      exact Hs'. }
    rewrite (bool_decide_eq_false_2 (i' = b)) by exact Hend.
    destruct (decide (b - a < 50)%nat) as [Hshort|Hshort].
    { rewrite (bool_decide_eq_true_2 (b - a < 50)%nat) by exact Hshort.
      cbn [fst snd]. split; [apply swaps_in_refl|discriminate]. }
    rewrite (bool_decide_eq_false_2 (b - a < 50)%nat) by exact Hshort.
    set (d1 := sort.Swap d i' (i' - 1)).
    assert (Hs1 : swaps_in a b d d1).
    { apply (swaps_in_Swap a b d i' (i' - 1)); lia. }
    assert (Hlen1 : length d1 = length d) by apply Swap_length.
    set (d2 := if bool_decide (2 <= i' - a)%nat
               then sort.shift_left less (i' - 1) d1 else d1).
    assert (H2 : swaps_in a i' d1 d2 /\ sorted_range key d2 a i').
    { unfold d2. destruct (decide (2 <= i' - a)%nat) as [H2a|H2a];
        [rewrite (bool_decide_eq_true_2 _ H2a)
        |rewrite (bool_decide_eq_false_2 _ H2a)].
      - rewrite (shift_left_insertion a (i' - 1) d1); [|lia|lia|].
        + assert (Hins := insertionSort_shift_sorted less key Hless a
                              (i' - 1) (i' - 1) d1).
          replace (S (i' - 1)) with i' in Hins by lia.
          apply Hins; [lia|lia|lia| |intros; lia].
          intros p q Hp Hpq Hq Hp' Hq'. unfold d1.
          rewrite !Swap_lookup by lia. rewrite !decide_False by lia.
          apply Hs'; lia.
        + intros Ha k Hk1 Hk2.
          pose proof (bounded_below_swaps a b d d1 Hs1 Hlow Ha) as Hl1.
          apply Hl1; lia.
      - split; [apply swaps_in_refl|]. intros p q Hp Hpq Hq.
        replace q with p by lia. lia. }
    destruct H2 as [Hs2 Hsorted2].
    assert (Hlen2 : length d2 = length d).
    { rewrite (swaps_in_length _ _ _ _ Hs2). exact Hlen1. }
    set (d3 := if bool_decide (2 <= b - i')%nat
               then sort.shift_right less (b - i') b (i' + 1) d2 else d2).
    assert (H3 : swaps_in i' b d2 d3).
    { unfold d3. destruct (bool_decide (2 <= b - i')%nat);
        [|apply swaps_in_refl].
      apply shift_right_swaps; lia. }
    assert (Hs13 : swaps_in a b d d3).
    { eapply swaps_in_trans; [exact Hs1|].
      eapply swaps_in_trans.
      - apply (swaps_in_weaken a i' a b d1 d2); [lia|lia|lia|exact Hs2].
      - apply (swaps_in_weaken i' b a b d2 d3); [lia|lia|lia|exact H3]. }
    destruct (IH d3 i') as [Hs4 Hdone];
      [lia|lia| | |apply (bounded_below_swaps a b d d3 Hs13 Hlow)|].
    + rewrite (swaps_in_length _ _ _ _ H3). lia.
    + apply (sorted_range_same d2 d3 a i'); [|exact Hsorted2].
      intros k Hk1 Hk2. apply (swaps_in_outside i' b d2 d3 k H3). lia.
    + split; [|exact Hdone]. eapply swaps_in_trans; [exact Hs13|exact Hs4].
Qed.

(** [partialInsertionSort_func] swaps inside the range, and the range is
    sorted when it answers [true]. *)
Lemma partialInsertionSort_func_spec a b (d : list A) :
  (a < b)%nat -> (b <= length d)%nat -> bounded_below key d a b ->
  let r := sort.partialInsertionSort_func less d a b in
  swaps_in a b d r.1 /\ (r.2 = true -> sorted_range key r.1 a b).
Proof.
  intros Hab Hb Hlow. apply partialInsertionSort_loop_spec; try lia;
    [|exact Hlow].
  intros p q Hp Hpq Hq. replace q with p by lia. lia.
Qed.

End Partial.

Section Heap.
Context {A : Type} `{Inhabited A}.
Variable less : A -> A -> bool.
Variable key : A -> Z.
Hypothesis Hless : forall x y, less x y = bool_decide (key x < key y)%Z.

#[local] Abbreviation K d i := (key (d !!! i)).

(** [siftDown_func] from [root]: when every other node from [lo] on
    dominates its children and the parent of [root] dominates the children
    of [root], every node from [lo] on dominates its children afterwards. *)
Lemma siftDown_loop_spec n (d : list A) root lo hi first :
  (hi - root <= n)%nat -> (lo <= root)%nat -> (first + hi <= length d)%nat ->
  (forall i, (lo <= i)%nat -> (i < hi)%nat -> i <> root ->
     dominates key d first hi i) ->
  (forall p c, (lo <= p)%nat -> (root = 2 * p + 1 \/ root = 2 * p + 2)%nat ->
     (c = 2 * root + 1 \/ c = 2 * root + 2)%nat -> (c < hi)%nat ->
     (K d (first + c)%nat <= K d (first + p)%nat)%Z) ->
  let d' := sort.siftDown_loop less n d root hi first in
  swaps_in (first + lo) (first + hi) d d'
  /\ forall i, (lo <= i)%nat -> (i < hi)%nat -> dominates key d' first hi i.
Proof.
  revert d root. induction n as [|n IH]; intros d root Hn Hlo Hlen Hok Hgp.
  - cbn. split; [apply swaps_in_refl|]. intros i Hi1 Hi2.
    destruct (decide (i = root)) as [->|Hne]; [lia|]. apply Hok; assumption.
  - cbn [sort.siftDown_loop]. cbv zeta.
    destruct (decide (hi <= 2 * root + 1)%nat) as [Hleaf|Hchild].
    { rewrite bool_decide_eq_true_2 by exact Hleaf.
      split; [apply swaps_in_refl|]. intros i Hi1 Hi2.
      destruct (decide (i = root)) as [->|Hne]; [|apply Hok; assumption].
      intros c Hc Hc'. lia. }
    rewrite bool_decide_eq_false_2 by exact Hchild.
    set (c1 := (2 * root + 1)%nat) in *.
    set (c := if bool_decide (c1 + 1 < hi)%nat
                 && sort.Less less d (first + c1) (first + c1 + 1)
              then S c1 else c1).
    assert (Hc : (c = c1 \/ c = c1 + 1)%nat /\ (c < hi)%nat
                 /\ (K d (first + c1)%nat <= K d (first + c)%nat)%Z
                 /\ ((c1 + 1 < hi)%nat ->
                     (K d (first + (c1 + 1))%nat <= K d (first + c)%nat)%Z)).
    { unfold c. rewrite (Less_key less key Hless).
      destruct (decide (c1 + 1 < hi)%nat) as [H2|H2].
      - rewrite (bool_decide_eq_true_2 _ H2). cbn [andb].
        replace (first + c1 + 1)%nat with (first + (c1 + 1))%nat by lia.
        case_bool_decide.
        + replace (S c1) with (c1 + 1)%nat by lia.
          split; [lia|]. split; [lia|]. split; [lia|]. intros _. lia.
        + split; [lia|]. split; [lia|]. split; [lia|]. intros _. lia.
      - rewrite (bool_decide_eq_false_2 _ H2). cbn [andb].
        split; [lia|]. split; [lia|]. split; [lia|]. intros. lia. }
    destruct Hc as (Hcc & Hchi & Hc1 & Hc2).
    rewrite (Less_key less key Hless).
    destruct (decide (K d (first + root)%nat < K d (first + c)%nat)%Z)
      as [Hlt|Hge].
    2:{ rewrite (bool_decide_eq_false_2 _ Hge). cbn [negb].
        split; [apply swaps_in_refl|]. intros i Hi1 Hi2.
        destruct (decide (i = root)) as [->|Hne]; [|apply Hok; assumption].
        intros c' Hc' Hc'hi.
        destruct (decide (c' = c1)) as [->|]; [lia|].
        assert (c' = c1 + 1)%nat by (unfold c1 in *; lia). subst c'.
        specialize (Hc2 Hc'hi). lia. }
    rewrite (bool_decide_eq_true_2 _ Hlt). cbn [negb].
    set (d1 := sort.Swap d (first + root) (first + c)).
    assert (Hsw : forall k, d1 !!! k
              = if decide (k = (first + root)%nat) then d !!! (first + c)%nat
                else if decide (k = (first + c)%nat) then d !!! (first + root)%nat
                else d !!! k).
    { intros k. unfold d1. apply Swap_lookup; lia. }
    destruct (IH d1 c) as [Hs Hdom];
      [unfold c1 in *; lia|unfold c1 in *; lia
      |unfold d1; rewrite Swap_length; lia| | |].
    + intros i Hi1 Hi2 Hic g Hg Hghi. rewrite !Hsw.
      destruct (decide (i = root)) as [->|Hir].
      * rewrite (decide_False (P := (first + g = first + root)%nat)) by lia.
        rewrite (decide_True (P := (first + root = first + root)%nat))
          by reflexivity.
        destruct (decide (first + g = first + c)%nat) as [Hgc|Hgc]; [lia|].
        destruct (decide (g = c1)) as [->|]; [lia|].
        assert (g = c1 + 1)%nat by (unfold c1 in *; lia). subst g.
        apply Hc2. lia.
      * rewrite (decide_False (P := (first + i = first + root)%nat)) by lia.
        rewrite (decide_False (P := (first + i = first + c)%nat)) by lia.
        destruct (decide (first + g = first + root)%nat) as [Hgr|Hgr].
        -- assert (g = root) by lia. subst g.
           apply (Hgp i c); [lia|lia|unfold c1 in *; lia|lia].
        -- rewrite (decide_False (P := (first + g = first + c)%nat))
             by (unfold c1 in *; lia).
           apply (Hok i Hi1 Hi2 Hir g Hg Hghi).
    + intros p g Hp Hcp Hg Hghi. rewrite !Hsw.
      assert (p = root) by (unfold c1 in *; lia). subst p.
      rewrite (decide_False (P := (first + g = first + root)%nat)) by lia.
      rewrite (decide_False (P := (first + g = first + c)%nat)) by lia.
      rewrite (decide_True (P := (first + root = first + root)%nat))
        by reflexivity.
      assert (Hcr : c <> root) by (unfold c1 in *; lia).
      apply (Hok c ltac:(lia) Hchi Hcr g Hg Hghi).
    + split; [|exact Hdom].
      eapply swaps_in_trans; [|exact Hs].
      apply (swaps_in_Swap (first + lo) (first + hi) d (first + root) (first + c));
        lia.
Qed.

Lemma siftDown_func_spec (d : list A) lo hi first :
  (first + hi <= length d)%nat ->
  (forall i, (lo < i)%nat -> (i < hi)%nat -> dominates key d first hi i) ->
  let d' := sort.siftDown_func less d lo hi first in
  swaps_in (first + lo) (first + hi) d d'
  /\ forall i, (lo <= i)%nat -> (i < hi)%nat -> dominates key d' first hi i.
Proof.
  intros Hlen Hok. unfold sort.siftDown_func.
  apply siftDown_loop_spec; [lia|lia|exact Hlen| |].
  - intros i Hi1 Hi2 Hne. apply Hok; lia.
  - intros p c Hp Hr. lia.
Qed.

(** The root of a heap has the greatest key. *)
Lemma heap_max (d : list A) first n :
  (forall i, (i < n)%nat -> dominates key d first n i) ->
  forall j, (j < n)%nat -> (K d (first + j)%nat <= K d (first + 0)%nat)%Z.
Proof.
  intros Hdom j. induction (lt_wf j) as [j _ IH]. intros Hj.
  destruct (decide (j = 0)%nat) as [->|Hpos]; [lia|].
  set (p := ((j - 1) / 2)%nat).
  assert (Hp : (j = 2 * p + 1 \/ j = 2 * p + 2)%nat).
  { unfold p. pose proof (Nat.div_mod_eq (j - 1) 2) as Hd.
    pose proof (Nat.mod_upper_bound (j - 1) 2 ltac:(lia)). lia. }
  assert (Hpj : (p < j)%nat) by lia.
  specialize (IH p Hpj ltac:(lia)).
  pose proof (Hdom p ltac:(lia) j Hp Hj). lia.
Qed.

Lemma heapSort_build_spec n (d : list A) hi first :
  (first + hi <= length d)%nat ->
  (forall i, (n <= i)%nat -> (i < hi)%nat -> dominates key d first hi i) ->
  let d' := sort.heapSort_build less n d hi first in
  swaps_in first (first + hi) d d'
  /\ forall i, (i < hi)%nat -> dominates key d' first hi i.
Proof.
  revert d. induction n as [|n IH]; intros d Hlen Hok.
  - cbn. split; [apply swaps_in_refl|]. intros i Hi. apply Hok; lia.
  - cbn [sort.heapSort_build]. cbv zeta.
    destruct (siftDown_func_spec d n hi first Hlen) as [Hs Hdom].
    { intros i Hi1 Hi2. apply Hok; lia. }
    pose proof (swaps_in_length _ _ _ _ Hs) as Hl.
    destruct (IH (sort.siftDown_func less d n hi first)) as [Hs' Hdom'];
      [lia|intros i Hi1 Hi2; apply Hdom; lia|].
    split; [|exact Hdom'].
    eapply swaps_in_trans; [|exact Hs'].
    apply (swaps_in_weaken (first + n) (first + hi)); [lia|lia|lia|exact Hs].
Qed.

Lemma heapSort_pop_spec n (d : list A) hi first :
  (n <= hi)%nat -> (first + hi <= length d)%nat ->
  (forall i, (i < n)%nat -> dominates key d first n i) ->
  sorted_range key d (first + n) (first + hi) ->
  (forall p q, (p < n)%nat -> (n <= q)%nat -> (q < hi)%nat ->
     (K d (first + p)%nat <= K d (first + q)%nat)%Z) ->
  let d' := sort.heapSort_pop less n d 0 first in
  swaps_in first (first + hi) d d' /\ sorted_range key d' first (first + hi).
Proof.
  revert d. induction n as [|n IH]; intros d Hn Hlen Hdom Hsorted Hcross.
  - cbn. split; [apply swaps_in_refl|].
    replace (first + 0)%nat with first in Hsorted by lia. exact Hsorted.
  - cbn [sort.heapSort_pop]. cbv zeta.
    pose proof (heap_max d first (S n) Hdom) as Hmax.
    set (d1 := sort.Swap d first (first + n)).
    assert (Hsw : forall k, d1 !!! k
              = if decide (k = first) then d !!! (first + n)%nat
                else if decide (k = (first + n)%nat) then d !!! first
                else d !!! k).
    { intros k. unfold d1. apply Swap_lookup; lia. }
    assert (Hl1 : length d1 = length d) by apply Swap_length.
    destruct (siftDown_func_spec d1 0 n first ltac:(lia)) as [Hs Hdom2].
    { intros i Hi1 Hi2 c Hc Hcn. rewrite !Hsw.
      rewrite !(decide_False (P := (_ = first)%nat)) by lia.
      rewrite !(decide_False (P := (_ = first + n)%nat)) by lia.
      apply (Hdom i ltac:(lia) c Hc ltac:(lia)). }
    set (d2 := sort.siftDown_func less d1 0 n first) in *.
    replace (first + 0)%nat with first in Hs, Hmax by lia.
    pose proof (swaps_in_length _ _ _ _ Hs) as Hl2.
    assert (Hout : forall k, (first + n <= k)%nat -> d2 !!! k = d1 !!! k).
    { intros k Hk. apply (swaps_in_outside _ _ _ _ k Hs). lia. }
    assert (Htop : d1 !!! (first + n)%nat = d !!! first).
    { rewrite Hsw. destruct (decide (first + n = first)%nat) as [He|He].
      - rewrite He. reflexivity.
      - rewrite decide_True by reflexivity. reflexivity. }
    destruct (IH d2) as [Hs' Hsorted'];
      [lia|lia|intros i Hi; apply Hdom2; lia| | |].
    + intros i j Hi Hij Hj. rewrite !Hout by lia.
      destruct (decide (i = j)) as [->|Hne]; [lia|].
      destruct (decide (i = first + n)%nat) as [->|Hi'].
      * rewrite Htop. rewrite Hsw.
        rewrite decide_False by lia. rewrite decide_False by lia.
        pose proof (Hcross 0%nat (j - first)%nat ltac:(lia) ltac:(lia)
                      ltac:(lia)) as Hc.
        replace (first + 0)%nat with first in Hc by lia.
        replace (first + (j - first))%nat with j in Hc by lia. exact Hc.
      * rewrite !Hsw.
        rewrite !(decide_False (P := (_ = first)%nat)) by lia.
        rewrite !(decide_False (P := (_ = first + n)%nat)) by lia.
        apply Hsorted; lia.
    + intros p q Hp Hq1 Hq2. rewrite (Hout (first + q)%nat) by lia.
      assert (Hall : all_in (fun x => (key x <= K d1 (first + q)%nat)%Z)
                       d1 first (first + n)).
      { intros k Hk1 Hk2.
        assert (Hk : (K d1 k <= K d first)%Z).
        { rewrite Hsw. destruct (decide (k = first)) as [->|Hkf].
          - pose proof (Hmax n ltac:(lia)). lia.
          - rewrite decide_False by lia.
            pose proof (Hmax (k - first)%nat ltac:(lia)) as Hm.
            replace (first + (k - first))%nat with k in Hm by lia. exact Hm. }
        destruct (decide (q = n)) as [->|Hqn]; [rewrite Htop; exact Hk|].
        rewrite (Hsw (first + q)%nat).
        rewrite decide_False by lia. rewrite decide_False by lia.
        pose proof (Hcross 0%nat q ltac:(lia) ltac:(lia) Hq2) as Hc.
        replace (first + 0)%nat with first in Hc by lia. lia. }
      apply (swaps_in_all _ _ _ _ _ Hs Hall); lia.
    + split; [|exact Hsorted'].
      apply (swaps_in_trans _ _ d d1);
        [apply (swaps_in_Swap first (first + hi) d first (first + n)); lia|].
      apply (swaps_in_trans _ _ d1 d2); [|exact Hs'].
      apply (swaps_in_weaken first (first + n)); [lia|lia|lia|exact Hs].
Qed.

(** [heapSort_func] sorts the range. *)
Lemma heapSort_func_sorted (d : list A) a b :
  (a < b)%nat -> (b <= length d)%nat ->
  swaps_in a b d (sort.heapSort_func less d a b)
  /\ sorted_range key (sort.heapSort_func less d a b) a b.
Proof.
  intros Hab Hlen. unfold sort.heapSort_func. cbv zeta.
  set (hi := (b - a)%nat).
  assert (Hb : (a + hi)%nat = b) by (unfold hi; lia).
  assert (Hdiv : (2 * ((hi - 1) / 2) + 2 >= hi)%nat).
  { pose proof (Nat.div_mod_eq (hi - 1) 2) as Hd.
    pose proof (Nat.mod_upper_bound (hi - 1) 2 ltac:(lia)). lia. }
  destruct (heapSort_build_spec ((hi - 1) / 2 + 1) d hi a ltac:(lia))
    as [Hs Hdom].
  { intros i Hi1 Hi2 c Hc Hchi. lia. }
  set (d1 := sort.heapSort_build less ((hi - 1) / 2 + 1) d hi a) in *.
  pose proof (swaps_in_length _ _ _ _ Hs) as Hl.
  destruct (heapSort_pop_spec hi d1 hi a ltac:(lia) ltac:(lia) Hdom)
    as [Hs' Hsorted].
  { intros i j Hi Hij Hj. lia. }
  { intros p q Hp Hq1 Hq2. lia. }
  rewrite Hb in *. split; [|exact Hsorted].
  eapply swaps_in_trans; eassumption.
Qed.

End Heap.

Section PivotSorted.
Context {A : Type} `{Inhabited A}.
Variable less : A -> A -> bool.
Variable next : Z -> Z.
Variable key : A -> Z.
Hypothesis Hless : forall x y, less x y = bool_decide (key x < key y)%Z.

#[local] Abbreviation K d i := (key (d !!! i)).

(** The turn of the loop up to the partition swaps inside the range,
    chooses a pivot in the range, and when it reports the slice sorted the
    range is sorted. *)
Lemma pdqsort_pivot_spec (d : list A) a b limit balanced partitioned :
  (12 < b - a)%nat -> (b <= length d)%nat -> bounded_below key d a b ->
  let r := sort.pdqsort_pivot less next d a b limit balanced partitioned in
  swaps_in a b d r.1.1.1
  /\ (a <= r.1.2)%nat /\ (r.1.2 < b)%nat
  /\ (r.2 = true -> sorted_range key r.1.1.1 a b).
Proof.
  intros Hab Hlen Hbb.
  assert (Hrest : forall (d0 : list A) (lim : nat),
    swaps_in a b d d0 ->
    let r :=
      (let '(pivot, hint) := sort.choosePivot_func less d0 a b in
       let '(data, pivot, hint) :=
         match hint with
         | sort.decreasingHint =>
             (sort.reverseRange_func d0 a b, (b - 1 - (pivot - a))%nat,
              sort.increasingHint)
         | _ => (d0, pivot, hint)
         end in
       let '(data, sorted) :=
         match hint with
         | sort.increasingHint =>
             if balanced && partitioned
             then sort.partialInsertionSort_func less data a b
             else (data, false)
         | _ => (data, false)
         end in
       (data, lim, pivot, sorted)) in
    swaps_in a b d r.1.1.1
    /\ (a <= r.1.2)%nat /\ (r.1.2 < b)%nat
    /\ (r.2 = true -> sorted_range key r.1.1.1 a b)).
  { intros d0 lim Hs0.
    pose proof (swaps_in_length _ _ _ _ Hs0) as Hl0.
    pose proof (bounded_below_swaps key _ _ _ _ Hs0 Hbb) as Hbb0.
    pose proof (choosePivot_func_range less d0 a b ltac:(lia)) as [Hp1 Hp2].
    destruct (sort.choosePivot_func less d0 a b) as [pivot hint].
    cbn [fst] in Hp1, Hp2.
    assert (Hpart : forall d1 : list A, swaps_in a b d d1 ->
      let r := (if balanced && partitioned
                then sort.partialInsertionSort_func less d1 a b
                else (d1, false)) in
      swaps_in a b d r.1 /\ (r.2 = true -> sorted_range key r.1 a b)).
    { intros d1 Hs1.
      pose proof (swaps_in_length _ _ _ _ Hs1) as Hl1.
      pose proof (bounded_below_swaps key _ _ _ _ Hs1 Hbb) as Hbb1.
      destruct (balanced && partitioned); cbv zeta.
      - destruct (partialInsertionSort_func_spec less key Hless a b d1
                    ltac:(lia) ltac:(lia) Hbb1) as [Hs2 Hsorted].
        split; [|exact Hsorted]. eapply swaps_in_trans; eassumption.
      - cbn [fst snd]. split; [exact Hs1|discriminate]. }
    destruct hint.
    - cbv zeta. cbn [fst snd].
      split; [exact Hs0|]. split; [lia|]. split; [lia|discriminate].
    - cbv zeta. specialize (Hpart d0 Hs0). cbv zeta in Hpart.
      destruct (if balanced && partitioned
                then sort.partialInsertionSort_func less d0 a b
                else (d0, false)) as [d2 s].
      cbn [fst snd] in *. destruct Hpart as [Hq1 Hq2].
      split; [exact Hq1|]. split; [lia|]. split; [lia|exact Hq2].
    - cbv zeta.
      assert (Hr : swaps_in a b d (sort.reverseRange_func d0 a b)).
      { eapply swaps_in_trans; [exact Hs0|].
        apply reverseRange_func_swaps. lia. }
      specialize (Hpart _ Hr). cbv zeta in Hpart.
      destruct (if balanced && partitioned
                then sort.partialInsertionSort_func less
                       (sort.reverseRange_func d0 a b) a b
                else (sort.reverseRange_func d0 a b, false)) as [d2 s].
      cbn [fst snd] in *. destruct Hpart as [Hq1 Hq2].
      split; [exact Hq1|]. split; [lia|]. split; [lia|exact Hq2]. }
  unfold sort.pdqsort_pivot. destruct balanced; cbn [negb].
  - apply (Hrest d limit). apply swaps_in_refl.
  - apply (Hrest (sort.breakPatterns_func next d a b) (limit - 1)%nat).
    apply breakPatterns_func_swaps. exact Hlen.
Qed.

End PivotSorted.

Section PdqSorted.
Context {A : Type} `{Inhabited A}.
Variable less : A -> A -> bool.
Variable next : Z -> Z.
Variable key : A -> Z.
Hypothesis Hless : forall x y, less x y = bool_decide (key x < key y)%Z.

#[local] Abbreviation K d i := (key (d !!! i)).

(** Two sorted ranges around a middle element that separates them. *)
Lemma sorted_range_join (d : list A) a mid b :
  sorted_range key d a mid -> sorted_range key d (mid + 1) b ->
  (forall k, (a <= k)%nat -> (k < mid)%nat -> (K d k <= K d mid)%Z) ->
  (forall k, (mid < k)%nat -> (k < b)%nat -> (K d mid <= K d k)%Z) ->
  sorted_range key d a b.
Proof.
  intros Hl Hr Hlo Hhi i j Hi Hij Hj.
  destruct (decide (j < mid)%nat); [apply Hl; lia|].
  destruct (decide (mid < i)%nat); [apply Hr; lia|].
  destruct (decide (i = mid)) as [->|].
  - destruct (decide (j = mid)) as [->|]; [lia|]. apply Hhi; lia.
  - destruct (decide (j = mid)) as [->|]; [apply Hlo; lia|].
    pose proof (Hlo i ltac:(lia) ltac:(lia)).
    pose proof (Hhi j ltac:(lia) ltac:(lia)). lia.
Qed.

Lemma partitioned_at_left (d d' : list A) a mid b :
  swaps_in a mid d d' -> partitioned_at key d a mid b -> partitioned_at key d' a mid b.
Proof.
  intros Hs [Hlo Hhi].
  assert (Hout : forall k, (mid <= k)%nat -> d' !!! k = d !!! k).
  { intros k Hk. apply (swaps_in_outside _ _ _ _ _ Hs). lia. }
  split.
  - intros k Hk1 Hk2. rewrite (Hout mid) by lia.
    apply (swaps_in_all (fun x => (key x <= K d mid)%Z) _ _ _ _ Hs);
      [|lia|lia].
    intros i Hi1 Hi2. apply Hlo; lia.
  - intros k Hk1 Hk2. rewrite !Hout by lia. apply Hhi; lia.
Qed.

Lemma partitioned_at_right (d d' : list A) a mid b :
  swaps_in (mid + 1) b d d' -> partitioned_at key d a mid b ->
  partitioned_at key d' a mid b.
Proof.
  intros Hs [Hlo Hhi].
  assert (Hout : forall k, (k <= mid)%nat -> d' !!! k = d !!! k).
  { intros k Hk. apply (swaps_in_outside _ _ _ _ _ Hs). lia. }
  split.
  - intros k Hk1 Hk2. rewrite !Hout by lia. apply Hlo; lia.
  - intros k Hk1 Hk2. rewrite (Hout mid) by lia.
    apply (swaps_in_all (fun x => (K d mid <= key x)%Z) _ _ _ _ Hs);
      [|lia|lia].
    intros i Hi1 Hi2. apply Hhi; lia.
Qed.

Lemma bounded_below_same (d d' : list A) a b :
  (forall k, (k < b)%nat -> d' !!! k = d !!! k) ->
  bounded_below key d a b -> bounded_below key d' a b.
Proof.
  intros Hsame Hbb Ha k Hk1 Hk2. cbv beta.
  rewrite !Hsame by lia. apply (Hbb Ha k Hk1 Hk2).
Qed.

Lemma bounded_below_left (d : list A) a mid b :
  (mid <= b)%nat -> bounded_below key d a b -> bounded_below key d a mid.
Proof. intros Hm Hbb Ha k Hk1 Hk2. apply (Hbb Ha k Hk1). lia. Qed.

Lemma bounded_below_right (d : list A) a mid b :
  partitioned_at key d a mid b -> bounded_below key d (mid + 1) b.
Proof.
  intros [_ Hhi] _ k Hk1 Hk2. cbv beta.
  replace (mid + 1 - 1)%nat with mid by lia. apply Hhi; lia.
Qed.

Lemma sorted_range_partitioned (d : list A) a mid b :
  partitioned_at key d a mid b ->
  sorted_range key d a mid -> sorted_range key d (mid + 1) b ->
  sorted_range key d a b.
Proof.
  intros [Hlo Hhi] Hl Hr. apply (sorted_range_join d a mid b); assumption.
Qed.

(** [pdqsort_func] sorts the range, given more fuel than the range has
    elements and a lower bound before the range: each turn goes on with a
    strictly shorter range. *)
Lemma pdqsort_func_sorted n (d : list A) a b limit balanced partitioned :
  (b - a < n)%nat -> (a <= b)%nat -> (b <= length d)%nat ->
  bounded_below key d a b ->
  let d' := sort.pdqsort_func less next n d a b limit balanced partitioned in
  swaps_in a b d d' /\ sorted_range key d' a b.
Proof.
  revert d a b limit balanced partitioned.
  induction n as [|n IH];
    intros d a b limit balanced partitioned Hn Hab Hlen Hbb; [lia|].
  cbv zeta.
  change (sort.pdqsort_func less next (S n) d a b limit balanced partitioned)
    with
    (if bool_decide (b - a <= 12)%nat then sort.insertionSort_func less d a b
     else if bool_decide (limit = 0%nat) then sort.heapSort_func less d a b
     else
       let '(data, limit, pivot, sorted) :=
         sort.pdqsort_pivot less next d a b limit balanced partitioned in
       if sorted then data
       else if bool_decide (0 < a)%nat
               && negb (sort.Less less data (a - 1) pivot) then
         let '(data, mid) := sort.partitionEqual_func less data a b pivot in
         sort.pdqsort_func less next n data mid b limit balanced partitioned
       else
         let '(data, mid, alreadyPartitioned) :=
           sort.partition_func less data a b pivot in
         if bool_decide (mid - a < b - mid)%nat then
           sort.pdqsort_func less next n
             (sort.pdqsort_func less next n data a mid limit true true)
             (mid + 1) b limit
             (bool_decide ((b - a) / 8 <= mid - a)%nat) alreadyPartitioned
         else
           sort.pdqsort_func less next n
             (sort.pdqsort_func less next n data (mid + 1) b limit true true)
             a mid limit
             (bool_decide ((b - a) / 8 <= b - mid)%nat) alreadyPartitioned).
  destruct (decide (b - a <= 12)%nat) as [Hshort|Hlong].
  { rewrite (bool_decide_eq_true_2 _ Hshort).
    apply (insertionSort_func_sorted less key Hless). exact Hlen. }
  rewrite (bool_decide_eq_false_2 _ Hlong).
  case_bool_decide.
  { apply (heapSort_func_sorted less key Hless); lia. }
  pose proof (pdqsort_pivot_spec less next key Hless d a b limit balanced
                partitioned ltac:(lia) Hlen Hbb) as Hp.
  cbv zeta in Hp.
  destruct (sort.pdqsort_pivot less next d a b limit balanced partitioned)
    as [[[d1 limit1] pivot] sorted].
  cbn [fst snd] in Hp. destruct Hp as (Hs1 & Hp1 & Hp2 & Hsorted).
  pose proof (swaps_in_length _ _ _ _ Hs1) as Hl1.
  pose proof (bounded_below_swaps key _ _ _ _ Hs1 Hbb) as Hbb1.
  destruct sorted; [split; [exact Hs1|apply Hsorted; reflexivity]|].
  clear Hsorted.
  assert (Hpartition :
    let d' :=
      (let '(data, mid, alreadyPartitioned) :=
         sort.partition_func less d1 a b pivot in
       if bool_decide (mid - a < b - mid)%nat then
         sort.pdqsort_func less next n
           (sort.pdqsort_func less next n data a mid limit1 true true)
           (mid + 1) b limit1
           (bool_decide ((b - a) / 8 <= mid - a)%nat) alreadyPartitioned
       else
         sort.pdqsort_func less next n
           (sort.pdqsort_func less next n data (mid + 1) b limit1 true true)
           a mid limit1
           (bool_decide ((b - a) / 8 <= b - mid)%nat) alreadyPartitioned) in
    swaps_in a b d d' /\ sorted_range key d' a b).
  { pose proof (partition_func_spec less key Hless d1 a b pivot Hp1 Hp2
                  ltac:(lia)) as Hq.
    cbv zeta in Hq.
    destruct (sort.partition_func less d1 a b pivot) as [[d2 mid] already].
    cbn [fst snd] in Hq. destruct Hq as (Hs2 & Hm1 & Hm2 & Hlo & Hhi).
    pose proof (swaps_in_length _ _ _ _ Hs2) as Hl2.
    pose proof (bounded_below_swaps key _ _ _ _ Hs2 Hbb1) as Hbb2.
    assert (Hpat : partitioned_at key d2 a mid b).
    { split; [|exact Hhi]. intros k Hk1 Hk2. pose proof (Hlo k Hk1 Hk2). lia. }
    cbv zeta. case_bool_decide.
    - destruct (IH d2 a mid limit1 true true) as [Hs3 Hsorted3];
        [lia|lia|lia|apply (bounded_below_left d2 a mid b); [lia|exact Hbb2]|].
      set (d3 := sort.pdqsort_func less next n d2 a mid limit1 true true) in *.
      pose proof (swaps_in_length _ _ _ _ Hs3) as Hl3.
      pose proof (partitioned_at_left _ _ _ _ _ Hs3 Hpat) as Hpat3.
      destruct (IH d3 (mid + 1)%nat b limit1
                  (bool_decide ((b - a) / 8 <= mid - a)%nat) already)
        as [Hs4 Hsorted4];
        [lia|lia|lia|apply (bounded_below_right d3 a mid b Hpat3)|].
      set (d4 := sort.pdqsort_func less next n d3 (mid + 1) b limit1 _ _) in *.
      split.
      + eapply swaps_in_trans; [exact Hs1|].
        eapply swaps_in_trans; [exact Hs2|].
        eapply swaps_in_trans.
        * apply (swaps_in_weaken a mid a b); [lia|lia|lia|exact Hs3].
        * apply (swaps_in_weaken (mid + 1) b a b); [lia|lia|lia|exact Hs4].
      + apply (sorted_range_partitioned d4 a mid b);
          [apply (partitioned_at_right d3 d4 a mid b Hs4 Hpat3)|
          |exact Hsorted4].
        apply (sorted_range_same key d3 d4 a mid); [|exact Hsorted3].
        intros k Hk1 Hk2. apply (swaps_in_outside _ _ _ _ _ Hs4). lia.
    - destruct (IH d2 (mid + 1)%nat b limit1 true true) as [Hs3 Hsorted3];
        [lia|lia|lia|apply (bounded_below_right d2 a mid b Hpat)|].
      set (d3 := sort.pdqsort_func less next n d2 (mid + 1) b limit1 true true)
        in *.
      pose proof (swaps_in_length _ _ _ _ Hs3) as Hl3.
      pose proof (partitioned_at_right _ _ _ _ _ Hs3 Hpat) as Hpat3.
      destruct (IH d3 a mid limit1
                  (bool_decide ((b - a) / 8 <= b - mid)%nat) already)
        as [Hs4 Hsorted4]; [lia|lia|lia| |].
      { apply (bounded_below_same d2 d3 a mid).
        - intros k Hk. apply (swaps_in_outside _ _ _ _ _ Hs3). lia.
        - apply (bounded_below_left d2 a mid b); [lia|exact Hbb2]. }
      set (d4 := sort.pdqsort_func less next n d3 a mid limit1 _ _) in *.
      split.
      + eapply swaps_in_trans; [exact Hs1|].
        eapply swaps_in_trans; [exact Hs2|].
        eapply swaps_in_trans.
        * apply (swaps_in_weaken (mid + 1) b a b); [lia|lia|lia|exact Hs3].
        * apply (swaps_in_weaken a mid a b); [lia|lia|lia|exact Hs4].
      + apply (sorted_range_partitioned d4 a mid b);
          [apply (partitioned_at_left d3 d4 a mid b Hs4 Hpat3)
          |exact Hsorted4|].
        apply (sorted_range_same key d3 d4 (mid + 1) b); [|exact Hsorted3].
        intros k Hk1 Hk2. apply (swaps_in_outside _ _ _ _ _ Hs4). lia. }
  cbv zeta in Hpartition.
  rewrite (Less_key less key Hless).
  destruct (decide (0 < a)%nat) as [Hpos|Hzero].
  2:{ rewrite (bool_decide_eq_false_2 _ Hzero). cbn [andb].
      exact Hpartition. }
  rewrite (bool_decide_eq_true_2 _ Hpos). cbn [andb].
  destruct (decide (K d1 (a - 1)%nat < K d1 pivot)%Z) as [Hlt|Hge].
  { rewrite (bool_decide_eq_true_2 _ Hlt). cbn [negb]. exact Hpartition. }
  rewrite (bool_decide_eq_false_2 _ Hge). cbn [negb].
  pose proof (partitionEqual_func_spec less key Hless d1 a b pivot Hp1 Hp2
                ltac:(lia)) as He.
  cbv zeta in He.
  destruct (sort.partitionEqual_func less d1 a b pivot) as [d2 mid].
  cbn [fst snd] in He. destruct He as (Hs2 & Hm1 & Hm2 & Hle & Hgt).
  pose proof (swaps_in_length _ _ _ _ Hs2) as Hl2.
  pose proof (bounded_below_swaps key _ _ _ _ Hs2 Hbb1) as Hbb2.
  assert (Hpiv : K d1 pivot = K d1 (a - 1)%nat).
  { pose proof (Hbb1 ltac:(lia) pivot Hp1 Hp2) as Hb. cbv beta in Hb. lia. }
  assert (Hd2 : d2 !!! (a - 1)%nat = d1 !!! (a - 1)%nat).
  { apply (swaps_in_outside _ _ _ _ _ Hs2). lia. }
  assert (Heq : forall k, (a <= k)%nat -> (k < mid)%nat ->
                  K d2 k = K d1 pivot).
  { intros k Hk1 Hk2. pose proof (Hle k Hk1 Hk2).
    pose proof (Hbb2 ltac:(lia) k Hk1 ltac:(lia)) as Hb. cbv beta in Hb.
    rewrite Hd2 in Hb. lia. }
  destruct (IH d2 mid b limit1 balanced partitioned) as [Hs3 Hsorted3];
    [lia|lia|lia| |].
  { intros _ k Hk1 Hk2. cbv beta.
    rewrite (Heq (mid - 1)%nat) by lia.
    pose proof (Hgt k Hk1 Hk2). lia. }
  set (d3 := sort.pdqsort_func less next n d2 mid b limit1 balanced
               partitioned) in *.
  split.
  { eapply swaps_in_trans; [exact Hs1|].
    eapply swaps_in_trans; [exact Hs2|].
    apply (swaps_in_weaken mid b); [lia|lia|lia|exact Hs3]. }
  assert (Hleft : forall k, (k < mid)%nat -> d3 !!! k = d2 !!! k).
  { intros k Hk. apply (swaps_in_outside _ _ _ _ _ Hs3). lia. }
  assert (Hright : all_in (fun x => (K d1 pivot < key x)%Z) d3 mid b).
  { apply (swaps_in_all _ _ _ _ _ Hs3). intros k Hk1 Hk2. apply Hgt; lia. }
  intros i j Hi Hij Hj.
  destruct (decide (mid <= i)%nat); [apply Hsorted3; lia|].
  rewrite (Hleft i) by lia. rewrite (Heq i) by lia.
  destruct (decide (j < mid)%nat).
  - rewrite (Hleft j) by lia. rewrite (Heq j) by lia. lia.
  - pose proof (Hright j ltac:(lia) Hj) as Hr. cbv beta in Hr. lia.
Qed.

Lemma sorted_range_StronglySorted (d : list A) :
  sorted_range key d 0 (length d) ->
  StronglySorted (fun x y => (key x <= key y)%Z) d.
Proof.
  induction d as [|x d IH]; intros Hs; constructor.
  - apply IH. intros i j Hi Hij Hj.
    change (d !!! i) with ((x :: d) !!! S i).
    change (d !!! j) with ((x :: d) !!! S j).
    apply (Hs (S i) (S j)); cbn [length]; lia.
  - apply Forall_forall. intros y Hy.
    apply list_elem_of_lookup_1 in Hy as [j Hj].
    pose proof (lookup_lt_Some _ _ _ Hj) as Hlt.
    pose proof (Hs 0%nat (S j) ltac:(lia) ltac:(lia)
                  ltac:(cbn [length]; lia)) as Hk.
    change ((x :: d) !!! 0%nat) with x in Hk.
    change ((x :: d) !!! S j) with (d !!! j) in Hk.
    rewrite (list_lookup_total_correct _ _ _ Hj) in Hk. exact Hk.
Qed.

(** [sort.Slice] leaves the slice in ascending order of the keys. *)
Lemma Slice_sorted (x : list A) :
  StronglySorted (fun p q => (key p <= key q)%Z) (sort.Slice less next x).
Proof.
  apply sorted_range_StronglySorted. unfold sort.Slice. cbv zeta.
  destruct (pdqsort_func_sorted (S (length x)) x 0 (length x)
              (sort.bits_Len (length x)) true true) as [Hs Hsorted];
    [lia|lia|lia|intros Ha; lia|].
  rewrite (swaps_in_length _ _ _ _ Hs). exact Hsorted.
Qed.

End PdqSorted.

(** [sort.Slice] with the comparison of [getLeaderboard] leaves the roster
    in descending order of points: [byPoints] compares the keys [- Points]. *)
Lemma Slice_descending (next : Z -> Z) (ps : list Player) :
  descending (sort.Slice byPoints next ps).
Proof.
  pose proof (Slice_sorted byPoints next (fun p => - Points p)%Z) as Hs.
  specialize (Hs ltac:(intros p q; unfold byPoints; apply bool_decide_ext; lia)
                 ps).
  unfold descending.
  induction Hs as [|p l Hl IH Hp]; constructor; [exact IH|].
  eapply Forall_impl; [exact Hp|]. intros q Hq. cbv beta in Hq. lia.
Qed.

(** *** The insertion sort by points: descending, stable *)

Lemma ins_Forall (P : Player -> Prop) x rp :
  P x -> Forall P rp -> Forall P (ins byPoints x rp).
Proof.
  intros Hx. induction 1 as [|y rp Hy Hrp IH]; cbn.
  - repeat constructor. assumption.
  - destruct (byPoints x y); repeat constructor; assumption.
Qed.

Lemma ins_ascending x rp : ascending rp -> ascending (ins byPoints x rp).
Proof.
  unfold ascending. induction 1 as [|y rp Hrp IH Hy]; cbn.
  - repeat constructor.
  - unfold byPoints at 1. case_bool_decide as Hlt.
    + constructor; [assumption|]. apply ins_Forall; [lia|assumption].
    + constructor; [constructor; assumption|].
      constructor; [lia|]. eapply Forall_impl; [exact Hy|].
      cbn. intros z Hz. lia.
Qed.

Lemma with_points_app k ps qs :
  with_points k (ps ++ qs) = with_points k ps ++ with_points k qs.
Proof. apply filter_app. Qed.

Lemma ins_with_points k x rp :
  with_points k (rev (ins byPoints x rp))
  = with_points k (rev rp) ++ with_points k [x].
Proof.
  induction rp as [|y rp IH]; cbn [ins rev]; [reflexivity|].
  unfold byPoints at 1. case_bool_decide as Hlt.
  - cbn [rev]. rewrite !with_points_app, IH, <- !app_assoc. f_equal.
    unfold with_points. rewrite !filter_cons, !filter_nil.
    destruct (decide (Points x = k)), (decide (Points y = k));
      try reflexivity. lia.
  - cbn [rev]. rewrite !with_points_app. reflexivity.
Qed.

Lemma foldl_ins_spec rest rp :
  ascending rp ->
  ascending (foldl (fun rp x => ins byPoints x rp) rp rest)
  /\ forall k,
       with_points k (rev (foldl (fun rp x => ins byPoints x rp) rp rest))
       = with_points k (rev rp) ++ with_points k rest.
Proof.
  revert rp. induction rest as [|x rest IH]; intros rp Hrp; cbn [foldl].
  - split; [assumption|]. intros k. unfold with_points at 3.
    rewrite filter_nil, app_nil_r. reflexivity.
  - destruct (IH (ins byPoints x rp) (ins_ascending x rp Hrp)) as [Ha Hk].
    split; [assumption|]. intros k.
    rewrite Hk, ins_with_points, <- app_assoc.
    rewrite <- with_points_app. reflexivity.
Qed.

Lemma ascending_rev rp : ascending rp -> descending (rev rp).
Proof.
  unfold ascending, descending. induction 1 as [|y rp Hrp IH Hy]; cbn [rev].
  - constructor.
  - apply StronglySorted_app_2; [|assumption|repeat constructor].
    intros p q Hp Hq. apply list_elem_of_singleton in Hq. subst q.
    rewrite Forall_forall in Hy. apply Hy.
    apply list_elem_of_In. apply in_rev. apply list_elem_of_In. assumption.
Qed.

Lemma insertion_sorted_spec ps :
  descending (insertion_sorted byPoints ps)
  /\ forall k, with_points k (insertion_sorted byPoints ps) = with_points k ps.
Proof.
  unfold insertion_sorted.
  destruct (foldl_ins_spec ps []) as [Ha Hk]; [constructor|].
  split; [apply ascending_rev; assumption|exact Hk].
Qed.

(** A slice already in descending order is left as it is. *)
Lemma insertion_sorted_fixed ps :
  descending ps -> insertion_sorted byPoints ps = ps.
Proof.
  unfold insertion_sorted, descending. intros Hps.
  assert (Hfold : forall rest rp,
            StronglySorted (fun p q => Points q <= Points p) (rev rp ++ rest) ->
            foldl (fun rp x => ins byPoints x rp) rp rest = rev rest ++ rp).
  { induction rest as [|x rest IH]; intros rp Hs; cbn [foldl rev];
      [reflexivity|].
    assert (Hins : ins byPoints x rp = x :: rp).
    { destruct rp as [|y rp]; [reflexivity|]. cbn [ins].
      unfold byPoints. rewrite bool_decide_eq_false_2; [reflexivity|].
      cbn [rev] in Hs. apply StronglySorted_app_1_elem_of
        with (x1 := y) (x2 := x) in Hs.
      - lia.
      - apply elem_of_app. right. left.
      - left. }
    rewrite Hins, IH.
    - rewrite <- app_assoc. reflexivity.
    - cbn [rev]. rewrite <- app_assoc. exact Hs. }
  rewrite Hfold by exact Hps. rewrite app_nil_r. apply rev_involutive.
Qed.

Lemma take_top (ps : list Player) : take (top ps) ps = take 3 ps.
Proof.
  unfold top, len. destruct (decide (3 <= length ps)%nat) as [Hl|Hl].
  - rewrite Z.min_l by lia. reflexivity.
  - rewrite Z.min_r by lia. rewrite Nat2Z.id.
    rewrite !take_ge by lia. reflexivity.
Qed.

Lemma descending_take n ps : descending ps -> descending (take n ps).
Proof.
  unfold descending. intros Hps. rewrite <- (take_drop n ps) in Hps.
  apply StronglySorted_app_1_l in Hps. assumption.
Qed.

Lemma descending_entry ps : descending ps -> descending_entries (entry <$> ps).
Proof.
  unfold descending, descending_entries.
  induction 1 as [|p ps Hps IH Hp]; cbn; constructor; [assumption|].
  apply Forall_fmap. eapply Forall_impl; [exact Hp|]. intros q Hq. exact Hq.
Qed.

Lemma getLeaderboard_run (next : Z -> Z) (g : Game) :
  exists board,
    getLeaderboard next g
    = (Returned board, set_Players (sort.Slice byPoints next (Players g)) g, [])
    /\ Permutation (sort.Slice byPoints next (Players g)) (Players g).
Proof.
  eexists. split; [reflexivity|]. apply Slice_Permutation.
Qed.

(** C6, as the code has it.  For every roster, [getLeaderboard] returns
    the first [min(3, n)] players, at most 3, of the roster as [sort.Slice]
    left it: a permutation of the roster in descending order of points, so
    the entries are in descending order of points too.  A roster of at most
    12 players is sorted by insertion, which leaves players with equal
    points in the order they had before the sort.  (For a larger roster the
    library's quicksort does not keep that order.) *)
Theorem C6_leaderboard (next : Z -> Z) (g : Game) :
  let ps := Players g in
  let sorted := sort.Slice byPoints next ps in
  exists board,
    getLeaderboard next g = (Returned board, set_Players sorted g, [])
    /\ board = entry <$> take 3 sorted
    /\ length board = Nat.min 3 (length ps)
    /\ (length board <= 3)%nat
    /\ Permutation sorted ps
    /\ descending sorted
    /\ descending_entries board
    /\ ((length ps <= 12)%nat ->
        forall k, with_points k sorted = with_points k ps).
Proof.
  intros ps sorted.
  assert (Hperm : Permutation sorted ps) by apply Slice_Permutation.
  assert (Hdesc : descending sorted) by apply Slice_descending.
  exists (entry <$> take 3 sorted).
  assert (Hlen : length (entry <$> take 3 sorted) = Nat.min 3 (length ps)).
  { rewrite length_fmap, length_take.
    rewrite (Permutation_length Hperm). reflexivity. }
  split.
  { unfold getLeaderboard, bind, modify, get, ret. cbn [fst snd app].
    fold ps. fold sorted. cbn [Players set_Players]. rewrite take_top.
    reflexivity. }
  split; [reflexivity|]. split; [exact Hlen|]. split; [lia|].
  split; [exact Hperm|]. split; [exact Hdesc|].
  split; [apply descending_entry, descending_take; exact Hdesc|].
  intros Hshort. unfold sorted. rewrite Slice_short by exact Hshort.
  apply insertion_sorted_spec.
Qed.

(** Ties are not always broken by the order of the roster before the sort.
    Thirteen players join, named 0 to 12 in that order; the last one alone
    scores.  When the reveal ends the roster is still in that order, and the
    leaderboard sent to the host lists 12, then 6, then 2: the players 6 and
    2, tied at 0 points with ten others, come in the reverse of their order
    in the roster and ahead of the players 0 and 1. *)
Lemma C6_counterexample :
  let g := (run delivered xorshift thirteen (newGame quiz1 1%nat 7%N 0)).1 in
  let res := exec delivered xorshift OpTimer g in
  State g = RevealState
  /\ Player_Name <$> Players g
     = ["0"; "1"; "2"; "3"; "4"; "5"; "6"; "7"; "8"; "9"; "10"; "11"; "12"]
  /\ Points <$> Players g = [0; 0; 0; 0; 0; 0; 0; 0; 0; 0; 0; 0; 5960]
  /\ In (1%nat,
         LeaderboardPacket [mkEntry "12" 5960; mkEntry "6" 0; mkEntry "2" 0])
        (sent res)
  /\ Player_Name <$> Players (game_of res)
     = ["12"; "6"; "2"; "3"; "4"; "5"; "0"; "7"; "8"; "9"; "10"; "11"; "1"].
Proof.
  vm_compute. repeat split.
  repeat (first [left; reflexivity | right]).
Qed.

(** C7, as the code has it.  Joining appends the new player at the end of
    the roster.  Computing the leaderboard is not read-only: it sorts the
    roster itself, which leaves it a permutation of what it was, in
    descending order of points; a roster of at most 12 players already in
    descending order of points keeps its order.  The other queries
    ([getCurrentQuestion], [isCorrectChoice], and [getAnsweredPlayers] and
    [getPointsReward], which only read the game) leave the game as it is. *)
Theorem C7_roster_order
  (WriteMessage : Conn -> Packet -> bool) (next : Z -> Z) (g : Game)
  (name : string) (connection : Conn) (id : UUID) (choiceIndex : Z) :
  Players (game_of (OnPlayerJoin WriteMessage name connection id g))
  = Players g ++ [mkPlayer id name connection 0 0 false]
  /\ Players (game_of (getLeaderboard next g))
     = sort.Slice byPoints next (Players g)
  /\ Permutation (Players (game_of (getLeaderboard next g))) (Players g)
  /\ descending (Players (game_of (getLeaderboard next g)))
  /\ ((length (Players g) <= 12)%nat -> descending (Players g) ->
      Players (game_of (getLeaderboard next g)) = Players g)
  /\ game_of (getCurrentQuestion g) = g
  /\ game_of (isCorrectChoice choiceIndex g) = g.
Proof.
  destruct (OnPlayerJoin_run WriteMessage name connection id g)
    as (out & -> & _).
  destruct (getLeaderboard_run next g) as (board & -> & Hperm).
  split; [reflexivity|]. split; [reflexivity|]. split; [exact Hperm|].
  split; [apply Slice_descending|].
  split.
  - intros Hshort Hdesc. cbn [game_of fst snd Players set_Players].
    rewrite Slice_short by exact Hshort.
    apply insertion_sorted_fixed. exact Hdesc.
  - rewrite isCorrectChoice_run. unfold getCurrentQuestion, bind, get.
    cbn [fst snd].
    destruct (index (Questions (Game_Quiz g)) (CurrentQuestion g));
      split; reflexivity.
Qed.

(** Computing the leaderboard changes the order of the roster.  Ann joins
    before Bob; Bob alone answers correctly.  When the reveal ends the
    roster is ann, bob; the turn of the countdown that computes the
    leaderboard leaves it bob, ann. *)
Lemma C7_counterexample :
  let g := (run delivered xorshift two_answers (newGame quiz1 1%nat 7%N 0)).1 in
  let res := exec delivered xorshift OpTimer g in
  Player_Name <$> Players g = ["ann"; "bob"]
  /\ Points <$> Players g = [0; 4960]
  /\ Player_Name <$> Players (game_of res) = ["bob"; "ann"]
  /\ Player_Name <$> Players (game_of (getLeaderboard xorshift g))
     = ["bob"; "ann"].
Proof. vm_compute. repeat split. Qed.

(** * Further properties of the code *)

(** ** Who is written what: broadcasts and notices *)

Section Fanout.

Variable WriteMessage : Conn -> Packet -> bool.

Lemma SendPacket_tagged connection packet g :
  packetToPacketId (Val packet) <> None ->
  SendPacket WriteMessage connection packet g
  = (Returned (WriteMessage connection packet), g, [(connection, packet)]).
Proof.
  intros Ht. unfold SendPacket.
  destruct (packetToPacketId (Val packet)); [reflexivity|congruence].
Qed.

Lemma SendPacket_untagged connection packet g :
  packetToPacketId (Val packet) = None ->
  SendPacket WriteMessage connection packet g = (Returned false, g, []).
Proof. intros Ht. unfold SendPacket. rewrite Ht. reflexivity. Qed.

Lemma BroadcastPacket_players_tagged ps packet g :
  packetToPacketId (Val packet) <> None ->
  BroadcastPacket_players WriteMessage ps packet g
  = (Returned (forallb (fun c => WriteMessage c packet) (Connection <$> ps)), g,
     to_each (upto_failure (fun c => WriteMessage c packet) (Connection <$> ps))
             packet).
Proof.
  intros Ht. induction ps as [|p ps IH]; [reflexivity|].
  cbn [BroadcastPacket_players]. unfold bind.
  rewrite SendPacket_tagged by exact Ht.
  cbn [fmap list_fmap forallb upto_failure to_each].
  destruct (WriteMessage (Connection p) packet); cbn [andb].
  - rewrite IH. reflexivity.
  - reflexivity.
Qed.

Lemma upto_failure_app ok cs ds :
  upto_failure ok (cs ++ ds)
  = if forallb ok cs then cs ++ upto_failure ok ds else upto_failure ok cs.
Proof.
  induction cs as [|c cs IH]; [reflexivity|].
  cbn [app upto_failure forallb]. destruct (ok c); cbn [andb]; [|reflexivity].
  rewrite IH. destruct (forallb ok cs); reflexivity.
Qed.

Lemma upto_failure_all ok cs : forallb ok cs = true -> upto_failure ok cs = cs.
Proof.
  induction cs as [|c cs IH]; [reflexivity|]. cbn [forallb upto_failure].
  destruct (ok c); cbn [andb]; [|discriminate]. intros Hcs.
  rewrite IH by exact Hcs. reflexivity.
Qed.

Lemma BroadcastPacket_log (packet : Packet) (includeHost : bool) (g : Game) :
  let cs := recipients g includeHost in
  let ok := fun c => WriteMessage c packet in
  BroadcastPacket WriteMessage packet includeHost g
  = match packetToPacketId (Val packet) with
    | Some _ => (Returned (forallb ok cs), g, to_each (upto_failure ok cs) packet)
    | None => (Returned (bool_decide (cs = [])), g, [])
    end.
Proof.
  cbv zeta. unfold BroadcastPacket, bind, get, recipients. cbn [fst snd app].
  destruct (packetToPacketId (Val packet)) as [tag|] eqn:Ht.
  - rewrite BroadcastPacket_players_tagged by congruence.
    rewrite upto_failure_app, forallb_app.
    destruct (forallb _ (Connection <$> Players g)) eqn:Hall; cbn [andb].
    + rewrite (upto_failure_all _ _ Hall). destruct includeHost.
      * rewrite SendPacket_tagged by congruence.
        cbn [forallb upto_failure]. rewrite andb_true_r.
        unfold to_each. rewrite fmap_app.
        destruct (WriteMessage (Host g) packet); reflexivity.
      * cbn [forallb upto_failure ret]. rewrite !app_nil_r. reflexivity.
    + cbn [ret]. rewrite app_nil_r. reflexivity.
  - destruct (Players g) as [|p ps] eqn:Hps.
    + cbn [BroadcastPacket_players ret fmap list_fmap app].
      destruct includeHost.
      * rewrite SendPacket_untagged by exact Ht. reflexivity.
      * reflexivity.
    + cbn [BroadcastPacket_players]. unfold bind.
      rewrite SendPacket_untagged by exact Ht. reflexivity.
Qed.

Lemma ChangeState_log (state : GameState) (g : Game) :
  ChangeState WriteMessage state g
  = (Returned tt, set_State state g,
     to_each (upto_failure
                (fun c => WriteMessage c (ChangeGameStatePacket state))
                (recipients g true))
             (ChangeGameStatePacket state)).
Proof.
  unfold ChangeState, bind, modify. cbn [fst snd app].
  pose proof (BroadcastPacket_log (ChangeGameStatePacket state) true
                (set_State state g)) as Hb.
  cbv zeta in Hb. cbn [packetToPacketId] in Hb. rewrite Hb.
  cbn [ret]. rewrite app_nil_r. reflexivity.
Qed.

(** X1.  [BroadcastPacket] writes the packet to the players in roster
    order, then to the host if asked, and stops after the first write that
    returns an error; it returns nil exactly when no write failed.  A packet
    of a kind without a tag is written to nobody: the first [SendPacket]
    fails in [PacketToBytes].  The game is left as it was. *)
Theorem X1_BroadcastPacket_fan_out
  (packet : Packet) (includeHost : bool) (g : Game) :
  let cs := recipients g includeHost in
  let ok := fun c => WriteMessage c packet in
  BroadcastPacket WriteMessage packet includeHost g
  = match packetToPacketId (Val packet) with
    | Some _ => (Returned (forallb ok cs), g, to_each (upto_failure ok cs) packet)
    | None => (Returned (bool_decide (cs = [])), g, [])
    end.
Proof. apply BroadcastPacket_log. Qed.

(** X2.  [ChangeState] assigns the state first and ignores the error of the
    broadcast: on every transport the game is left in the new state, its
    other fields as they were, and the notice went to the players in roster
    order and then to the host, up to the first write that failed. *)
Theorem X2_ChangeState_notifies (state : GameState) (g : Game) :
  let g' := game_of (ChangeState WriteMessage state g) in
  State g' = state
  /\ g' = set_State state g
  /\ sent (ChangeState WriteMessage state g)
     = to_each (upto_failure
                  (fun c => WriteMessage c (ChangeGameStatePacket state))
                  (recipients g true))
               (ChangeGameStatePacket state)
  /\ outcome (ChangeState WriteMessage state g) = Returned tt.
Proof. rewrite ChangeState_log. repeat split. Qed.

End Fanout.

Section RevealLog.

Variable WriteMessage : Conn -> Packet -> bool.

Lemma Reveal_player_points p :
  LastAwardedPoints (Reveal_player p) = reveal_points p
  /\ Points (Reveal_player p) = Points p
  /\ Answered (Reveal_player p) = Answered p
  /\ Connection (Reveal_player p) = Connection p
  /\ Player_Id (Reveal_player p) = Player_Id p
  /\ Player_Name (Reveal_player p) = Player_Name p.
Proof.
  unfold Reveal_player, reveal_points. destruct (Answered p) eqn:Ha; cbn;
    rewrite ?Ha; repeat split.
Qed.

Lemma Reveal_players_log ps g :
  Reveal_players WriteMessage ps g
  = (Returned tt, g,
     (fun p => (Connection p, PlayerRevealPacket (reveal_points p))) <$> ps).
Proof.
  induction ps as [|p ps IH]; [reflexivity|].
  cbn [Reveal_players]. unfold bind.
  rewrite SendPacket_tagged by discriminate. rewrite IH.
  destruct (Reveal_player_points p) as (-> & _). reflexivity.
Qed.

Lemma Reveal_log g :
  Reveal WriteMessage g
  = (Returned tt, revealed g,
     ((fun p => (Connection p, PlayerRevealPacket (reveal_points p)))
        <$> Players g)
     ++ to_each (upto_failure
                   (fun c => WriteMessage c (ChangeGameStatePacket RevealState))
                   (recipients g true))
                (ChangeGameStatePacket RevealState)).
Proof.
  unfold Reveal, bind, modify, get. cbn [fst snd app].
  rewrite Reveal_players_log, ChangeState_log. cbn [Players set_Time].
  unfold revealed, recipients. cbn [Players set_Players Host set_Time].
  rewrite <- list_fmap_compose.
  f_equal. f_equal. f_equal. f_equal. f_equal.
  apply list_fmap_ext. intros i p _. cbn.
  destruct (Reveal_player_points p) as (_ & _ & _ & -> & _). reflexivity.
Qed.

(** X3.  [Reveal] sets the countdown to 5 and the state to Reveal; a player
    who has not answered has the points of the last answer reset to 0; no
    total changes.  Every player is written a PlayerReveal packet with the
    points of the last answer, in roster order and whether or not an
    earlier write failed; the change of state is then broadcast as
    [ChangeState] does. *)
Theorem X3_Reveal (g : Game) :
  let res := Reveal WriteMessage g in
  let g' := game_of res in
  outcome res = Returned tt
  /\ State g' = RevealState /\ Time g' = 5
  /\ CurrentQuestion g' = CurrentQuestion g /\ Ended g' = Ended g
  /\ Points <$> Players g' = Points <$> Players g
  /\ Answered <$> Players g' = Answered <$> Players g
  /\ LastAwardedPoints <$> Players g' = reveal_points <$> Players g
  /\ sent res
     = ((fun p => (Connection p, PlayerRevealPacket (reveal_points p)))
          <$> Players g)
       ++ to_each (upto_failure
                     (fun c => WriteMessage c (ChangeGameStatePacket RevealState))
                     (recipients g true))
                  (ChangeGameStatePacket RevealState).
Proof.
  cbv zeta. rewrite Reveal_log.
  unfold outcome, game_of, sent, revealed.
  cbn [fst snd State Time CurrentQuestion Ended Players set_State set_Players
       set_Time].
  rewrite <- !list_fmap_compose.
  repeat split; apply list_fmap_ext; intros i p _; cbn;
    destruct (Reveal_player_points p) as (? & ? & ? & _); assumption.
Qed.

End RevealLog.

(** ** The countdown: how long each phase lasts *)

Section Countdown.

Variable WriteMessage : Conn -> Packet -> bool.
Variable next : Z -> Z.

Lemma index_None_range {A} (s : list A) i :
  index s i = None -> i < 0 \/ len s <= i.
Proof.
  unfold index, len. case_bool_decide; [|lia].
  intros Hx. apply lookup_ge_None_1 in Hx. lia.
Qed.

Lemma set_Time_same g : set_Time (Time g) g = g.
Proof. destruct g. reflexivity. Qed.

Lemma set_Time_twice t u g : set_Time t (set_Time u g) = set_Time t g.
Proof. reflexivity. Qed.

(** A turn of the countdown that does not reach zero. *)
Lemma timer_turn_counting g :
  State g <> LobbyState -> Ended g = false ->
  in_range (Time g - 1) -> Time g - 1 <> 0 ->
  exec WriteMessage next OpTimer g
  = (Returned tt, set_Time (Time g - 1) g, [(Host g, TickPacket (Time g - 1))]).
Proof.
  intros Hs He Hr Hz. cbn [exec]. unfold bind, get, timer_turn. cbn [fst snd].
  rewrite bool_decide_eq_false_2 by exact Hs.
  unfold bind, get. cbn [fst snd]. rewrite He.
  unfold Tick, bind, modify, get. cbn [fst snd app].
  rewrite SendPacket_tagged by discriminate.
  cbn [Time set_Time Host]. rewrite (wrap_small _ Hr).
  rewrite bool_decide_eq_false_2 by exact Hz. reflexivity.
Qed.

(** The turn of the countdown that reaches zero. *)
Lemma timer_turn_zero g :
  State g <> LobbyState -> Ended g = false -> Time g = 1 ->
  exec WriteMessage next OpTimer g
  = let g0 := set_Time 0 g in
    let '(r, g', out) :=
      match State g with
      | PlayState => Reveal WriteMessage g0
      | RevealState => Intermission WriteMessage next g0
      | IntermissionState => NextQuestion WriteMessage g0
      | _ => (Returned tt, g0, [])
      end in
    (r, g', (Host g, TickPacket 0) :: out).
Proof.
  intros Hs He Ht. cbn [exec]. unfold bind, get, timer_turn. cbn [fst snd].
  rewrite bool_decide_eq_false_2 by exact Hs.
  unfold bind, get. cbn [fst snd]. rewrite He.
  unfold Tick, bind, modify, get. cbn [fst snd app].
  rewrite SendPacket_tagged by discriminate.
  cbn [Time set_Time Host State]. rewrite Ht.
  change (wrap (1 - 1)) with 0.
  rewrite bool_decide_eq_true_2 by reflexivity.
  destruct (State g); try reflexivity.
  - destruct (Reveal WriteMessage (set_Time 0 g)) as [[r g'] out]. reflexivity.
  - destruct (NextQuestion WriteMessage (set_Time 0 g)) as [[r g'] out].
    reflexivity.
  - destruct (Intermission WriteMessage next (set_Time 0 g)) as [[r g'] out].
    reflexivity.
Qed.

(** [n] turns of the countdown none of which reaches zero. *)
Lemma countdown_run (n : nat) g :
  State g <> LobbyState -> Ended g = false ->
  Time g <= max_int -> min_int <= Time g - Z.of_nat n ->
  (forall k : nat, (1 <= k <= n)%nat -> Time g - Z.of_nat k <> 0) ->
  run WriteMessage next (replicate n OpTimer) g
  = (set_Time (Time g - Z.of_nat n) g,
     (fun k : nat => (Host g, TickPacket (Time g - Z.of_nat k))) <$> seq 1 n).
Proof.
  revert g. induction n as [|n IH]; intros g Hs He Hmax Hmin Hz.
  - cbn [replicate run seq fmap list_fmap]. rewrite Z.sub_0_r, set_Time_same.
    reflexivity.
  - cbn [replicate run].
    rewrite timer_turn_counting;
      [|assumption|assumption
       |unfold in_range, min_int, max_int in *; lia|apply (Hz 1%nat); lia].
    unfold game_of, sent. cbn [fst snd].
    rewrite IH; cbn [State Ended Time set_Time Host];
      [|assumption|assumption|unfold max_int in *; lia|lia|].
    2:{ intros k Hk. specialize (Hz (S k) ltac:(lia)). lia. }
    cbn [fst snd]. f_equal.
    + unfold set_Time; cbn. f_equal. lia.
    + cbn [seq fmap list_fmap app]. change (Z.of_nat 1) with 1. f_equal.
      rewrite <- (fmap_S_seq 1 n), <- list_fmap_compose.
      apply list_fmap_ext. intros i k _. unfold compose.
      f_equal. f_equal. lia.
Qed.

Lemma replicate_S_end {A} (n : nat) (x : A) :
  replicate (S n) x = replicate n x ++ [x].
Proof.
  induction n as [|n IH]; [reflexivity|].
  cbn [replicate app] in *. rewrite <- IH. reflexivity.
Qed.

(** The countdown from [Time g >= 1] down to the turn that reaches zero. *)
Lemma countdown_to_zero g :
  State g <> LobbyState -> Ended g = false -> 1 <= Time g <= max_int ->
  let n := Z.to_nat (Time g - 1) in
  run WriteMessage next (replicate (S n) OpTimer) g
  = let r := exec WriteMessage next OpTimer (set_Time 1 g) in
    (game_of r,
     ((fun k : nat => (Host g, TickPacket (Time g - Z.of_nat k))) <$> seq 1 n)
     ++ sent r).
Proof.
  intros Hs He Ht n. rewrite replicate_S_end, run_app.
  rewrite countdown_run; [|assumption|assumption|lia|unfold min_int; lia|lia].
  cbn [fst snd run]. replace (Time g - Z.of_nat n) with 1 by lia.
  rewrite app_nil_r. reflexivity.
Qed.

Lemma Intermission_log g :
  Intermission WriteMessage next g
  = (Returned tt, ranked next (set_State IntermissionState (set_Time 30 g)),
     to_each (upto_failure
                (fun c => WriteMessage c (ChangeGameStatePacket IntermissionState))
                (recipients g true))
             (ChangeGameStatePacket IntermissionState)
     ++ [(Host g,
          LeaderboardPacket
            (entry <$> take 3 (sort.Slice byPoints next (Players g))))]).
Proof.
  unfold Intermission, getLeaderboard, bind, modify, get, ret.
  cbn [fst snd]. rewrite ChangeState_log. cbn [fst snd].
  rewrite SendPacket_tagged by discriminate.
  cbn [Players set_Players set_State set_Time Host app].
  rewrite take_top. reflexivity.
Qed.

(** The turns of the countdown from [Time g >= 1] to zero, and the
    transition the last one makes. *)
Lemma phase_run g :
  State g <> LobbyState -> Ended g = false -> 1 <= Time g <= max_int ->
  run WriteMessage next (replicate (Z.to_nat (Time g)) OpTimer) g
  = let g0 := set_Time 0 g in
    let '(r, g', out) :=
      match State g with
      | PlayState => Reveal WriteMessage g0
      | RevealState => Intermission WriteMessage next g0
      | IntermissionState => NextQuestion WriteMessage g0
      | _ => (Returned tt, g0, [])
      end in
    (g',
     ((fun k : nat => (Host g, TickPacket (Time g - Z.of_nat k)))
        <$> seq 1 (Z.to_nat (Time g)))
     ++ out).
Proof.
  intros Hs He Ht.
  replace (Z.to_nat (Time g)) with (S (Z.to_nat (Time g - 1))) by lia.
  rewrite countdown_to_zero by assumption. cbv zeta.
  rewrite timer_turn_zero by (cbn; first [assumption | reflexivity]).
  cbv zeta. cbn [State set_Time]. rewrite set_Time_twice.
  rewrite seq_S, fmap_app. cbn [fmap list_fmap].
  replace (Time g - Z.of_nat (1 + Z.to_nat (Time g - 1))) with 0 by lia.
  destruct (State g) eqn:Hst; [congruence| | | |];
    [destruct (Reveal WriteMessage (set_Time 0 g)) as [[r g'] out]
    |destruct (NextQuestion WriteMessage (set_Time 0 g)) as [[r g'] out]
    |destruct (Intermission WriteMessage next (set_Time 0 g)) as [[r g'] out]
    |];
    unfold game_of, sent; cbn [fst snd Host set_Time];
    rewrite <- app_assoc; reflexivity.
Qed.

Lemma phase_run_n (n : nat) g :
  Z.of_nat n = Time g ->
  State g <> LobbyState -> Ended g = false -> 1 <= Time g <= max_int ->
  run WriteMessage next (replicate n OpTimer) g
  = let g0 := set_Time 0 g in
    let '(r, g', out) :=
      match State g with
      | PlayState => Reveal WriteMessage g0
      | RevealState => Intermission WriteMessage next g0
      | IntermissionState => NextQuestion WriteMessage g0
      | _ => (Returned tt, g0, [])
      end in
    (g',
     ((fun k : nat => (Host g, TickPacket (Time g - Z.of_nat k))) <$> seq 1 n)
     ++ out).
Proof.
  intros Hn Hs He Ht. replace n with (Z.to_nat (Time g)) by lia.
  apply phase_run; assumption.
Qed.

(** X4.  A question nobody answers stays open for exactly as many turns of
    the countdown as its remaining time says: before that the game only
    counts down, telling the host each second; the turn that reaches zero
    reveals. *)
Theorem X4_question_open_for_its_time (g : Game) :
  State g = PlayState -> Ended g = false -> 1 <= Time g <= max_int ->
  let T := Z.to_nat (Time g) in
  (forall n : nat, (n < T)%nat ->
     run WriteMessage next (replicate n OpTimer) g
     = (set_Time (Time g - Z.of_nat n) g,
        (fun k : nat => (Host g, TickPacket (Time g - Z.of_nat k))) <$> seq 1 n))
  /\ let res := run WriteMessage next (replicate T OpTimer) g in
     State res.1 = RevealState /\ Time res.1 = 5
     /\ Players res.1 = Reveal_player <$> Players g
     /\ CurrentQuestion res.1 = CurrentQuestion g
     /\ res.2
        = ((fun k : nat => (Host g, TickPacket (Time g - Z.of_nat k)))
             <$> seq 1 T)
          ++ sent (Reveal WriteMessage (set_Time 0 g)).
Proof.
  intros Hs He Ht T. split.
  - intros n Hn. apply countdown_run;
      [congruence|assumption|lia|unfold min_int; lia|lia].
  - cbv zeta. unfold T. rewrite phase_run by (congruence || assumption).
    cbv zeta. rewrite Hs, Reveal_log. cbn [fst snd].
    unfold sent. cbn [snd]. repeat split.
Qed.

Lemma run_app_fst ops1 ops2 g g1 out1 :
  run WriteMessage next ops1 g = (g1, out1) ->
  (run WriteMessage next (ops1 ++ ops2) g).1
  = (run WriteMessage next ops2 g1).1.
Proof. intros H1. rewrite run_app, H1. reflexivity. Qed.

(** The turn that ends the reveal. *)
Lemma reveal_phase (g : Game) :
  State g = RevealState -> Ended g = false -> 1 <= Time g <= max_int ->
  run WriteMessage next (replicate (Z.to_nat (Time g)) OpTimer) g
  = (set_Players (sort.Slice byPoints next (Players g))
       (set_State IntermissionState (set_Time 30 g)),
     ((fun k : nat => (Host g, TickPacket (Time g - Z.of_nat k)))
        <$> seq 1 (Z.to_nat (Time g)))
     ++ (to_each (upto_failure
                    (fun c => WriteMessage c
                                (ChangeGameStatePacket IntermissionState))
                    (recipients g true))
                 (ChangeGameStatePacket IntermissionState)
         ++ [(Host g,
              LeaderboardPacket
                (entry <$> take 3 (sort.Slice byPoints next (Players g))))])).
Proof.
  intros Hs He Ht. rewrite phase_run by (congruence || assumption).
  cbv zeta. rewrite Hs, Intermission_log. reflexivity.
Qed.

(** The turn that ends the intermission. *)
Lemma intermission_phase (n : nat) (g : Game) :
  Z.of_nat n = Time g ->
  State g = IntermissionState -> Ended g = false -> 1 <= Time g <= max_int ->
  (run WriteMessage next (replicate n OpTimer) g).1
  = (NextQuestion_effect (set_Time 0 g)).2.
Proof.
  intros Hn Hs He Ht.
  rewrite (phase_run_n n g) by (congruence || assumption).
  cbv zeta. rewrite Hs.
  destruct (NextQuestion_run WriteMessage (set_Time 0 g)) as (out & -> & _).
  destruct (NextQuestion_effect (set_Time 0 g)). reflexivity.
Qed.

(** The game a question index past the end or on a question leaves. *)
Lemma NextQuestion_effect_cases g :
  -1 <= CurrentQuestion g < max_int ->
  let g' := (NextQuestion_effect g).2 in
  CurrentQuestion g' = CurrentQuestion g + 1
  /\ match index (Questions (Game_Quiz g)) (CurrentQuestion g + 1) with
     | Some q =>
         State g' = PlayState /\ Time g' = Question_Time q
         /\ Ended g' = Ended g
         /\ Players g' = set_Answered false <$> Players g
     | None =>
         State g' = EndState /\ Ended g' = true /\ Players g' = Players g
     end.
Proof.
  intros Hi. cbv zeta. unfold NextQuestion_effect.
  cbn [advanced set_CurrentQuestion CurrentQuestion].
  rewrite wrap_succ by exact Hi.
  pose proof (len_nonneg (Questions (Game_Quiz g))) as Hlen.
  case_bool_decide as Hend.
  - cbn [snd ended advanced CurrentQuestion State Ended Players set_State
         set_Ended set_CurrentQuestion].
    rewrite wrap_succ by exact Hi.
    split; [reflexivity|].
    destruct (index (Questions (Game_Quiz g)) (CurrentQuestion g + 1))
      as [q|] eqn:Hq; [|repeat split].
    apply index_Some_range in Hq. lia.
  - destruct (index (Questions (Game_Quiz g)) (CurrentQuestion g + 1))
      as [q|] eqn:Hq.
    + cbn [snd asking advanced CurrentQuestion State Ended Time Players
           set_State set_Time set_Players set_CurrentQuestion].
      rewrite wrap_succ by exact Hi.
      repeat split.
    + exfalso. apply index_None_range in Hq. lia.
Qed.

(** X5.  After the reveal the leaderboard comes when the countdown runs
    out, and the next question 30 turns later: the turn that ends the
    reveal sets the state to Intermission and the countdown to 30, sorts the
    roster and sends the host the leaderboard; the turn that ends the
    intermission moves to the next question, with its time and every
    answered flag cleared, or ends the game after the last question. *)
Theorem X5_reveal_to_next_question (g : Game) :
  State g = RevealState -> Ended g = false -> 1 <= Time g <= max_int ->
  -1 <= CurrentQuestion g < max_int ->
  let T := Z.to_nat (Time g) in
  let sorted := sort.Slice byPoints next (Players g) in
  let res1 := run WriteMessage next (replicate T OpTimer) g in
  let res2 := run WriteMessage next (replicate (T + 30) OpTimer) g in
  (State res1.1 = IntermissionState /\ Time res1.1 = 30
   /\ Players res1.1 = sorted
   /\ CurrentQuestion res1.1 = CurrentQuestion g
   /\ In (Host g, LeaderboardPacket (entry <$> take 3 sorted)) res1.2)
  /\ CurrentQuestion res2.1 = CurrentQuestion g + 1
  /\ match index (Questions (Game_Quiz g)) (CurrentQuestion g + 1) with
     | Some q =>
         State res2.1 = PlayState /\ Time res2.1 = Question_Time q
         /\ Ended res2.1 = false
         /\ Players res2.1 = set_Answered false <$> sorted
     | None =>
         State res2.1 = EndState /\ Ended res2.1 = true
         /\ Players res2.1 = sorted
     end.
Proof.
  intros Hs He Ht Hi. cbv zeta. split.
  { rewrite (reveal_phase g Hs He Ht).
    generalize (sort.Slice byPoints next (Players g)). intros sorted.
    cbn [fst snd State Time Players CurrentQuestion set_Players set_State
         set_Time].
    repeat split.
    apply list_elem_of_In, elem_of_app. right.
    apply elem_of_app. right. constructor. }
  rewrite replicate_add, (run_app_fst _ _ _ _ _ (reveal_phase g Hs He Ht)).
  rewrite (intermission_phase 30);
    [|reflexivity|reflexivity|exact He
     |unfold max_int; cbn [Time set_Players set_State set_Time]; lia].
  generalize (sort.Slice byPoints next (Players g)). intros sorted.
  destruct (NextQuestion_effect_cases
              (set_Time 0 (set_Players sorted
                             (set_State IntermissionState (set_Time 30 g))))
              Hi) as [Hc Hm].
  cbn [Game_Quiz CurrentQuestion Players Ended set_Players set_State set_Time]
    in Hc, Hm.
  split; [exact Hc|].
  destruct (index (Questions (Game_Quiz g)) (CurrentQuestion g + 1));
    [|exact Hm].
  destruct Hm as (? & ? & He' & ?). rewrite He in He'. repeat split; assumption.
Qed.

(** X6.  A countdown at or below zero never triggers a transition: each
    turn takes one more second off and tells the host, whatever the state.
    A question with a time budget of 0 is therefore never closed by the
    countdown. *)
Theorem X6_countdown_below_zero (g : Game) (n : nat) :
  State g <> LobbyState -> Ended g = false ->
  Time g <= 0 -> min_int <= Time g - Z.of_nat n ->
  run WriteMessage next (replicate n OpTimer) g
  = (set_Time (Time g - Z.of_nat n) g,
     (fun k : nat => (Host g, TickPacket (Time g - Z.of_nat k))) <$> seq 1 n).
Proof.
  intros Hs He Ht Hmin. apply countdown_run;
    [assumption|assumption|unfold max_int; lia|assumption|lia].
Qed.

End Countdown.

(** ** Answers that close the question *)

Lemma filter_length_all {A} (P : A -> Prop) `{!forall x, Decision (P x)}
  (l : list A) :
  length (filter P l) = length l <-> Forall P l.
Proof.
  induction l as [|x l IH].
  - split; [constructor|reflexivity].
  - rewrite filter_cons. pose proof (length_filter P l) as Hle.
    destruct (decide (P x)) as [Hx|Hx]; cbn [length].
    + split.
      * intros Hl. constructor; [assumption|]. apply IH. lia.
      * intros Hl. apply Forall_cons in Hl as [_ Hl]. apply IH in Hl. lia.
    + split; [lia|]. intros Hl. apply Forall_cons in Hl as [? _]. contradiction.
Qed.

Section Answers.

Variable WriteMessage : Conn -> Packet -> bool.
Variable next : Z -> Z.

Lemma OnPlayerAnswer_log choice player g q :
  index (Questions (Game_Quiz g)) (CurrentQuestion g) = Some q ->
  OnPlayerAnswer WriteMessage choice player g
  = let g2 := answered_by (correct_choice q choice) player g in
    if bool_decide (len (getAnsweredPlayers g2) = len (Players g2))
    then Reveal WriteMessage g2
    else (Returned tt, g2, []).
Proof.
  intros Hq. unfold OnPlayerAnswer, bind. rewrite isCorrectChoice_run, Hq.
  unfold answered_by.
  destruct (correct_choice q choice); unfold modify, get; cbn [fst snd app];
    cbv zeta; case_bool_decide; try reflexivity;
    match goal with
    | |- context [Reveal WriteMessage ?G] =>
        destruct (Reveal WriteMessage G) as [[r g'] out]; reflexivity
    end.
Qed.

Lemma answered_by_lookup correct i g j :
  Players (answered_by correct i g) !! j
  = if decide (j = i)
    then (fun p => set_Answered true
                     ((if correct then award (getPointsReward g)
                       else set_LastAwardedPoints 0) p)) <$> Players g !! i
    else Players g !! j.
Proof.
  unfold answered_by. cbn [Players set_Players].
  destruct (decide (j = i)) as [->|Hne].
  - rewrite !list_lookup_alter_eq. destruct (Players g !! i); reflexivity.
  - rewrite !list_lookup_alter_ne by congruence. reflexivity.
Qed.

Lemma answered_by_all correct i g p :
  Players g !! i = Some p ->
  len (getAnsweredPlayers (answered_by correct i g))
  = len (Players (answered_by correct i g))
  <-> (forall j p', j <> i -> Players g !! j = Some p' -> Answered p' = true).
Proof.
  intros Hp. unfold len, getAnsweredPlayers.
  rewrite Nat2Z.inj_iff, filter_length_all, Forall_lookup. split.
  - intros Hall j p' Hne Hj. apply (Hall j).
    rewrite answered_by_lookup, decide_False by exact Hne. exact Hj.
  - intros Hall j p' Hj. rewrite answered_by_lookup in Hj.
    destruct (decide (j = i)) as [->|Hne].
    + rewrite Hp in Hj. injection Hj as <-. reflexivity.
    + apply (Hall j); assumption.
Qed.

(** X7.  An answer of a player of the roster on a current question is not
    acknowledged to anyone: the answered flag of the player is set, and no
    packet is sent, unless every other player has already answered.  In that
    case the answer closes the question at once: the state becomes Reveal,
    the countdown 5, and every player is told the points of their last
    answer. *)
Theorem X7_last_answer_reveals
  (g : Game) (q : QuizQuestion) (choice : Z) (i : nat) (p : Player) :
  index (Questions (Game_Quiz g)) (CurrentQuestion g) = Some q ->
  Players g !! i = Some p ->
  let others_answered :=
    forall j p', j <> i -> Players g !! j = Some p' -> Answered p' = true in
  let res := OnPlayerAnswer WriteMessage choice i g in
  outcome res = Returned tt
  /\ Answered <$> Players (game_of res) !! i = Some true
  /\ length (Players (game_of res)) = length (Players g)
  /\ (others_answered ->
      State (game_of res) = RevealState /\ Time (game_of res) = 5
      /\ forall j p', Players (game_of res) !! j = Some p' ->
           In (Connection p', PlayerRevealPacket (LastAwardedPoints p'))
              (sent res))
  /\ (~ others_answered ->
      State (game_of res) = State g /\ Time (game_of res) = Time g
      /\ sent res = []).
Proof.
  intros Hq Hp others res. unfold res.
  rewrite (OnPlayerAnswer_log _ _ _ _ Hq). cbv zeta.
  set (g2 := answered_by (correct_choice q choice) i g).
  assert (Hi : Players g2 !! i
               = Some (set_Answered true
                   ((if correct_choice q choice then award (getPointsReward g)
                     else set_LastAwardedPoints 0) p))).
  { unfold g2. rewrite answered_by_lookup, decide_True, Hp by reflexivity.
    reflexivity. }
  assert (Hlen : length (Players g2) = length (Players g)).
  { unfold g2, answered_by. cbn [Players set_Players].
    rewrite !length_alter. reflexivity. }
  pose proof (answered_by_all (correct_choice q choice) i g p Hp) as Hall.
  fold g2 in Hall. fold others in Hall.
  case_bool_decide as Hc.
  - rewrite Reveal_log. unfold outcome, game_of, sent. cbn [fst snd].
    split; [reflexivity|].
    unfold revealed. cbn [Players State Time set_State set_Players set_Time].
    split.
    { rewrite list_lookup_fmap, Hi. cbn [fmap option_fmap option_map].
      rewrite Reveal_player_Answered. reflexivity. }
    split; [rewrite length_fmap; exact Hlen|].
    split; [|intros Hno; exfalso; apply Hno, Hall, Hc].
    intros _. split; [reflexivity|]. split; [reflexivity|].
    intros j p' Hj. rewrite list_lookup_fmap in Hj.
    destruct (Players g2 !! j) as [p2|] eqn:Hj2; [|discriminate].
    injection Hj as <-.
    destruct (Reveal_player_points p2) as (-> & _ & _ & -> & _).
    apply list_elem_of_In, elem_of_app. left.
    apply list_elem_of_fmap. exists p2. split; [reflexivity|].
    apply list_elem_of_lookup_2 with j. exact Hj2.
  - unfold outcome, game_of, sent. cbn [fst snd].
    split; [reflexivity|]. split; [rewrite Hi; reflexivity|].
    split; [exact Hlen|]. split; [intros Ho; exfalso; apply Hc, Hall, Ho|].
    intros _. repeat split.
Qed.

End Answers.

(** ** What changes a total *)

Lemma standing_alter (f : Player -> Player) i (ps : list Player) :
  (forall p, standing (f p) = standing p) ->
  standing <$> alter f i ps = standing <$> ps.
Proof.
  intros Hf. revert i. induction ps as [|p ps IH]; intros [|i];
    cbn [alter list_alter fmap list_fmap]; try reflexivity.
  - rewrite Hf. reflexivity.
  - f_equal. apply IH.
Qed.

Lemma standing_fmap (f : Player -> Player) (ps : list Player) :
  (forall p, standing (f p) = standing p) ->
  standing <$> (f <$> ps) = standing <$> ps.
Proof.
  intros Hf. rewrite <- list_fmap_compose. apply list_fmap_ext.
  intros i p _. apply Hf.
Qed.

Lemma standing_Reveal_player p : standing (Reveal_player p) = standing p.
Proof. unfold Reveal_player. destruct (Answered p); reflexivity. Qed.

Lemma NextQuestion_effect_standing g :
  standing <$> Players (NextQuestion_effect g).2 = standing <$> Players g.
Proof.
  unfold NextQuestion_effect. case_bool_decide; [reflexivity|].
  destruct (index _ _);
    cbn [snd asking advanced Players set_State set_Players set_Time
         set_CurrentQuestion];
    apply standing_fmap; reflexivity.
Qed.

Section Totals.

Variable WriteMessage : Conn -> Packet -> bool.
Variable next : Z -> Z.

(** X8.  Only a correct answer changes a total.  A [StartGame] of the host
    leaves the identity, name, connection and total of every player as they
    were, in the same order; a turn of the countdown leaves them as they
    were up to the order of the roster, which the leaderboard sorts; an
    answer that is not correct, or that comes when no question is current,
    changes none of them; and an answer never changes them for another
    player than the one who answers. *)
Theorem X8_totals_change_only_by_correct_answers (g : Game) :
  standing <$> Players (game_of (exec WriteMessage next OpStartOrSkip g))
  = standing <$> Players g
  /\ Permutation
       (standing <$> Players (game_of (exec WriteMessage next OpTimer g)))
       (standing <$> Players g)
  /\ (forall choice i,
        (forall q, index (Questions (Game_Quiz g)) (CurrentQuestion g) = Some q ->
                   correct_choice q choice = false) ->
        standing
          <$> Players (game_of (exec WriteMessage next (OpAnswer choice i) g))
        = standing <$> Players g)
  /\ (forall choice i j, j <> i ->
        standing
          <$> Players (game_of (exec WriteMessage next (OpAnswer choice i) g))
              !! j
        = standing <$> Players g !! j).
Proof.
  rewrite !game_of_exec. split; [|split; [|split]].
  - cbn [exec_effect]. unfold StartOrSkip_effect. case_bool_decide.
    + rewrite NextQuestion_effect_standing. reflexivity.
    + apply NextQuestion_effect_standing.
  - cbn [exec_effect]. case_bool_decide; [reflexivity|].
    destruct (Ended g); [reflexivity|].
    unfold Tick_effect. cbv zeta. case_bool_decide; [|reflexivity].
    cbn [State set_Time]. destruct (State g); try reflexivity.
    + unfold revealed.
      cbn [snd Players set_State set_Players set_Time].
      rewrite standing_fmap by apply standing_Reveal_player. reflexivity.
    + rewrite NextQuestion_effect_standing. reflexivity.
    + unfold ranked. cbn [snd Players set_State set_Players set_Time].
      apply fmap_Permutation, Slice_Permutation.
  - intros choice i Hwrong. rewrite game_of_exec. cbn [exec_effect].
    unfold OnPlayerAnswer_effect.
    destruct (index (Questions (Game_Quiz g)) (CurrentQuestion g)) as [q|];
      [|reflexivity].
    rewrite (Hwrong q eq_refl). unfold answered_by.
    case_bool_decide; unfold revealed;
      cbn [snd Players set_State set_Players set_Time];
      rewrite ?(standing_fmap Reveal_player) by apply standing_Reveal_player;
      rewrite !standing_alter by reflexivity; reflexivity.
  - intros choice i j Hne. rewrite game_of_exec. cbn [exec_effect].
    unfold OnPlayerAnswer_effect.
    destruct (index (Questions (Game_Quiz g)) (CurrentQuestion g)) as [q|];
      [|reflexivity].
    case_bool_decide; unfold revealed;
      cbn [snd Players set_State set_Players set_Time];
      rewrite ?list_lookup_fmap, answered_by_lookup, decide_False by exact Hne;
      destruct (Players g !! j) as [p|]; cbn [fmap option_fmap option_map];
      rewrite ?standing_Reveal_player; reflexivity.
Qed.

End Totals.

(** ** The directory of games *)

Lemma getGameByPlayer_from_None k0 games con :
  getGameByPlayer_from k0 games con = None
  <-> Forall (fun game =>
                list_find (fun player => Connection player = con) (Players game)
                = None) games.
Proof.
  revert k0. induction games as [|game games IH]; intros k0;
    cbn [getGameByPlayer_from].
  - split; [constructor|reflexivity].
  - destruct (list_find _ (Players game)) as [[i p]|] eqn:Hf.
    + split; [discriminate|]. intros Hall.
      apply Forall_cons in Hall as [Hn _]. congruence.
    + rewrite IH. split.
      * intros Hall. constructor; assumption.
      * intros Hall. apply Forall_cons in Hall as [_ Hall]. exact Hall.
Qed.

Lemma getGameByPlayer_from_Some k0 games con k i p :
  getGameByPlayer_from k0 games con = Some (k, i, p)
  <-> exists j game,
        k = (k0 + j)%nat /\ games !! j = Some game
        /\ list_find (fun player => Connection player = con) (Players game)
           = Some (i, p)
        /\ forall j' game', (j' < j)%nat -> games !! j' = Some game' ->
             list_find (fun player => Connection player = con) (Players game')
             = None.
Proof.
  revert k0. induction games as [|game games IH]; intros k0;
    cbn [getGameByPlayer_from].
  - split; [discriminate|]. intros (j & g & _ & Hj & _). discriminate.
  - destruct (list_find _ (Players game)) as [[i0 p0]|] eqn:Hf.
    + split.
      * intros [= <- <- <-]. exists 0%nat, game.
        split; [lia|]. split; [reflexivity|]. split; [exact Hf|].
        intros j' g' Hj'. lia.
      * intros (j & g & -> & Hj & Hfind & Hleast).
        destruct j as [|j].
        -- cbn in Hj. injection Hj as <-. rewrite Hf in Hfind.
           injection Hfind as <- <-. repeat f_equal. lia.
        -- specialize (Hleast 0%nat game ltac:(lia) eq_refl). congruence.
    + rewrite IH. split.
      * intros (j & g & -> & Hj & Hfind & Hleast).
        exists (S j), g. split; [lia|]. split; [exact Hj|].
        split; [exact Hfind|]. intros [|j'] g' Hlt Hg'.
        -- cbn in Hg'. injection Hg' as <-. exact Hf.
        -- apply (Hleast j'); [lia|exact Hg'].
      * intros (j & g & -> & Hj & Hfind & Hleast).
        destruct j as [|j].
        -- cbn in Hj. injection Hj as <-. congruence.
        -- exists j, g. split; [lia|]. split; [exact Hj|].
           split; [exact Hfind|]. intros j' g' Hlt Hg'.
           apply (Hleast (S j')); [lia|exact Hg'].
Qed.

Section Directory.

Variable WriteMessage : Conn -> Packet -> bool.
Variable next : Z -> Z.

Lemma OnPlayerJoin_log name connection id g :
  OnPlayerJoin WriteMessage name connection id g
  = (Returned tt, joined name connection id g,
     [(connection, ChangeGameStatePacket (State g));
      (Host g, PlayerJoinPacket (mkPlayer id name connection 0 0 false))]).
Proof.
  unfold OnPlayerJoin, bind, modify, get. cbn [fst snd].
  rewrite !SendPacket_tagged by discriminate. reflexivity.
Qed.

Lemma OnPlayerDisconnect_log player g :
  OnPlayerDisconnect WriteMessage player g
  = (Returned tt, left player g,
     [(Host g, PlayerDisconnectPacket (Player_Id player))]).
Proof.
  unfold OnPlayerDisconnect, bind, modify, get. cbn [fst snd].
  rewrite !SendPacket_tagged by discriminate. reflexivity.
Qed.

Lemma on_game_at games k game (m : M unit) :
  games !! k = Some game ->
  on_game games k m = ((m game).1.1, <[k := (m game).1.2]> games, (m game).2).
Proof.
  intros Hk. unfold on_game. rewrite Hk. destruct (m game) as [[r g'] out].
  reflexivity.
Qed.

End Directory.

Lemma getGameByPlayer_joined games k game player :
  games !! k = Some game ->
  getGameByPlayer games (Connection player) = None ->
  getGameByPlayer (<[k := set_Players (Players game ++ [player]) game]> games)
                  (Connection player)
  = Some (k, length (Players game), player).
Proof.
  intros Hk Hnone. unfold getGameByPlayer in *.
  apply getGameByPlayer_from_None in Hnone.
  apply getGameByPlayer_from_Some.
  exists k, (set_Players (Players game ++ [player]) game).
  split; [reflexivity|]. split.
  { apply list_lookup_insert_eq. apply lookup_lt_Some in Hk. exact Hk. }
  split.
  - cbn [Players set_Players].
    pose proof (Forall_lookup_1 _ _ _ _ Hnone Hk) as Hn. cbv beta in Hn.
    rewrite (list_find_app_r _ _ _ Hn). cbn.
    rewrite decide_True by reflexivity. reflexivity.
  - intros j' g' Hlt Hg'. rewrite list_lookup_insert_ne in Hg' by lia.
    apply (Forall_lookup_1 _ _ _ _ Hnone Hg').
Qed.

Section Routing.

Variable WriteMessage : Conn -> Packet -> bool.
Variable json : Json.
Variable ObjectIDFromHex : string -> option ObjectID.
Variable GetQuizById : ObjectID -> option Quiz.

(** X9.  A Connect message joins the first game of the directory that has
    the code, whatever the state of that game, and nothing else changes;
    the player is told the state and the host of that game is told of the
    player.  With no game of that code the message is dropped.  After the
    join the connection is found as a player: as the new player when it
    was no player before. *)
Theorem X9_connect_joins_first_game_with_code
  (games : list Game) (con : Conn) (mt : Z) (msg : list byte)
  (id : UUID) (r : Z) (code name : string) :
  decode json msg = Some (Ptr (ConnectPacket code name)) ->
  let res := OnIncomingMessage WriteMessage json ObjectIDFromHex GetQuizById
               games con mt msg id r in
  match getGameByCode games code with
  | None => res = (Returned tt, games, [])
  | Some (k, game) =>
      let player := mkPlayer id name con 0 0 false in
      games !! k = Some game /\ Code game = code
      /\ (forall j game', (j < k)%nat -> games !! j = Some game' ->
            Code game' <> code)
      /\ res = (Returned tt,
                <[k := set_Players (Players game ++ [player]) game]> games,
                [(con, ChangeGameStatePacket (State game));
                 (Host game, PlayerJoinPacket player)])
      /\ is_Some (getGameByPlayer res.1.2 con)
      /\ (getGameByPlayer games con = None ->
          getGameByPlayer res.1.2 con
          = Some (k, length (Players game), player))
  end.
Proof.
  intros Hd. cbv zeta. unfold OnIncomingMessage. rewrite Hd. cbn [route].
  destruct (getGameByCode games code) as [[k game]|] eqn:Hc; [|reflexivity].
  unfold getGameByCode in Hc. apply list_find_Some in Hc as (Hk & Hcode & Hleast).
  split; [exact Hk|]. split; [exact Hcode|].
  split; [intros j g' Hlt Hj; exact (Hleast j g' Hj Hlt)|].
  rewrite (on_game_at _ _ _ _ Hk), OnPlayerJoin_log.
  cbn [fst snd]. unfold joined. split; [reflexivity|].
  set (player := mkPlayer id name con 0 0 false).
  set (game' := set_Players (Players game ++ [player]) game).
  assert (Hk' : <[k := game']> games !! k = Some game').
  { apply list_lookup_insert_eq. apply lookup_lt_Some in Hk. exact Hk. }
  split.
  - destruct (getGameByPlayer (<[k:=game']> games) con) eqn:Hg; [eauto|].
    exfalso. unfold getGameByPlayer in Hg.
    apply getGameByPlayer_from_None in Hg.
    pose proof (Forall_lookup_1 _ _ _ _ Hg Hk') as Hn. cbv beta in Hn.
    apply list_find_None in Hn. unfold game' in Hn. cbn [Players set_Players] in Hn.
    apply Forall_app in Hn as [_ Hn]. apply Forall_cons in Hn as [Hn _].
    apply Hn. reflexivity.
  - intros Hnone. apply (getGameByPlayer_joined games k game player Hk Hnone).
Qed.

(** X10.  A HostGame message with a quiz the repository has appends a
    fresh game in the lobby to the directory and answers the connection
    with the join code, then the state; with an identifier that is not
    hexadecimal or a quiz the repository does not have the message is
    dropped.  Nothing checks the connection or the code against the games
    there are: a later StartGame of the connection reaches the new game
    only if the connection hosted none before, and a Connect with the code
    reaches it only if no earlier game has the same code. *)
Theorem X10_host_game_appends
  (games : list Game) (con : Conn) (mt : Z) (msg : list byte)
  (id : UUID) (r : Z) (quizId : string) :
  decode json msg = Some (Ptr (HostGamePacket quizId)) ->
  let res := OnIncomingMessage WriteMessage json ObjectIDFromHex GetQuizById
               games con mt msg id r in
  match ObjectIDFromHex quizId ≫= GetQuizById with
  | None => res = (Returned tt, games, [])
  | Some quiz =>
      let game := newGame quiz con id r in
      res = (Returned tt, games ++ [game],
             [(con, HostGamePacket (Code game));
              (con, ChangeGameStatePacket LobbyState)])
      /\ getGameByHost res.1.2 con
         = match getGameByHost games con with
           | Some found => Some found
           | None => Some (length games, game)
           end
      /\ getGameByCode res.1.2 (Code game)
         = match getGameByCode games (Code game) with
           | Some found => Some found
           | None => Some (length games, game)
           end
  end.
Proof.
  intros Hd. cbv zeta. unfold OnIncomingMessage. rewrite Hd. cbn [route].
  destruct (ObjectIDFromHex quizId) as [oid|]; cbn [mbind option_bind];
    [|reflexivity].
  destruct (GetQuizById oid) as [quiz|]; [|reflexivity].
  unfold bind. rewrite !SendPacket_tagged by discriminate.
  cbn [fst snd ret app State newGame Code].
  split; [reflexivity|].
  set (game := newGame quiz con id r).
  assert (Hfind : forall (P : Game -> Prop) `{!forall x, Decision (P x)},
    P game ->
    list_find P (games ++ [game])
    = match list_find P games with
      | Some found => Some found
      | None => Some (length games, game)
      end).
  { intros P HP Hg. destruct (list_find P games) as [[i x]|] eqn:Hf.
    - apply list_find_app_l. exact Hf.
    - rewrite (list_find_app_r _ _ _ Hf). cbn.
      rewrite decide_True by exact Hg. reflexivity. }
  split.
  - apply (Hfind (fun g => Host g = con)). reflexivity.
  - apply (Hfind (fun g => Code g = generateCode r)). reflexivity.
Qed.

(** X11.  A StartGame message acts on the first game of the directory
    hosted by the connection, and on no other game; without such a game
    it is dropped.  A second game hosted by the same connection is never
    started. *)
Theorem X11_start_reaches_first_game_of_host
  (games : list Game) (con : Conn) (mt : Z) (msg : list byte)
  (id : UUID) (r : Z) :
  decode json msg = Some (Ptr StartGamePacket) ->
  let res := OnIncomingMessage WriteMessage json ObjectIDFromHex GetQuizById
               games con mt msg id r in
  match getGameByHost games con with
  | None => res = (Returned tt, games, [])
  | Some (k, game) =>
      games !! k = Some game /\ Host game = con
      /\ (forall j game', (j < k)%nat -> games !! j = Some game' ->
            Host game' <> con)
      /\ res = (outcome (StartOrSkip WriteMessage game),
                <[k := game_of (StartOrSkip WriteMessage game)]> games,
                sent (StartOrSkip WriteMessage game))
      /\ (forall j, j <> k -> res.1.2 !! j = games !! j)
  end.
Proof.
  intros Hd. cbv zeta. unfold OnIncomingMessage. rewrite Hd. cbn [route].
  destruct (getGameByHost games con) as [[k game]|] eqn:Hh; [|reflexivity].
  unfold getGameByHost in Hh. apply list_find_Some in Hh as (Hk & Hhost & Hleast).
  split; [exact Hk|]. split; [exact Hhost|].
  split; [intros j g' Hlt Hj; exact (Hleast j g' Hj Hlt)|].
  rewrite (on_game_at _ _ _ _ Hk). split; [reflexivity|].
  intros j Hne. cbn [fst snd]. apply list_lookup_insert_ne. congruence.
Qed.

(** X23.  A QuestionAnswer message is an answer of the first player with
    the connection, in the first game of the directory that has one; its
    field [question] is taken as the index of the choice.  No other game
    changes, and a connection that is no player's is ignored. *)
Theorem X23_answer_reaches_first_player_of_connection
  (games : list Game) (con : Conn) (mt : Z) (msg : list byte)
  (id : UUID) (r : Z) (question : Z) :
  decode json msg = Some (Ptr (QuestionAnswerPacket question)) ->
  let res := OnIncomingMessage WriteMessage json ObjectIDFromHex GetQuizById
               games con mt msg id r in
  match getGameByPlayer games con with
  | None => res = (Returned tt, games, [])
  | Some (k, i, p) =>
      exists game,
        games !! k = Some game /\ Players game !! i = Some p
        /\ Connection p = con
        /\ (forall j q, (j < i)%nat -> Players game !! j = Some q ->
              Connection q <> con)
        /\ (forall j game' q, (j < k)%nat -> games !! j = Some game' ->
              q ∈ Players game' -> Connection q <> con)
        /\ res = (outcome (OnPlayerAnswer WriteMessage question i game),
                  <[k := game_of (OnPlayerAnswer WriteMessage question i game)]>
                    games,
                  sent (OnPlayerAnswer WriteMessage question i game))
        /\ (forall j, j <> k -> res.1.2 !! j = games !! j)
  end.
Proof.
  intros Hd. cbv zeta. unfold OnIncomingMessage. rewrite Hd. cbn [route].
  destruct (getGameByPlayer games con) as [[[k i] p]|] eqn:Hg; [|reflexivity].
  unfold getGameByPlayer in Hg.
  apply getGameByPlayer_from_Some in Hg as (j & game & -> & Hk & Hf & Hnone).
  apply list_find_Some in Hf as (Hi & Hc & Hleast).
  exists game. cbn [Nat.add]. split; [exact Hk|]. split; [exact Hi|].
  split; [exact Hc|].
  split; [intros j' q Hlt Hq; exact (Hleast j' q Hq Hlt)|].
  split.
  { intros j' game' q Hlt Hj' Hq.
    specialize (Hnone j' game' Hlt Hj'). apply list_find_None in Hnone.
    rewrite Forall_forall in Hnone. apply Hnone, Hq. }
  rewrite (on_game_at _ _ _ _ Hk). split; [reflexivity|].
  intros j' Hne. cbn [fst snd]. apply list_lookup_insert_ne. congruence.
Qed.

End Routing.

Lemma same_identity_refl g : same_identity g g.
Proof. repeat split. Qed.

Lemma same_identity_trans g1 g2 g3 :
  same_identity g1 g2 -> same_identity g2 g3 -> same_identity g1 g3.
Proof. unfold same_identity. intuition congruence. Qed.

Lemma extends_refl games : extends games games.
Proof.
  split; [lia|]. intros k game Hk. exists game.
  split; [exact Hk|apply same_identity_refl].
Qed.

Lemma extends_trans games1 games2 games3 :
  extends games1 games2 -> extends games2 games3 -> extends games1 games3.
Proof.
  intros [Hl1 H1] [Hl2 H2]. split; [lia|]. intros k game Hk.
  destruct (H1 k game Hk) as (game2 & Hk2 & Hs2).
  destruct (H2 k game2 Hk2) as (game3 & Hk3 & Hs3).
  exists game3. split; [exact Hk3|]. eapply same_identity_trans; eassumption.
Qed.

Lemma extends_insert games k game game' :
  games !! k = Some game -> same_identity game game' ->
  extends games (<[k := game']> games).
Proof.
  intros Hk Hs. split; [rewrite length_insert; lia|]. intros j g Hj.
  destruct (decide (j = k)) as [->|Hne].
  - exists game'. rewrite list_lookup_insert_eq by (eapply lookup_lt_Some; eassumption).
    split; [reflexivity|]. congruence.
  - exists g. rewrite list_lookup_insert_ne by congruence.
    split; [exact Hj|apply same_identity_refl].
Qed.

Lemma extends_app games game : extends games (games ++ [game]).
Proof.
  split; [rewrite length_app; lia|]. intros k g Hk. exists g.
  split; [apply lookup_app_l_Some; exact Hk|apply same_identity_refl].
Qed.

Lemma NextQuestion_effect_identity g : same_identity g (NextQuestion_effect g).2.
Proof.
  unfold NextQuestion_effect. case_bool_decide; [repeat split|].
  destruct (index _ _); repeat split.
Qed.

Lemma filter_all_id {A} (P : A -> Prop) `{!forall x, Decision (P x)}
  (l : list A) :
  Forall P l -> filter P l = l.
Proof.
  induction 1 as [|x l Hx Hl IH]; [reflexivity|].
  rewrite filter_cons, decide_True by exact Hx. rewrite IH. reflexivity.
Qed.

(** In a roster without two players of the same identifier, the filter of
    [OnPlayerDisconnect] deletes the player and nobody else. *)
Lemma filter_id_delete (ps : list Player) i p :
  NoDup (Player_Id <$> ps) -> ps !! i = Some p ->
  filter (fun q => Player_Id q <> Player_Id p) ps = delete i ps.
Proof.
  revert i. induction ps as [|p0 ps IH]; intros i Hnd Hi; [discriminate|].
  rewrite fmap_cons in Hnd. apply NoDup_cons in Hnd as [Hnotin Hnd].
  rewrite filter_cons. destruct i as [|i]; cbn in Hi.
  - injection Hi as ->.
    rewrite decide_False by (intros Hc; apply Hc; reflexivity).
    cbn [delete list_delete]. apply filter_all_id.
    apply Forall_forall. intros q Hq Heq. apply Hnotin.
    rewrite <- Heq. apply list_elem_of_fmap. exists q. split; [reflexivity|exact Hq].
  - rewrite decide_True.
    + cbn [delete list_delete]. f_equal. apply IH; assumption.
    + intros Heq. apply Hnotin. rewrite Heq. apply list_elem_of_fmap.
      exists p. split; [reflexivity|]. eapply list_elem_of_lookup_2. exact Hi.
Qed.

Section DirectoryInvariant.

Variable WriteMessage : Conn -> Packet -> bool.
Variable next : Z -> Z.
Variable json : Json.
Variable ObjectIDFromHex : string -> option ObjectID.
Variable GetQuizById : ObjectID -> option Quiz.

Lemma exec_effect_identity op g : same_identity g (exec_effect next op g).2.
Proof.
  destruct op as [| |choice player|name connection id|player];
    cbn [exec_effect].
  - unfold StartOrSkip_effect. case_bool_decide.
    + apply (same_identity_trans _ (set_State PlayState g));
        [repeat split|apply NextQuestion_effect_identity].
    + apply NextQuestion_effect_identity.
  - case_bool_decide; [repeat split|]. destruct (Ended g); [repeat split|].
    unfold Tick_effect. cbv zeta. case_bool_decide; [|repeat split].
    cbn [State set_Time]. destruct (State g); try (solve [repeat split]).
    apply (same_identity_trans _ (set_Time (wrap (Time g - 1)) g));
      [repeat split|apply NextQuestion_effect_identity].
  - unfold OnPlayerAnswer_effect. destruct (index _ _); [|repeat split].
    case_bool_decide; repeat split.
  - repeat split.
  - destruct (Players g !! player); repeat split.
Qed.

Lemma exec_identity op g :
  same_identity g (exec WriteMessage next op g).1.2.
Proof.
  pose proof (game_of_exec WriteMessage next op g) as He.
  unfold game_of in He. rewrite He. apply exec_effect_identity.
Qed.

(** A handler that runs a method on one game. *)
Lemma on_game_extends games k (m : M unit) :
  (forall game, same_identity game (m game).1.2) ->
  extends games (on_game games k m).1.2
  /\ length (on_game games k m).1.2 = length games
  /\ forall j, j <> k -> (on_game games k m).1.2 !! j = games !! j.
Proof.
  intros Hm. unfold on_game. destruct (games !! k) as [game|] eqn:Hk.
  - specialize (Hm game). destruct (m game) as [[r g'] out]. cbn [fst snd] in *.
    split; [eapply extends_insert; eassumption|].
    split; [apply length_insert|].
    intros j Hne. apply list_lookup_insert_ne. congruence.
  - cbn [dropped fst snd]. split; [apply extends_refl|]. split; reflexivity.
Qed.

Lemma route_extends games con id r packet :
  let games' := (route WriteMessage ObjectIDFromHex GetQuizById games con id r
                       packet).1.2 in
  extends games games'
  /\ (length games' <= length games + 1)%nat
  /\ exists k0, forall k, k <> k0 -> (k < length games)%nat ->
       games' !! k = games !! k.
Proof.
  cbv zeta.
  assert (Hdrop : extends games (dropped games).1.2
    /\ (length (dropped games).1.2 <= length games + 1)%nat
    /\ exists k0, forall k, k <> k0 -> (k < length games)%nat ->
         (dropped games).1.2 !! k = games !! k).
  { cbn [dropped fst snd]. split; [apply extends_refl|]. split; [lia|].
    exists 0%nat. reflexivity. }
  assert (Hon : forall k (m : M unit),
    (forall game, same_identity game (m game).1.2) ->
    extends games (on_game games k m).1.2
    /\ (length (on_game games k m).1.2 <= length games + 1)%nat
    /\ exists k0, forall j, j <> k0 -> (j < length games)%nat ->
         (on_game games k m).1.2 !! j = games !! j).
  { intros k m Hm. destruct (on_game_extends games k m Hm) as (He & Hl & Hj).
    split; [exact He|]. split; [lia|]. exists k. intros j Hne _. apply Hj, Hne. }
  destruct packet as [p|p]; [exact Hdrop|].
  destruct p; cbn [route]; try exact Hdrop.
  - destruct (getGameByCode games code) as [[k game]|]; [|exact Hdrop].
    apply Hon. intros g.
    apply (exec_identity (OpJoin name con id)).
  - destruct (ObjectIDFromHex quizId) as [oid|]; [|exact Hdrop].
    destruct (GetQuizById oid) as [quiz|]; [|exact Hdrop].
    unfold bind. rewrite !SendPacket_tagged by discriminate.
    cbn [fst snd ret]. split; [apply extends_app|].
    split; [rewrite length_app; cbn; lia|].
    exists (length games). intros k _ Hk. apply lookup_app_l. exact Hk.
  - destruct (getGameByHost games con) as [[k game]|]; [|exact Hdrop].
    apply Hon. intros g. apply (exec_identity OpStartOrSkip).
  - destruct (getGameByPlayer games con) as [[[k i] p]|]; [|exact Hdrop].
    apply Hon. intros g. apply (exec_identity (OpAnswer question i)).
Qed.

Lemma OnIncomingMessage_extends games con mt msg id r :
  extends games
    (OnIncomingMessage WriteMessage json ObjectIDFromHex GetQuizById
                       games con mt msg id r).1.2.
Proof.
  unfold OnIncomingMessage. destruct (decode json msg) as [packet|].
  - apply route_extends.
  - apply extends_refl.
Qed.

Lemma OnDisconnect_extends games con :
  extends games (OnDisconnect WriteMessage games con).1.2.
Proof.
  unfold OnDisconnect.
  destruct (getGameByPlayer games con) as [[[k i] p]|]; [|apply extends_refl].
  apply on_game_extends. intros g. rewrite OnPlayerDisconnect_log.
  repeat split.
Qed.

(** X12.  The directory of games only grows, and a game in it is never
    replaced by another: whatever the message, every game stays at its
    place with its identifier, code, host and quiz, the games that have ended
    included; at most one game is added, and at most one of the games
    there were is changed.  A disconnect adds none. *)
Theorem X12_directory_only_grows
  (games : list Game) (con : Conn) (mt : Z) (msg : list byte)
  (id : UUID) (r : Z) :
  let games' := (OnIncomingMessage WriteMessage json ObjectIDFromHex
                   GetQuizById games con mt msg id r).1.2 in
  let games'' := (OnDisconnect WriteMessage games con).1.2 in
  ((length games <= length games' <= length games + 1)%nat
   /\ (forall k game, games !! k = Some game ->
         exists game', games' !! k = Some game' /\ same_identity game game')
   /\ exists k0, forall k, k <> k0 -> (k < length games)%nat ->
        games' !! k = games !! k)
  /\ (length games'' = length games
      /\ (forall k game, games !! k = Some game ->
            exists game', games'' !! k = Some game' /\ same_identity game game')
      /\ exists k0, forall k, k <> k0 -> games'' !! k = games !! k).
Proof.
  cbv zeta. split.
  - unfold OnIncomingMessage. destruct (decode json msg) as [packet|].
    + destruct (route_extends games con id r packet) as ([Hl He] & Hl' & Hk).
      split; [lia|]. split; [exact He|exact Hk].
    + cbn [dropped fst snd]. split; [lia|]. split.
      * intros k game Hk. exists game. split; [exact Hk|apply same_identity_refl].
      * exists 0%nat. reflexivity.
  - unfold OnDisconnect.
    destruct (getGameByPlayer games con) as [[[k i] p]|].
    + destruct (on_game_extends games k (OnPlayerDisconnect WriteMessage p))
        as ([_ He] & Hl & Hj).
      { intros g. rewrite OnPlayerDisconnect_log. repeat split. }
      split; [exact Hl|]. split; [exact He|]. exists k. exact Hj.
    + cbn [dropped fst snd]. split; [reflexivity|]. split.
      * intros k game Hk. exists game. split; [exact Hk|apply same_identity_refl].
      * exists 0%nat. reflexivity.
Qed.

(** X13.  A disconnect of a connection that is no player's is ignored: no
    game changes and nobody is told, the host's own disconnect included.
    Otherwise the first game with a player on the connection loses that
    player, found first in its roster, together with every player of the
    same identifier, the others keeping their order, and the host of that
    game is told; when the identifiers of the roster are distinct exactly
    that player is deleted.  Other players on the same connection stay. *)
Theorem X13_disconnect (games : list Game) (con : Conn) :
  let res := OnDisconnect WriteMessage games con in
  match getGameByPlayer games con with
  | None => res = (Returned tt, games, [])
  | Some (k, i, p) =>
      exists game,
        games !! k = Some game /\ Players game !! i = Some p
        /\ Connection p = con
        /\ (forall j q, (j < i)%nat -> Players game !! j = Some q ->
              Connection q <> con)
        /\ res = (Returned tt,
                  <[k := set_Players
                           (filter (fun q => Player_Id q <> Player_Id p)
                                   (Players game)) game]> games,
                  [(Host game, PlayerDisconnectPacket (Player_Id p))])
        /\ (NoDup (Player_Id <$> Players game) ->
            filter (fun q => Player_Id q <> Player_Id p) (Players game)
            = delete i (Players game))
  end.
Proof.
  cbv zeta. unfold OnDisconnect.
  destruct (getGameByPlayer games con) as [[[k i] p]|] eqn:Hg; [|reflexivity].
  unfold getGameByPlayer in Hg.
  apply getGameByPlayer_from_Some in Hg as (j & game & -> & Hk & Hf & _).
  apply list_find_Some in Hf as (Hi & Hc & Hleast).
  exists game. cbn [Nat.add]. split; [exact Hk|]. split; [exact Hi|].
  split; [exact Hc|].
  split; [intros j' q Hlt Hq; exact (Hleast j' q Hq Hlt)|].
  rewrite (on_game_at _ _ _ _ Hk), OnPlayerDisconnect_log.
  split; [reflexivity|]. intros Hnd. apply filter_id_delete; assumption.
Qed.

End DirectoryInvariant.

(** ** The session of a connection *)

Section Sessions.

Variable WriteMessage : Conn -> Packet -> bool.
Variable next : Z -> Z.
Variable json : Json.
Variable ObjectIDFromHex : string -> option ObjectID.
Variable GetQuizById : ObjectID -> option Quiz.

Lemma OnIncomingMessage_length games con mt msg id r :
  (length (OnIncomingMessage WriteMessage json ObjectIDFromHex GetQuizById
                             games con mt msg id r).1.2
   <= length games + 1)%nat.
Proof.
  unfold OnIncomingMessage. destruct (decode json msg) as [packet|].
  - apply (route_extends WriteMessage next).
  - cbn [dropped fst snd]. lia.
Qed.

Lemma OnDisconnect_length games con :
  length (OnDisconnect WriteMessage games con).1.2 = length games.
Proof.
  unfold OnDisconnect.
  destruct (getGameByPlayer games con) as [[[k i] p]|]; [|reflexivity].
  apply on_game_extends. intros g. rewrite OnPlayerDisconnect_log.
  repeat split.
Qed.

Lemma Ws_extends games con reads :
  let games' := (Ws WriteMessage json ObjectIDFromHex GetQuizById
                    games con reads).1.2 in
  extends games games'
  /\ (length games' <= length games + length reads)%nat.
Proof.
  cbv zeta. revert games. induction reads as [|rd reads IH]; intros games;
    cbn [Ws length].
  - split; [apply OnDisconnect_extends|]. rewrite OnDisconnect_length. lia.
  - pose proof (OnIncomingMessage_extends WriteMessage next json
                  ObjectIDFromHex GetQuizById games con (Read_mt rd)
                  (Read_msg rd) (Read_id rd) (Read_r rd)) as He.
    pose proof (OnIncomingMessage_length games con (Read_mt rd)
                  (Read_msg rd) (Read_id rd) (Read_r rd)) as Hl.
    destruct (OnIncomingMessage WriteMessage json ObjectIDFromHex GetQuizById
                games con (Read_mt rd) (Read_msg rd) (Read_id rd) (Read_r rd))
      as [[[[]|] games1] out1]; cbn [fst snd] in *.
    + destruct (IH games1) as [He' Hl'].
      destruct (Ws WriteMessage json ObjectIDFromHex GetQuizById games1 con
                   reads) as [[res games2] out2].
      cbn [fst snd] in *. split; [eapply extends_trans; eassumption|lia].
    + split; [exact He|lia].
Qed.

(** X14.  A whole session of a connection, whatever it sends and whether
    it ends in a disconnect or in a panic, leaves every game of the
    directory at its place with its identifier, code, host and quiz, and
    adds at most one game for each message: no session removes a game, the
    games of the connection itself included. *)
Theorem X14_session_keeps_directory
  (games : list Game) (con : Conn) (reads : list Read) :
  let games' := (Ws WriteMessage json ObjectIDFromHex GetQuizById
                    games con reads).1.2 in
  (length games <= length games' <= length games + length reads)%nat
  /\ forall k game, games !! k = Some game ->
       exists game', games' !! k = Some game' /\ same_identity game game'.
Proof.
  cbv zeta. destruct (Ws_extends games con reads) as [[Hl He] Hl'].
  split; [lia|exact He].
Qed.

(** X15.  A panic in a handler ends the session without the disconnect
    being handled.  A player who answers while the game has no current
    question (in the lobby, or after the last question) makes
    [OnPlayerAnswer] panic: the session stops there, the messages that
    follow are not handled, no packet is sent, and the player stays in the
    roster though the connection is gone. *)
Theorem X15_panic_skips_disconnect
  (games : list Game) (con : Conn) (rd : Read) (reads : list Read)
  (question : Z) (k i : nat) (p : Player) (game : Game) :
  decode json (Read_msg rd) = Some (Ptr (QuestionAnswerPacket question)) ->
  getGameByPlayer games con = Some (k, i, p) ->
  games !! k = Some game ->
  index (Questions (Game_Quiz game)) (CurrentQuestion game) = None ->
  Ws WriteMessage json ObjectIDFromHex GetQuizById games con (rd :: reads)
  = (Panicked, games, []).
Proof.
  intros Hd Hg Hk Hi. cbn [Ws]. unfold OnIncomingMessage. rewrite Hd.
  cbn [route]. rewrite Hg, (on_game_at _ _ _ _ Hk).
  destruct (OnPlayerAnswer_run WriteMessage question i game)
    as (out & -> & _ & Hout).
  rewrite (Hout Hi). unfold OnPlayerAnswer_effect. rewrite Hi.
  cbn [fst snd]. rewrite list_insert_id by exact Hk. reflexivity.
Qed.

(** X16.  A session whose messages are all dropped at decoding (too short,
    a tag the server does not read, a payload that does not parse) is
    handled as the disconnect alone. *)
Theorem X16_undecodable_session
  (games : list Game) (con : Conn) (reads : list Read) :
  Forall (fun rd => decode json (Read_msg rd) = None) reads ->
  Ws WriteMessage json ObjectIDFromHex GetQuizById games con reads
  = OnDisconnect WriteMessage games con.
Proof.
  induction 1 as [|rd reads Hrd _ IH]; [reflexivity|].
  cbn [Ws]. unfold OnIncomingMessage. rewrite Hrd. cbn [dropped].
  rewrite IH.
  destruct (OnDisconnect WriteMessage games con) as [[res games2] out2].
  reflexivity.
Qed.

End Sessions.

(** ** The leaderboard shows the best *)

(** X17.  The leaderboard shows the best of the roster: [getLeaderboard]
    leaves the roster as the players shown (the first 3, or all of them if
    fewer) followed by the others, the same players as before, and no player
    left out has more points than a player shown. *)
Theorem X17_leaderboard_shows_the_best (next : Z -> Z) (g : Game) :
  let res := getLeaderboard next g in
  exists shown rest,
    Players (game_of res) = shown ++ rest
    /\ outcome res = Returned (entry <$> shown)
    /\ length shown = Nat.min 3 (length (Players g))
    /\ Permutation (shown ++ rest) (Players g)
    /\ forall p q, p ∈ shown -> q ∈ rest -> Points q <= Points p.
Proof.
  cbv zeta. destruct (getLeaderboard_run next g) as (board & Hrun & Hperm).
  pose proof (Slice_descending next (Players g)) as Hdesc.
  assert (Hb : board
               = entry <$> take 3 (sort.Slice byPoints next (Players g))).
  { unfold getLeaderboard, bind, modify, get, ret in Hrun.
    cbn [fst snd app Players set_Players] in Hrun.
    rewrite take_top in Hrun. congruence. }
  rewrite Hrun. unfold game_of, outcome. cbn [fst snd Players set_Players].
  revert Hperm Hdesc Hb.
  generalize (sort.Slice byPoints next (Players g)). intros sorted Hperm Hdesc ->.
  exists (take 3 sorted), (drop 3 sorted).
  rewrite take_drop. split; [reflexivity|]. split; [reflexivity|].
  split; [rewrite length_take, (Permutation_length Hperm); reflexivity|].
  split; [exact Hperm|].
  intros p q Hp Hq. unfold descending in Hdesc.
  rewrite <- (take_drop 3 sorted) in Hdesc.
  apply (StronglySorted_app_1_elem_of _ _ _ _ _ Hdesc Hp Hq).
Qed.

(** ** Join codes *)

(** The decimal numeral of a number of [n + 1] digits has [n + 1]
    characters. *)
Lemma pretty_N_go_length (n : nat) (x : N) (s : string) :
  (10 ^ N.of_nat n <= x < 10 ^ N.of_nat (S n))%N ->
  String.length (pretty_N_go x s) = (S n + String.length s)%nat.
Proof.
  revert x s. induction n as [|n IH]; intros x s Hx.
  - change (10 ^ N.of_nat 0)%N with 1%N in Hx.
    change (10 ^ N.of_nat 1)%N with 10%N in Hx.
    rewrite pretty_N_go_step by lia.
    rewrite N.div_small by lia. rewrite pretty_N_go_0. reflexivity.
  - rewrite pretty_N_go_step.
    2:{ pose proof (N.pow_nonzero 10 (N.of_nat (S n)) ltac:(lia)). lia. }
    rewrite IH; [cbn [String.length]; lia|].
    rewrite !Nat2N.inj_succ, !N.pow_succ_r' in *.
    split.
    + apply N.div_le_lower_bound; lia.
    + apply N.Div0.div_lt_upper_bound; lia.
Qed.

(** X18.  Every join code is a decimal numeral of 6 characters, and two
    draws give the same code only when they are equal: for the draws
    [rand.Intn(900000)] can return, [generateCode] is the numeral of a
    number between 100000 and 999999. *)
Theorem X18_generateCode_six_digits (r r' : Z) :
  0 <= r < 900000 ->
  String.length (generateCode r) = 6%nat
  /\ (generateCode r = generateCode r' -> r = r').
Proof.
  intros Hr. split.
  - unfold generateCode. destruct (100000 + r) as [|x|x] eqn:Hx; try lia.
    unfold pretty, pretty_Z, pretty, pretty_positive, pretty, pretty_N.
    rewrite decide_False by discriminate.
    rewrite (pretty_N_go_length 5); [reflexivity|].
    change (10 ^ N.of_nat 5)%N with 100000%N.
    change (10 ^ N.of_nat 6)%N with 1000000%N. lia.
  - unfold generateCode. intros Hc. apply pretty_Z_inj in Hc. lia.
Qed.

(** ** Starting and skipping *)

Section Starting.

Variable WriteMessage : Conn -> Packet -> bool.

Lemma NextQuestion_log g :
  NextQuestion WriteMessage g
  = let g1 := advanced g in
    if bool_decide (len (Questions (Game_Quiz g)) <= CurrentQuestion g1)
    then (Returned tt, ended g1, notice_log WriteMessage g EndState)
    else
      match index (Questions (Game_Quiz g)) (CurrentQuestion g1) with
      | Some q =>
          (Returned tt, set_Time (Question_Time q) (asking g1),
           notice_log WriteMessage g PlayState ++ [(Host g, QuestionShowPacket q)])
      | None => (Panicked, asking g1, notice_log WriteMessage g PlayState)
      end.
Proof.
  unfold NextQuestion, bind, modify, get. cbn [fst snd]. cbv zeta.
  fold (advanced g). change (Game_Quiz (advanced g)) with (Game_Quiz g).
  case_bool_decide as Hlen.
  - unfold End_, bind, modify. cbn [fst snd]. rewrite ChangeState_log.
    cbn [app]. unfold notice_log, recipients.
    cbn [Players Host set_Ended advanced set_CurrentQuestion].
    reflexivity.
  - unfold ResetPlayerAnswerStates, modify. cbn [fst snd].
    rewrite ChangeState_log. cbn [fst snd].
    unfold getCurrentQuestion, bind, get. cbn [fst snd].
    assert (Hrec : recipients
              (set_Players (set_Answered false <$> Players (advanced g))
                           (advanced g)) true
            = recipients g true).
    { unfold recipients.
      cbn [Players Host set_Players advanced set_CurrentQuestion].
      rewrite <- list_fmap_compose. reflexivity. }
    rewrite Hrec. fold (notice_log WriteMessage g PlayState).
    change (set_State PlayState
              (set_Players (set_Answered false <$> Players (advanced g))
                           (advanced g))) with (asking (advanced g)).
    change (Game_Quiz (asking (advanced g))) with (Game_Quiz g).
    change (CurrentQuestion (asking (advanced g)))
      with (CurrentQuestion (advanced g)).
    destruct (index (Questions (Game_Quiz g)) (CurrentQuestion (advanced g)))
      as [q|]; cbn [ret panic fst snd].
    + rewrite SendPacket_tagged by discriminate.
      cbn [fst snd app Host advanced set_CurrentQuestion].
      rewrite ?app_nil_r. reflexivity.
    + rewrite ?app_nil_r. reflexivity.
Qed.

(** X19.  A [StartGame] of the host moves to the next question: the index
    goes up by one; with a question there the state is Play, the countdown
    the time of the question and every answered flag cleared, the players
    and the host are told the state and the host is sent the question; past
    the last question (at once when the quiz has no question) the game
    ends and everybody is told.  From the lobby the Play state is told
    twice, by [Start] and by [NextQuestion].  The question is sent to the
    host even when a write of the notice failed. *)
Theorem X19_StartOrSkip (g : Game) :
  -1 <= CurrentQuestion g < max_int ->
  let res := StartOrSkip WriteMessage g in
  outcome res = Returned tt
  /\ CurrentQuestion (game_of res) = CurrentQuestion g + 1
  /\ match index (Questions (Game_Quiz g)) (CurrentQuestion g + 1) with
     | Some q =>
         State (game_of res) = PlayState
         /\ Time (game_of res) = Question_Time q
         /\ Ended (game_of res) = Ended g
         /\ Players (game_of res) = set_Answered false <$> Players g
         /\ sent res
            = (if bool_decide (State g = LobbyState)
               then notice_log WriteMessage g PlayState else [])
              ++ notice_log WriteMessage g PlayState ++ [(Host g, QuestionShowPacket q)]
     | None =>
         State (game_of res) = EndState /\ Ended (game_of res) = true
         /\ Players (game_of res) = Players g
         /\ sent res
            = (if bool_decide (State g = LobbyState)
               then notice_log WriteMessage g PlayState else [])
              ++ notice_log WriteMessage g EndState
     end.
Proof.
  intros Hi. cbv zeta. unfold StartOrSkip, Start, bind, get. cbn [fst snd].
  pose proof (len_nonneg (Questions (Game_Quiz g))) as Hlen.
  assert (Hnext : forall g0 : Game,
    Game_Quiz g0 = Game_Quiz g -> CurrentQuestion g0 = CurrentQuestion g ->
    Players g0 = Players g -> Host g0 = Host g -> Ended g0 = Ended g ->
    let res := NextQuestion WriteMessage g0 in
    outcome res = Returned tt
    /\ CurrentQuestion (game_of res) = CurrentQuestion g + 1
    /\ match index (Questions (Game_Quiz g)) (CurrentQuestion g + 1) with
       | Some q =>
           State (game_of res) = PlayState
           /\ Time (game_of res) = Question_Time q
           /\ Ended (game_of res) = Ended g
           /\ Players (game_of res) = set_Answered false <$> Players g
           /\ sent res = notice_log WriteMessage g PlayState ++ [(Host g, QuestionShowPacket q)]
       | None =>
           State (game_of res) = EndState /\ Ended (game_of res) = true
           /\ Players (game_of res) = Players g
           /\ sent res = notice_log WriteMessage g EndState
       end).
  { intros g0 Hq Hc Hp Hh He. cbv zeta. rewrite NextQuestion_log. cbv zeta.
    assert (Hn : forall s, notice_log WriteMessage g0 s = notice_log WriteMessage g s).
    { intros s. unfold notice_log, recipients. rewrite Hp, Hh. reflexivity. }
    unfold advanced. cbn [CurrentQuestion set_CurrentQuestion].
    rewrite Hq, Hc, !Hn, Hh, wrap_succ by exact Hi.
    case_bool_decide as Hend.
    - unfold outcome, game_of, sent.
      cbn [fst snd ended CurrentQuestion State Ended Players set_State
           set_Ended set_CurrentQuestion].
      rewrite Hp.
      destruct (index (Questions (Game_Quiz g)) (CurrentQuestion g + 1))
        as [q|] eqn:Hidx; [|repeat split].
      apply index_Some_range in Hidx. lia.
    - destruct (index (Questions (Game_Quiz g)) (CurrentQuestion g + 1))
        as [q|] eqn:Hidx.
      + unfold outcome, game_of, sent.
        cbn [fst snd asking CurrentQuestion State Ended Time Players
             set_State set_Time set_Players set_CurrentQuestion].
        rewrite Hp, He. repeat split.
      + exfalso. apply index_None_range in Hidx. lia. }
  case_bool_decide as Hs.
  - rewrite ChangeState_log.
    fold (notice_log WriteMessage g PlayState).
    destruct (Hnext (set_State PlayState g) eq_refl eq_refl eq_refl eq_refl
                eq_refl) as (Ho & Hc & Hm).
    destruct (NextQuestion WriteMessage (set_State PlayState g))
      as [[r g'] out].
    unfold outcome, game_of, sent in *. cbn [fst snd] in *.
    split; [exact Ho|]. split; [exact Hc|].
    destruct (index (Questions (Game_Quiz g)) (CurrentQuestion g + 1)).
    + destruct Hm as (? & ? & ? & ? & ->). repeat split; assumption.
    + destruct Hm as (? & ? & ? & ->). repeat split; assumption.
  - destruct (Hnext g eq_refl eq_refl eq_refl eq_refl eq_refl)
      as (Ho & Hc & Hm).
    destruct (NextQuestion WriteMessage g) as [[r g'] out].
    unfold outcome, game_of, sent in *. cbn [fst snd] in *.
    split; [exact Ho|]. split; [exact Hc|].
    destruct (index (Questions (Game_Quiz g)) (CurrentQuestion g + 1)).
    + destruct Hm as (? & ? & ? & ? & ->). repeat split; assumption.
    + destruct Hm as (? & ? & ? & ->). repeat split; assumption.
Qed.

End Starting.

(** ** Quiz requests over HTTP *)

Section QuizRequests.

Variable E : Type.
Variable FindOne : ObjectID -> E + Quiz.
Variable Find : E + list Quiz.
Variable UpdateOne : ObjectID -> Quiz -> option E.
Variable ObjectIDFromHex : string -> option ObjectID.
Variable BodyParser : list byte -> E + string * list QuizQuestion.

(** X20.  The repository never returns a nil quiz with a nil error, so the
    branches that test for it are dead: [GET /api/quizzes/:quizId] answers
    400 exactly when the identifier is not hexadecimal, otherwise the quiz
    the driver decoded or the error of the driver, a missing quiz included;
    it never answers 404. *)
Theorem X20_GetQuizById_never_404 (quizIdStr : string) :
  let response :=
    QuizController.GetQuizById E FindOne ObjectIDFromHex quizIdStr in
  response <> SendStatus 404
  /\ (response = SendStatus 400 <-> ObjectIDFromHex quizIdStr = None)
  /\ (forall quizId, ObjectIDFromHex quizIdStr = Some quizId ->
        response = match FindOne quizId with
                   | inl err => Failed (Returned_error err)
                   | inr quiz => JSON_quiz quiz
                   end)
  /\ (forall id, QuizService.GetQuizById E FindOne id <> (None, None)).
Proof.
  cbv zeta. unfold QuizController.GetQuizById, QuizService.GetQuizById,
    QuizCollection.GetQuizById.
  split; [|split; [|split]].
  - destruct (ObjectIDFromHex quizIdStr) as [quizId|]; [|discriminate].
    destruct (FindOne quizId); discriminate.
  - destruct (ObjectIDFromHex quizIdStr) as [quizId|]; [|split; reflexivity].
    destruct (FindOne quizId); split; discriminate.
  - intros quizId ->. destruct (FindOne quizId); reflexivity.
  - intros id. destruct (FindOne id); discriminate.
Qed.

(** X21.  [PUT /api/quizzes/:quizId] checks the identifier before it reads
    the body: it answers 400 exactly when the identifier is not
    hexadecimal.  It answers 200 exactly when the body parses, the driver
    decodes the stored quiz and the update returns no error; the document
    written then has the identifier of the stored quiz and the name and
    questions of the body, whatever they are (no question or choice is
    checked).  The error [quiz not found] is never returned. *)
Theorem X21_UpdateQuizById (quizIdStr : string) (body : list byte) :
  let response :=
    QuizController.UpdateQuizById E FindOne UpdateOne ObjectIDFromHex
                                  BodyParser quizIdStr body in
  (response = SendStatus 400 <-> ObjectIDFromHex quizIdStr = None)
  /\ (response = SendStatus 200 <->
      exists quizId name questions quiz,
        ObjectIDFromHex quizIdStr = Some quizId
        /\ BodyParser body = inr (name, questions)
        /\ FindOne quizId = inr quiz
        /\ UpdateOne (Quiz_Id quiz) (mkQuiz (Quiz_Id quiz) name questions)
           = None)
  /\ (forall text, response <> Failed (errors_New text))
  /\ (forall id name questions,
        QuizService.UpdateQuiz E FindOne UpdateOne id name questions
        <> Some (errors_New "quiz not found")).
Proof.
  cbv zeta. unfold QuizController.UpdateQuizById, QuizService.UpdateQuiz,
    QuizCollection.GetQuizById, QuizCollection.UpdateQuiz.
  split; [|split; [|split]].
  - destruct (ObjectIDFromHex quizIdStr) as [quizId|]; [|split; reflexivity].
    destruct (BodyParser body) as [err|[name questions]];
      [split; discriminate|].
    destruct (FindOne quizId) as [err|quiz]; [split; discriminate|].
    cbn [Quiz_Id]. destruct (UpdateOne _ _); split; discriminate.
  - destruct (ObjectIDFromHex quizIdStr) as [quizId|].
    2:{ split; [discriminate|]. intros (? & ? & ? & ? & ? & _). discriminate. }
    destruct (BodyParser body) as [err|[name questions]].
    { split; [discriminate|]. intros (? & ? & ? & ? & _ & ? & _). discriminate. }
    destruct (FindOne quizId) as [err|quiz] eqn:Hf.
    { split; [discriminate|].
      intros (? & ? & ? & ? & [= <-] & _ & ? & _). congruence. }
    cbn [Quiz_Id].
    destruct (UpdateOne (Quiz_Id quiz) (mkQuiz (Quiz_Id quiz) name questions))
      as [err|] eqn:Hu; cbn [fmap option_fmap option_map].
    + split; [discriminate|].
      intros (? & ? & ? & ? & [= <-] & [= <- <-] & Hf' & Hu').
      rewrite Hf in Hf'. injection Hf' as <-. congruence.
    + split; [|reflexivity]. intros _.
      exists quizId, name, questions, quiz. repeat split; assumption.
  - intros text. destruct (ObjectIDFromHex quizIdStr) as [quizId|];
      [|discriminate].
    destruct (BodyParser body) as [err|[name questions]]; [discriminate|].
    destruct (FindOne quizId) as [err|quiz]; [discriminate|].
    cbn [Quiz_Id]. destruct (UpdateOne _ _); discriminate.
  - intros id name questions. destruct (FindOne id) as [err|quiz];
      [discriminate|].
    cbn [Quiz_Id]. destruct (UpdateOne _ _); discriminate.
Qed.

End QuizRequests.

(** ** Totals and countdown of a well-timed quiz *)

Lemma consistent_index g : consistent g -> -1 <= CurrentQuestion g.
Proof.
  pose proof (len_nonneg (Questions (Game_Quiz g))).
  intros [(_ & -> & _)|[(_ & _ & _ & ?)|(_ & _ & ?)]]; lia.
Qed.

Lemma consistent_running g :
  consistent g -> State g <> LobbyState -> Ended g = false -> on_question g.
Proof.
  intros [(? & _)|[?|(? & _)]] Hs He; [contradiction|assumption|congruence].
Qed.

Lemma consistent_asked g q :
  consistent g ->
  index (Questions (Game_Quiz g)) (CurrentQuestion g) = Some q ->
  on_question g.
Proof.
  intros Hc Hq. apply index_Some_range in Hq.
  destruct Hc as [(_ & ? & _)|[?|(_ & _ & ?)]]; [lia|assumption|lia].
Qed.

Lemma index_elem_of {A} (s : list A) i x : index s i = Some x -> x ∈ s.
Proof.
  unfold index. case_bool_decide; [|discriminate].
  apply list_elem_of_lookup_2.
Qed.

Lemma player_ok_weaken b b' p : b <= b' -> player_ok b p -> player_ok b' p.
Proof. unfold player_ok. lia. Qed.

Section Scores.

Variable next : Z -> Z.
Variable B : Z.
Hypothesis HB : 60 <= B <= 2 ^ 32.

(** The reward of a correct answer while the countdown is sensible. *)
Lemma getPointsReward_range g :
  1 <= Time g <= B -> 1016 <= getPointsReward g <= 5000 + 16 * B.
Proof.
  intros Ht. unfold getPointsReward. cbv zeta.
  change (1000 / 60) with 16.
  pose proof (len_nonneg (getAnsweredPlayers g)) as Ha.
  rewrite (wrap_small (Time g * 16))
    by (unfold in_range, min_int, max_int; lia).
  rewrite wrap_small by (unfold in_range, min_int, max_int; lia).
  lia.
Qed.

Lemma NextQuestion_effect_sound g bound :
  well_timed B (Game_Quiz g) ->
  -1 <= CurrentQuestion g < max_int ->
  Forall (player_ok bound) (Players g) ->
  let g' := (NextQuestion_effect g).2 in
  (State g' <> EndState -> 1 <= Time g' <= B)
  /\ Forall (player_ok bound) (Players g').
Proof.
  intros Hw Hi Hp. cbv zeta.
  destruct (NextQuestion_effect_cases g Hi) as [_ Hm].
  destruct (index (Questions (Game_Quiz g)) (CurrentQuestion g + 1))
    as [q|] eqn:Hq.
  - destruct Hm as (_ & -> & _ & ->). split.
    + intros _. apply index_elem_of in Hq.
      unfold well_timed in Hw. rewrite Forall_forall in Hw. apply Hw, Hq.
    + apply Forall_fmap. eapply Forall_impl; [exact Hp|]. intros p Hok. exact Hok.
  - destruct Hm as (-> & _ & ->). split; [congruence|exact Hp].
Qed.

Lemma revealed_sound g bound :
  Forall (player_ok bound) (Players g) ->
  1 <= Time (revealed g) <= B
  /\ Forall (player_ok bound) (Players (revealed g)).
Proof.
  intros Hp. unfold revealed.
  cbn [Time Players set_State set_Players set_Time]. split; [lia|].
  apply Forall_fmap. eapply Forall_impl; [exact Hp|].
  intros p [Hpts Hlast]. unfold compose, player_ok.
  destruct (Reveal_player_points p) as (-> & -> & _).
  unfold reveal_points. destruct (Answered p); lia.
Qed.

Lemma answered_by_sound correct i g b :
  1 <= Time g <= B -> b + (5000 + 16 * B) <= max_int -> 0 <= b ->
  Forall (player_ok b) (Players g) ->
  Forall (player_ok (b + (5000 + 16 * B)))
         (Players (answered_by correct i g)).
Proof.
  intros Ht Hb Hb0 Hp.
  pose proof (getPointsReward_range g Ht) as Hr.
  apply Forall_lookup. intros j p' Hj.
  rewrite answered_by_lookup in Hj.
  destruct (decide (j = i)) as [->|Hne].
  - destruct (Players g !! i) as [p|] eqn:Hi; [|discriminate].
    injection Hj as <-.
    destruct (Forall_lookup_1 _ _ i p Hp Hi) as [Hpts Hlast].
    unfold player_ok. destruct correct.
    + unfold award.
      cbn [Points LastAwardedPoints set_Points set_LastAwardedPoints
           set_Answered].
      rewrite wrap_small by (unfold in_range, min_int, max_int in *; lia).
      lia.
    + cbn [Points LastAwardedPoints set_LastAwardedPoints set_Answered]. lia.
  - eapply player_ok_weaken; [|exact (Forall_lookup_1 _ _ j p' Hp Hj)]. lia.
Qed.

Lemma exec_effect_sound (n : nat) op g :
  Z.of_nat (S n) <= 2 ^ 20 -> sound B n g ->
  sound B (S n) (exec_effect next op g).2.
Proof.
  intros H20 (Hc & Hw & Hlen & Hi & Ht & Hp).
  assert (Hmax : CurrentQuestion g < max_int) by (unfold max_int; lia).
  pose proof (consistent_index g Hc) as Hmin.
  destruct (exec_effect_step next op g Hlen Hmax Hc)
    as (Hc' & _ & Hq' & Hi' & _).
  set (b := Z.of_nat n * (5000 + 16 * B)) in *.
  assert (Hbound : Z.of_nat (S n) * (5000 + 16 * B) = b + (5000 + 16 * B))
    by (unfold b; lia).
  assert (Hb0 : 0 <= b) by (unfold b; nia).
  assert (Hbmax : b + (5000 + 16 * B) <= max_int).
  { rewrite <- Hbound. unfold max_int. nia. }
  assert (Hp' : Forall (player_ok (b + (5000 + 16 * B))) (Players g)).
  { eapply Forall_impl; [exact Hp|]. intros p. apply player_ok_weaken. lia. }
  unfold sound. rewrite Hbound.
  split; [exact Hc'|]. rewrite Hq'.
  split; [exact Hw|]. split; [exact Hlen|]. split; [lia|].
  clear Hc' Hq' Hi'.
  destruct op as [| |choice player|name connection id|player];
    cbn [exec_effect].
  - unfold StartOrSkip_effect. case_bool_decide as Hs.
    + apply NextQuestion_effect_sound; [exact Hw|cbn; lia|exact Hp'].
    + apply NextQuestion_effect_sound; [exact Hw|lia|exact Hp'].
  - case_bool_decide as Hs; [split; assumption|].
    destruct (Ended g) eqn:He; [split; assumption|].
    destruct (consistent_running g Hc Hs He) as (_ & Hs2 & _ & _).
    specialize (Ht Hs2).
    unfold Tick_effect. cbv zeta. cbn [Time State set_Time].
    rewrite (wrap_small (Time g - 1))
      by (unfold in_range, min_int, max_int; lia).
    case_bool_decide as Hz.
    + destruct (State g) eqn:Hst; try contradiction.
      * destruct (revealed_sound (set_Time (Time g - 1) g) _ Hp') as [? ?].
        split; [intros _|]; assumption.
      * apply NextQuestion_effect_sound; [exact Hw|cbn; lia|exact Hp'].
      * unfold ranked. cbn [snd State Time Players set_State set_Players set_Time].
        split; [lia|].
        rewrite (Slice_Permutation byPoints next (Players g)). exact Hp'.
    + cbn [snd State Time Players set_Time]. split; [lia|exact Hp'].
  - unfold OnPlayerAnswer_effect.
    destruct (index (Questions (Game_Quiz g)) (CurrentQuestion g)) as [q|] eqn:Hq;
      [|split; assumption].
    destruct (consistent_asked g q Hc Hq) as (_ & Hs2 & _ & _).
    specialize (Ht Hs2).
    pose proof (answered_by_sound (correct_choice q choice) player g b
                  Ht Hbmax Hb0 Hp) as Ha.
    case_bool_decide.
    + destruct (revealed_sound
                  (answered_by (correct_choice q choice) player g) _ Ha)
        as [? ?].
      split; [intros _|]; assumption.
    + cbn [snd]. split; [|exact Ha].
      unfold answered_by. cbn [State Time set_Players]. intros _. exact Ht.
  - unfold joined. cbn [snd State Time Players set_Players].
    split; [exact Ht|]. apply Forall_app. split; [exact Hp'|].
    constructor; [|constructor]. unfold player_ok. cbn. lia.
  - destruct (Players g !! player) as [p|]; [|split; assumption].
    unfold left. cbn [snd State Time Players set_Players].
    split; [exact Ht|]. apply Forall_forall. intros q Hq.
    apply list_elem_of_filter in Hq as [_ Hq].
    rewrite Forall_forall in Hp'. apply Hp', Hq.
Qed.

Variable WriteMessage : Conn -> Packet -> bool.

Lemma run_sound (n : nat) ops g :
  Z.of_nat (n + length ops) <= 2 ^ 20 -> sound B n g ->
  sound B (n + length ops) (run WriteMessage next ops g).1.
Proof.
  revert n g. induction ops as [|op ops IH]; intros n g Hn Hg.
  - cbn [run fst length]. rewrite Nat.add_0_r. exact Hg.
  - cbn [run fst length] in *.
    replace (n + S (length ops))%nat with (S n + length ops)%nat in * by lia.
    apply IH; [exact Hn|]. rewrite game_of_exec.
    apply exec_effect_sound; [lia|exact Hg].
Qed.

End Scores.

(** X22.  In a game of a quiz whose questions all have a time of at least
    1 second, the countdown is at least 1 whenever the game has not ended,
    and no total and no award is ever negative: along every execution of up
    to [2^20] operations from a fresh game, with question times up to [B],
    the countdown stays between 1 and [B] until the end and every player
    has a total and a last award of at least 0. *)
Theorem X22_scores_never_negative
  (WriteMessage : Conn -> Packet -> bool) (next : Z -> Z)
  (quiz : Quiz) (host : Conn) (id : UUID) (r : Z) (ops : list Op) (B : Z) :
  60 <= B <= 2 ^ 32 ->
  Forall (fun q => 1 <= Question_Time q <= B) (Questions quiz) ->
  len (Questions quiz) <= max_int ->
  Z.of_nat (length ops) <= 2 ^ 20 ->
  let g := (run WriteMessage next ops (newGame quiz host id r)).1 in
  (State g <> EndState -> 1 <= Time g <= B)
  /\ Forall (fun p => 0 <= Points p /\ 0 <= LastAwardedPoints p) (Players g).
Proof.
  intros HB Hw Hlen Hn. cbv zeta.
  destruct (run_sound next B HB WriteMessage 0 ops (newGame quiz host id r))
    as (_ & _ & _ & _ & Ht & Hp).
  - cbn [Nat.add]. exact Hn.
  - split; [apply newGame_consistent|]. split; [exact Hw|].
    split; [exact Hlen|]. split; [cbn; lia|].
    split; [cbn; lia|constructor].
  - cbn [Nat.add] in *. split; [exact Ht|].
    eapply Forall_impl; [exact Hp|]. intros p [? ?]. lia.
Qed.

(** ** Joining and leaving *)

Section RoundTrip.

Variable WriteMessage : Conn -> Packet -> bool.
Variable json : Json.
Variable ObjectIDFromHex : string -> option ObjectID.
Variable GetQuizById : ObjectID -> option Quiz.

(** X24.  Joining and leaving cancel out.  When a connection that is no
    player's joins a game with its code, under an identifier no player of
    that game has, and then disconnects, the directory is as before the
    join: the roster of the game has the players it had, in their order.
    The host has been told of the join and of the disconnect. *)
Theorem X24_join_then_disconnect
  (games : list Game) (con : Conn) (mt : Z) (msg : list byte)
  (id : UUID) (r : Z) (code name : string) (k : nat) (game : Game) :
  decode json msg = Some (Ptr (ConnectPacket code name)) ->
  getGameByCode games code = Some (k, game) ->
  getGameByPlayer games con = None ->
  (forall p, p ∈ Players game -> Player_Id p <> id) ->
  let joining := OnIncomingMessage WriteMessage json ObjectIDFromHex
                   GetQuizById games con mt msg id r in
  let leaving := OnDisconnect WriteMessage joining.1.2 con in
  leaving.1.2 = games
  /\ joining.2 ++ leaving.2
     = [(con, ChangeGameStatePacket (State game));
        (Host game, PlayerJoinPacket (mkPlayer id name con 0 0 false));
        (Host game, PlayerDisconnectPacket id)].
Proof.
  intros Hd Hc Hnone Hfresh. cbv zeta.
  unfold OnIncomingMessage. rewrite Hd. cbn [route]. rewrite Hc.
  unfold getGameByCode in Hc. apply list_find_Some in Hc as (Hk & _ & _).
  rewrite (on_game_at _ _ _ _ Hk), OnPlayerJoin_log. cbn [fst snd].
  unfold joined. set (player := mkPlayer id name con 0 0 false).
  unfold OnDisconnect.
  pose proof (getGameByPlayer_joined games k game player Hk Hnone) as Hj.
  change (Connection player) with con in Hj. rewrite Hj.
  assert (Hk' : <[k := set_Players (Players game ++ [player]) game]> games !! k
                = Some (set_Players (Players game ++ [player]) game)).
  { apply list_lookup_insert_eq. apply lookup_lt_Some in Hk. exact Hk. }
  rewrite (on_game_at _ _ _ _ Hk'), OnPlayerDisconnect_log. cbn [fst snd].
  unfold left. cbn [Players set_Players Host Player_Id player].
  rewrite filter_app, filter_all_id.
  2:{ apply Forall_forall. intros p Hp. apply Hfresh, Hp. }
  rewrite filter_cons, decide_False by (intros Hne; apply Hne; reflexivity).
  rewrite filter_nil, app_nil_r.
  split; [|reflexivity].
  rewrite list_insert_insert_eq. destruct game. cbn.
  apply list_insert_id. exact Hk.
Qed.

End RoundTrip.

(** ** A game nobody answers *)

Section Unattended.

Variable WriteMessage : Conn -> Packet -> bool.
Variable next : Z -> Z.

(** The turns that close an open question. *)
Lemma play_phase (n : nat) (g : Game) :
  Z.of_nat n = Time g ->
  State g = PlayState -> Ended g = false -> 1 <= Time g <= max_int ->
  (run WriteMessage next (replicate n OpTimer) g).1 = revealed (set_Time 0 g).
Proof.
  intros Hn Hs He Ht.
  rewrite (phase_run_n WriteMessage next n g) by (congruence || assumption).
  cbv zeta. rewrite Hs, Reveal_log. reflexivity.
Qed.

(** The turns that end the reveal. *)
Lemma reveal_phase_game (n : nat) (g : Game) :
  Z.of_nat n = Time g ->
  State g = RevealState -> Ended g = false -> 1 <= Time g <= max_int ->
  (run WriteMessage next (replicate n OpTimer) g).1
  = ranked next (set_State IntermissionState (set_Time 30 g)).
Proof.
  intros Hn Hs He Ht.
  rewrite (phase_run_n WriteMessage next n g) by (congruence || assumption).
  cbv zeta. rewrite Hs, Intermission_log. reflexivity.
Qed.

Lemma run_add (n m : nat) g :
  (run WriteMessage next (replicate (n + m) OpTimer) g).1
  = (run WriteMessage next (replicate m OpTimer)
       (run WriteMessage next (replicate n OpTimer) g).1).1.
Proof. rewrite replicate_add, run_app. reflexivity. Qed.

(** While a phase counts down the game has not ended. *)
Lemma counting_not_ended (n : nat) g :
  State g <> LobbyState -> Ended g = false -> 1 <= Time g <= max_int ->
  Z.of_nat n < Time g ->
  Ended (run WriteMessage next (replicate n OpTimer) g).1 = false.
Proof.
  intros Hs He Ht Hn.
  rewrite countdown_run;
    [exact He|assumption|assumption|lia|unfold min_int; lia|lia].
Qed.

(** The round of an open question nobody answers: [T] turns to the reveal,
    5 to the leaderboard, 30 to the next question or the end. *)
Lemma round_game_split (T a b : nat) (g : Game) :
  Z.of_nat a = 5 -> Z.of_nat b = 30 ->
  Z.of_nat T = Time g ->
  State g = PlayState -> Ended g = false -> 1 <= Time g <= max_int ->
  -1 <= CurrentQuestion g < max_int ->
  exists g' : Game,
    (run WriteMessage next (replicate (T + (a + b)) OpTimer) g).1 = g'
    /\ Game_Quiz g' = Game_Quiz g
    /\ CurrentQuestion g' = CurrentQuestion g + 1
    /\ match index (Questions (Game_Quiz g)) (CurrentQuestion g + 1) with
       | Some q =>
           State g' = PlayState /\ Time g' = Question_Time q
           /\ Ended g' = false
       | None => State g' = EndState /\ Ended g' = true
       end.
Proof.
  intros Ha Hb HT Hs He Ht Hi.
  rewrite run_add, (play_phase T g HT Hs He Ht).
  rewrite run_add, (reveal_phase_game a);
    [|exact Ha|reflexivity|exact He
     |unfold max_int; cbn [Time revealed set_State set_Players set_Time]; lia].
  rewrite (intermission_phase WriteMessage next b);
    [|exact Hb|reflexivity|exact He
     |unfold max_int, ranked; cbn [Time set_Players set_State set_Time]; lia].
  set (g2 := set_Time 0 (ranked next (set_State IntermissionState
                (set_Time 30 (revealed (set_Time 0 g)))))).
  assert (Hq : Game_Quiz g2 = Game_Quiz g) by reflexivity.
  assert (Hc : CurrentQuestion g2 = CurrentQuestion g) by reflexivity.
  assert (He2 : Ended g2 = false) by exact He.
  clearbody g2.
  destruct (NextQuestion_effect_identity g2) as (_ & _ & _ & Hq').
  destruct (NextQuestion_effect_cases g2) as [Hc' Hm]; [rewrite Hc; exact Hi|].
  rewrite Hq, Hc in Hm. rewrite Hc in Hc'. rewrite Hq in Hq'.
  exists (NextQuestion_effect g2).2.
  split; [reflexivity|]. split; [exact Hq'|]. split; [exact Hc'|].
  destruct (index (Questions (Game_Quiz g)) (CurrentQuestion g + 1)).
  - destruct Hm as (? & ? & He' & _). rewrite He2 in He'.
    repeat split; assumption.
  - destruct Hm as (? & ? & _). split; assumption.
Qed.

Lemma round_game (T : nat) (g : Game) :
  Z.of_nat T = Time g ->
  State g = PlayState -> Ended g = false -> 1 <= Time g <= max_int ->
  -1 <= CurrentQuestion g < max_int ->
  exists g' : Game,
    (run WriteMessage next (replicate (T + 35) OpTimer) g).1 = g'
    /\ Game_Quiz g' = Game_Quiz g
    /\ CurrentQuestion g' = CurrentQuestion g + 1
    /\ match index (Questions (Game_Quiz g)) (CurrentQuestion g + 1) with
       | Some q =>
           State g' = PlayState /\ Time g' = Question_Time q
           /\ Ended g' = false
       | None => State g' = EndState /\ Ended g' = true
       end.
Proof.
  intros HT Hs He Ht Hi.
  replace (T + 35)%nat with (T + (5 + 30))%nat by lia.
  apply round_game_split; (reflexivity || assumption).
Qed.

Lemma round_running (T n : nat) (g : Game) :
  Z.of_nat T = Time g ->
  State g = PlayState -> Ended g = false -> 1 <= Time g <= max_int ->
  (n < T + 35)%nat ->
  Ended (run WriteMessage next (replicate n OpTimer) g).1 = false.
Proof.
  intros HT Hs He Ht Hn.
  destruct (decide (n < T)%nat) as [Hlt|Hge].
  { apply counting_not_ended; [congruence|assumption|assumption|lia]. }
  replace n with (T + (n - T))%nat by lia.
  rewrite run_add, (play_phase T g HT Hs He Ht).
  destruct (decide (n - T < 5)%nat) as [Hlt|Hge'].
  { apply counting_not_ended;
      [discriminate|exact He
      |unfold max_int; cbn [Time revealed set_State set_Players set_Time]; lia
      |cbn [Time revealed set_State set_Players set_Time]; lia]. }
  replace (n - T)%nat with (5 + (n - T - 5))%nat by lia.
  rewrite run_add, (reveal_phase_game 5);
    [|reflexivity|reflexivity|exact He
     |unfold max_int; cbn [Time revealed set_State set_Players set_Time]; lia].
  apply counting_not_ended;
    [discriminate|exact He
    |unfold max_int, ranked; cbn [Time set_State set_Players set_Time]; lia
    |unfold ranked; cbn [Time set_State set_Players set_Time]; lia].
Qed.

Lemma unattended_from (rest : list QuizQuestion) :
  forall (g : Game) (q : QuizQuestion),
  State g = PlayState -> Ended g = false -> 0 <= CurrentQuestion g ->
  drop (Z.to_nat (CurrentQuestion g)) (Questions (Game_Quiz g)) = q :: rest ->
  Time g = Question_Time q ->
  Forall (fun q => 1 <= Question_Time q <= max_int) (q :: rest) ->
  len (Questions (Game_Quiz g)) <= max_int ->
  (forall n : nat, (n < unattended (q :: rest))%nat ->
     Ended (run WriteMessage next (replicate n OpTimer) g).1 = false)
  /\ State (run WriteMessage next
              (replicate (unattended (q :: rest)) OpTimer) g).1 = EndState
  /\ Ended (run WriteMessage next
              (replicate (unattended (q :: rest)) OpTimer) g).1 = true
  /\ CurrentQuestion (run WriteMessage next
                        (replicate (unattended (q :: rest)) OpTimer) g).1
     = len (Questions (Game_Quiz g)).
Proof.
  induction rest as [|q' rest IH]; intros g q Hs He Hc Hd Ht Hw Hlen.
  - assert (HT : Z.of_nat (Z.to_nat (Question_Time q)) = Time g).
    { apply Forall_cons in Hw as [Hq _]. lia. }
    assert (Ht' : 1 <= Time g <= max_int).
    { apply Forall_cons in Hw as [Hq _]. lia. }
    assert (Hl : length (Questions (Game_Quiz g))
                 = S (Z.to_nat (CurrentQuestion g))).
    { pose proof (f_equal length Hd) as Hl. rewrite length_drop in Hl.
      cbn [length] in Hl. lia. }
    assert (Hi : -1 <= CurrentQuestion g < max_int)
      by (unfold len in Hlen; lia).
    destruct (round_game _ g HT Hs He Ht' Hi)
      as (g' & Hg' & Hq' & Hc' & Hm).
    assert (Hnone : index (Questions (Game_Quiz g)) (CurrentQuestion g + 1)
                    = None).
    { unfold index. rewrite bool_decide_eq_true_2 by lia.
      apply lookup_ge_None_2. lia. }
    rewrite Hnone in Hm. destruct Hm as [Hs' He'].
    cbn [unattended]. rewrite Nat.add_0_r.
    split.
    { intros n Hn. apply (round_running _ n g HT Hs He Ht' Hn). }
    rewrite Hg'.
    split; [exact Hs'|]. split; [exact He'|].
    rewrite Hc'. unfold len. lia.
  - assert (HT : Z.of_nat (Z.to_nat (Question_Time q)) = Time g).
    { apply Forall_cons in Hw as [Hq _]. lia. }
    assert (Ht' : 1 <= Time g <= max_int).
    { apply Forall_cons in Hw as [Hq _]. lia. }
    assert (Hl : length (Questions (Game_Quiz g))
                 = S (S (Z.to_nat (CurrentQuestion g) + length rest))).
    { pose proof (f_equal length Hd) as Hl. rewrite length_drop in Hl.
      cbn [length] in Hl. lia. }
    assert (Hi : -1 <= CurrentQuestion g < max_int)
      by (unfold len in Hlen; lia).
    destruct (round_game _ g HT Hs He Ht' Hi)
      as (g' & Hg' & Hq' & Hc' & Hm).
    assert (Hd' : drop (Z.to_nat (CurrentQuestion g + 1))
                    (Questions (Game_Quiz g)) = q' :: rest).
    { replace (Z.to_nat (CurrentQuestion g + 1))
        with (Z.to_nat (CurrentQuestion g) + 1)%nat by lia.
      rewrite <- drop_drop, Hd. reflexivity. }
    assert (Hsome : index (Questions (Game_Quiz g)) (CurrentQuestion g + 1)
                    = Some q').
    { unfold index. rewrite bool_decide_eq_true_2 by lia.
      rewrite <- (Nat.add_0_r (Z.to_nat _)), <- lookup_drop, Hd'.
      reflexivity. }
    rewrite Hsome in Hm. destruct Hm as (Hs' & Ht2 & He').
    destruct (IH g' q') as (Hrun & Hend);
      [exact Hs'|exact He'|lia|rewrite Hq', Hc'; exact Hd'|exact Ht2
      |apply Forall_cons in Hw as [_ Hw]; exact Hw|rewrite Hq'; exact Hlen|].
    rewrite Hq' in Hend.
    change (unattended (q :: q' :: rest))
      with (Z.to_nat (Question_Time q) + 35 + unattended (q' :: rest))%nat.
    split.
    { intros n Hn.
      destruct (decide (n < Z.to_nat (Question_Time q) + 35)%nat) as [Hlt|Hge].
      { apply (round_running _ n g HT Hs He Ht' Hlt). }
      replace n with (Z.to_nat (Question_Time q) + 35
                      + (n - (Z.to_nat (Question_Time q) + 35)))%nat by lia.
      rewrite run_add, Hg'.
      apply Hrun. lia. }
    rewrite run_add, Hg'. exact Hend.
Qed.

(** X25.  How long a game lasts when nobody answers.  From an open
    question of a quiz whose questions all have a time of at least one
    second, the game ends after exactly [time + 35] turns of the countdown
    for each question still to play (the time of the question, 5 seconds of
    reveal, 30 of intermission): before that it has not ended, and at that
    turn the state is End and the index is the number of questions. *)
Theorem X25_unattended_game_length (g : Game) (q : QuizQuestion) :
  State g = PlayState -> Ended g = false ->
  index (Questions (Game_Quiz g)) (CurrentQuestion g) = Some q ->
  Time g = Question_Time q ->
  well_timed max_int (Game_Quiz g) ->
  len (Questions (Game_Quiz g)) <= max_int ->
  let total :=
    unattended (drop (Z.to_nat (CurrentQuestion g))
                 (Questions (Game_Quiz g))) in
  (forall n : nat, (n < total)%nat ->
     Ended (run WriteMessage next (replicate n OpTimer) g).1 = false)
  /\ State (run WriteMessage next (replicate total OpTimer) g).1 = EndState
  /\ Ended (run WriteMessage next (replicate total OpTimer) g).1 = true
  /\ CurrentQuestion (run WriteMessage next (replicate total OpTimer) g).1
     = len (Questions (Game_Quiz g)).
Proof.
  intros Hs He Hq Ht Hw Hlen. cbv zeta.
  pose proof (index_Some_range _ _ _ Hq) as Hr.
  unfold index in Hq. rewrite bool_decide_eq_true_2 in Hq by lia.
  destruct (drop (Z.to_nat (CurrentQuestion g)) (Questions (Game_Quiz g)))
    as [|q0 rest] eqn:Hd.
  { pose proof (f_equal length Hd) as Hl. rewrite length_drop in Hl.
    cbn [length] in Hl. unfold len in Hr. lia. }
  assert (q0 = q) as ->.
  { pose proof (lookup_drop (Questions (Game_Quiz g))
                  (Z.to_nat (CurrentQuestion g)) 0) as Hl.
    rewrite Hd, Nat.add_0_r, Hq in Hl. cbn in Hl. congruence. }
  apply unattended_from;
    [assumption|assumption|lia|exact Hd|exact Ht| |exact Hlen].
  rewrite <- Hd. unfold well_timed in Hw.
  apply Forall_drop. exact Hw.
Qed.

End Unattended.

(** ** Examples of the further properties *)

(** The first question of [quiz1], 60 seconds, nobody answering. *)
Lemma X4_question_open_for_its_time_witness :
  State asked = PlayState /\ Ended asked = false /\ Time asked = 60
  /\ State (run delivered xorshift
              (replicate (Z.to_nat (Time asked)) OpTimer) asked).1
     = RevealState.
Proof.
  assert (H1 : State asked = PlayState) by (vm_compute; reflexivity).
  assert (H2 : Ended asked = false) by (vm_compute; reflexivity).
  assert (H3 : 1 <= Time asked <= max_int) by (vm_compute; split; discriminate).
  split; [exact H1|]. split; [exact H2|]. split; [vm_compute; reflexivity|].
  exact (proj1 (proj2 (X4_question_open_for_its_time delivered xorshift asked
                         H1 H2 H3))).
Defined.

(** The reveal of the first question of [quiz1], which is the last one:
    the leaderboard comes 5 turns later, the end 30 turns after that. *)
Lemma X5_reveal_to_next_question_witness :
  State revealing = RevealState /\ Time revealing = 5
  /\ CurrentQuestion revealing = 0
  /\ State (run delivered xorshift
              (replicate (Z.to_nat (Time revealing)) OpTimer) revealing).1
     = IntermissionState
  /\ CurrentQuestion
       (run delivered xorshift
            (replicate (Z.to_nat (Time revealing) + 30) OpTimer) revealing).1
     = CurrentQuestion revealing + 1.
Proof.
  assert (H1 : State revealing = RevealState) by (vm_compute; reflexivity).
  assert (H2 : Ended revealing = false) by (vm_compute; reflexivity).
  assert (H3 : 1 <= Time revealing <= max_int)
    by (vm_compute; split; discriminate).
  assert (H4 : -1 <= CurrentQuestion revealing < max_int)
    by (vm_compute; split; [discriminate|reflexivity]).
  split; [exact H1|]. split; [vm_compute; reflexivity|].
  split; [vm_compute; reflexivity|].
  pose proof (X5_reveal_to_next_question delivered xorshift revealing
                H1 H2 H3 H4) as H.
  cbv zeta in H. destruct H as ((Hs & _) & Hc & _).
  split; [exact Hs|exact Hc].
Defined.

(** The question of [quiz0] has no time: three turns of the countdown
    later it is still open, the countdown at -3. *)
Lemma X6_countdown_below_zero_witness :
  State asked0 = PlayState /\ Time asked0 = 0
  /\ run delivered xorshift (replicate 3 OpTimer) asked0
     = (set_Time (Time asked0 - Z.of_nat 3) asked0,
        (fun k : nat => (Host asked0, TickPacket (Time asked0 - Z.of_nat k)))
          <$> seq 1 3).
Proof.
  assert (H1 : State asked0 <> LobbyState) by (vm_compute; discriminate).
  assert (H2 : Ended asked0 = false) by (vm_compute; reflexivity).
  assert (H3 : Time asked0 <= 0) by (vm_compute; discriminate).
  assert (H4 : min_int <= Time asked0 - Z.of_nat 3)
    by (vm_compute; discriminate).
  split; [vm_compute; reflexivity|]. split; [vm_compute; reflexivity|].
  exact (X6_countdown_below_zero delivered xorshift asked0 3 H1 H2 H3 H4).
Defined.

(** Ann answers the open question of [quiz1] while Bob has not. *)
Lemma X7_last_answer_reveals_witness :
  index (Questions (Game_Quiz asked)) (CurrentQuestion asked) = Some question60
  /\ Players asked !! 0%nat = Some (mkPlayer 8%N "ann" 2%nat 0 0 false)
  /\ Answered <$> Players (game_of (OnPlayerAnswer delivered 1 0 asked)) !! 0%nat
     = Some true.
Proof.
  assert (H1 : index (Questions (Game_Quiz asked)) (CurrentQuestion asked)
               = Some question60) by (vm_compute; reflexivity).
  assert (H2 : Players asked !! 0%nat
               = Some (mkPlayer 8%N "ann" 2%nat 0 0 false))
    by (vm_compute; reflexivity).
  split; [exact H1|]. split; [exact H2|].
  exact (proj1 (proj2 (X7_last_answer_reveals delivered asked question60 1
                         0%nat _ H1 H2))).
Defined.

(** Zoe joins the game of [lobby1] with its code. *)
Lemma X9_connect_joins_first_game_with_code_witness :
  decode json_sample msg_Connect = Some (Ptr (ConnectPacket "100000" "zoe"))
  /\ match getGameByCode lobby1 "100000" with
     | None => False
     | Some (k, game) =>
         getGameByPlayer
           (OnIncomingMessage delivered json_sample (fun _ => None)
              (fun _ => None) lobby1 3%nat 2 msg_Connect 9%N 0).1.2 3%nat
         = Some (k, length (Players game), mkPlayer 9%N "zoe" 3%nat 0 0 false)
     end.
Proof.
  assert (H1 : decode json_sample msg_Connect
               = Some (Ptr (ConnectPacket "100000" "zoe")))
    by (vm_compute; reflexivity).
  split; [exact H1|].
  pose proof (X9_connect_joins_first_game_with_code delivered json_sample
                (fun _ => None) (fun _ => None) lobby1 3%nat 2 msg_Connect
                9%N 0 "100000" "zoe" H1) as H.
  cbv zeta in H.
  destruct (getGameByCode lobby1 "100000") as [[k game]|] eqn:Hc;
    [|vm_compute in Hc; discriminate].
  destruct H as (_ & _ & _ & _ & _ & Hfresh).
  apply Hfresh. vm_compute. reflexivity.
Defined.

(** Connection 4 hosts [quiz1] in an empty directory. *)
Lemma X10_host_game_appends_witness :
  decode json_sample msg_HostGame = Some (Ptr (HostGamePacket "1"))
  /\ (OnIncomingMessage delivered json_sample (fun _ => Some 1%N)
        (fun _ => Some quiz1) [] 4%nat 2 msg_HostGame 7%N 0).1.2
     = [newGame quiz1 4%nat 7%N 0].
Proof.
  assert (H1 : decode json_sample msg_HostGame = Some (Ptr (HostGamePacket "1")))
    by (vm_compute; reflexivity).
  split; [exact H1|].
  pose proof (X10_host_game_appends delivered json_sample (fun _ => Some 1%N)
                (fun _ => Some quiz1) [] 4%nat 2 msg_HostGame 7%N 0 "1" H1)
    as H.
  cbv zeta in H. cbn [mbind option_bind] in H.
  destruct H as (-> & _). reflexivity.
Defined.

(** The host of the game of [lobby1] starts it. *)
Lemma X11_start_reaches_first_game_of_host_witness :
  decode json_braces msg_StartGame = Some (Ptr StartGamePacket)
  /\ match getGameByHost lobby1 1%nat with
     | None => False
     | Some (k, game) => lobby1 !! k = Some game /\ Host game = 1%nat
     end.
Proof.
  assert (H1 : decode json_braces msg_StartGame = Some (Ptr StartGamePacket))
    by (vm_compute; reflexivity).
  split; [exact H1|].
  pose proof (X11_start_reaches_first_game_of_host delivered json_braces
                (fun _ => None) (fun _ => None) lobby1 1%nat 2 msg_StartGame
                0%N 0 H1) as H.
  cbv zeta in H.
  destruct (getGameByHost lobby1 1%nat) as [[k game]|] eqn:Hh;
    [|vm_compute in Hh; discriminate].
  destruct H as (Hk & Hhost & _). split; assumption.
Defined.

(** Ann answers in the lobby, then sends a second message. *)
Lemma X15_panic_skips_disconnect_witness :
  let rd := mkRead 2 msg_QuestionAnswer 0%N 0 in
  decode json_sample (Read_msg rd) = Some (Ptr (QuestionAnswerPacket 1))
  /\ Ws delivered json_sample (fun _ => None) (fun _ => None) lobby1 2%nat
        [rd; rd]
     = (Panicked, lobby1, []).
Proof.
  pose (rd := mkRead 2 msg_QuestionAnswer 0%N 0).
  assert (H1 : decode json_sample (Read_msg rd)
               = Some (Ptr (QuestionAnswerPacket 1)))
    by (vm_compute; reflexivity).
  split; [exact H1|].
  refine (X15_panic_skips_disconnect delivered json_sample (fun _ => None)
            (fun _ => None) lobby1 2%nat rd [rd] 1 0%nat 0%nat
            (mkPlayer 8%N "ann" 2%nat 0 0 false) _ H1 _ _ _);
    vm_compute; reflexivity.
Defined.

(** An empty message and a message of one byte, then the disconnect. *)
Lemma X16_undecodable_session_witness :
  let reads := [mkRead 2 [] 0%N 0; mkRead 2 [x07] 0%N 0] in
  Forall (fun rd => decode json_sample (Read_msg rd) = None) reads
  /\ Ws delivered json_sample (fun _ => None) (fun _ => None) lobby1 2%nat reads
     = OnDisconnect delivered lobby1 2%nat.
Proof.
  pose (reads := [mkRead 2 [] 0%N 0; mkRead 2 [x07] 0%N 0]).
  assert (H1 : Forall (fun rd => decode json_sample (Read_msg rd) = None) reads).
  { repeat constructor. }
  split; [exact H1|].
  exact (X16_undecodable_session delivered json_sample (fun _ => None)
           (fun _ => None) lobby1 2%nat reads H1).
Defined.

(** The smallest draw. *)
Lemma X18_generateCode_six_digits_witness :
  0 <= 0 < 900000 /\ String.length (generateCode 0) = 6%nat.
Proof.
  assert (H1 : 0 <= 0 < 900000) by lia.
  split; [exact H1|]. exact (proj1 (X18_generateCode_six_digits 0 0 H1)).
Defined.

(** The host starts [quiz1] from the lobby. *)
Lemma X19_StartOrSkip_witness :
  let g := newGame quiz1 1%nat 7%N 0 in
  -1 <= CurrentQuestion g < max_int
  /\ CurrentQuestion (game_of (StartOrSkip delivered g)) = CurrentQuestion g + 1.
Proof.
  pose (g := newGame quiz1 1%nat 7%N 0).
  assert (H1 : -1 <= CurrentQuestion g < max_int)
    by (vm_compute; split; [discriminate|reflexivity]).
  split; [exact H1|].
  exact (proj1 (proj2 (X19_StartOrSkip delivered g H1))).
Defined.

(** Half the time of the first question of [quiz1] has passed. *)
Lemma X22_scores_never_negative_witness :
  60 <= 60 <= 2 ^ 32
  /\ Forall (fun p => 0 <= Points p /\ 0 <= LastAwardedPoints p)
            (Players (run delivered xorshift half_time
                          (newGame quiz1 1%nat 7%N 0)).1).
Proof.
  assert (H1 : 60 <= 60 <= 2 ^ 32) by lia.
  assert (H2 : Forall (fun q => 1 <= Question_Time q <= 60) (Questions quiz1)).
  { repeat constructor; cbn; lia. }
  assert (H3 : len (Questions quiz1) <= max_int) by (vm_compute; discriminate).
  assert (H4 : Z.of_nat (length half_time) <= 2 ^ 20)
    by (vm_compute; discriminate).
  split; [exact H1|].
  exact (proj2 (X22_scores_never_negative delivered xorshift quiz1 1%nat 7%N 0
                  half_time 60 H1 H2 H3 H4)).
Defined.

(** Ann answers the open question of [quiz1] with the choice 1. *)
Lemma X23_answer_reaches_first_player_of_connection_witness :
  decode json_sample msg_QuestionAnswer = Some (Ptr (QuestionAnswerPacket 1))
  /\ match getGameByPlayer [asked] 2%nat with
     | None => False
     | Some (k, i, p) => Connection p = 2%nat
     end.
Proof.
  assert (H1 : decode json_sample msg_QuestionAnswer
               = Some (Ptr (QuestionAnswerPacket 1)))
    by (vm_compute; reflexivity).
  split; [exact H1|].
  pose proof (X23_answer_reaches_first_player_of_connection delivered
                json_sample (fun _ => None) (fun _ => None) [asked] 2%nat 2
                msg_QuestionAnswer 0%N 0 1 H1) as H.
  cbv zeta in H.
  destruct (getGameByPlayer [asked] 2%nat) as [[[k i] p]|] eqn:Hg;
    [|vm_compute in Hg; discriminate].
  destruct H as (game & _ & _ & Hc & _). exact Hc.
Defined.

(** Zoe joins the game of [lobby1] and leaves it again. *)
Lemma X24_join_then_disconnect_witness :
  decode json_sample msg_Connect = Some (Ptr (ConnectPacket "100000" "zoe"))
  /\ (OnDisconnect delivered
        (OnIncomingMessage delivered json_sample (fun _ => None)
           (fun _ => None) lobby1 3%nat 2 msg_Connect 9%N 0).1.2 3%nat).1.2
     = lobby1.
Proof.
  assert (H1 : decode json_sample msg_Connect
               = Some (Ptr (ConnectPacket "100000" "zoe")))
    by (vm_compute; reflexivity).
  split; [exact H1|].
  destruct (getGameByCode lobby1 "100000") as [[k game]|] eqn:Hc;
    [|vm_compute in Hc; discriminate].
  refine (proj1 (X24_join_then_disconnect delivered json_sample
                   (fun _ => None) (fun _ => None) lobby1 3%nat 2 msg_Connect
                   9%N 0 "100000" "zoe" k game H1 Hc _ _)).
  - vm_compute. reflexivity.
  - vm_compute in Hc. injection Hc as <- <-.
    intros p Hp. apply list_elem_of_In in Hp. vm_compute in Hp.
    destruct Hp as [<-|[]]. discriminate.
Defined.

(** [quiz1] has one question of 60 seconds: started and left alone, the
    game ends at the 95th turn of the countdown. *)
Lemma X25_unattended_game_length_witness :
  State asked = PlayState /\ Ended asked = false
  /\ unattended (drop (Z.to_nat (CurrentQuestion asked))
                   (Questions (Game_Quiz asked))) = 95%nat
  /\ Ended (run delivered xorshift
              (replicate
                 (unattended (drop (Z.to_nat (CurrentQuestion asked))
                                (Questions (Game_Quiz asked))))
                 OpTimer) asked).1 = true.
Proof.
  assert (H1 : State asked = PlayState) by (vm_compute; reflexivity).
  assert (H2 : Ended asked = false) by (vm_compute; reflexivity).
  split; [exact H1|]. split; [exact H2|]. split; [vm_compute; reflexivity|].
  destruct (index (Questions (Game_Quiz asked)) (CurrentQuestion asked))
    as [q|] eqn:Hq; [|vm_compute in Hq; discriminate].
  assert (H3 : Time asked = Question_Time q).
  { vm_compute in Hq. injection Hq as <-. vm_compute. reflexivity. }
  assert (H4 : well_timed max_int (Game_Quiz asked)).
  { unfold well_timed. apply Forall_forall. intros x Hx.
    apply list_elem_of_In in Hx. vm_compute in Hx.
    destruct Hx as [<-|[]]. vm_compute. split; discriminate. }
  assert (H5 : len (Questions (Game_Quiz asked)) <= max_int)
    by (vm_compute; discriminate).
  exact (proj1 (proj2 (proj2 (X25_unattended_game_length delivered xorshift
                                asked q H1 H2 Hq H3 H4 H5)))).
Defined.

(** * The end of a game (C5) *)

Section EndOfGame.

Variable WriteMessage : Conn -> Packet -> bool.
Variable next : Z -> Z.






Lemma play_app es1 es2 s :
  play WriteMessage next (es1 ++ es2) s
  = ((play WriteMessage next es2 (play WriteMessage next es1 s).1).1,
     (play WriteMessage next es1 s).2
       ++ (play WriteMessage next es2 (play WriteMessage next es1 s).1).2).
Proof.
  revert s. induction es1 as [|e es1 IH]; intros s; cbn [play app fst snd].
  - destruct (play WriteMessage next es2 s). reflexivity.
  - rewrite IH. cbn [fst snd]. rewrite app_assoc. reflexivity.
Qed.






(** A handler never clears the [Ended] flag. *)
Lemma exec_effect_Ended op g :
  Ended g = true -> Ended (exec_effect next op g).2 = true.
Proof.
  intros He.
  destruct op as [| |choice player|name connection id|player];
    cbn [exec_effect].
  - unfold StartOrSkip_effect. case_bool_decide.
    + destruct (NextQuestion_effect_spec (set_State PlayState g))
        as (_ & _ & _ & [(_ & _ & ?)|(_ & _ & ->)]); assumption.
    + destruct (NextQuestion_effect_spec g)
        as (_ & _ & _ & [(_ & _ & ?)|(_ & _ & ->)]); assumption.
  - case_bool_decide; [exact He|]. rewrite He. exact He.
  - unfold OnPlayerAnswer_effect. destruct (index _ _); [|exact He].
    case_bool_decide; exact He.
  - exact He.
  - destruct (Players g !! player); exact He.
Qed.

(** An execution whose turns of the goroutine are not interrupted is the
    execution of its schedule. *)
Lemma play_schedule ops g pc :
  pc = AtTest \/ (pc = Gone /\ Ended g = true) ->
  let r := play WriteMessage next (schedule ops) (g, pc) in
  (r.1.1, r.2) = run WriteMessage next ops g.
Proof.
  revert g pc. induction ops as [|op ops IH]; intros g pc Hpc; [reflexivity|].
  cbv zeta. unfold schedule. cbn [mbind list_bind]. fold (schedule ops).
  rewrite play_app. cbn [run fst snd].
  assert (Hkeep : forall op',
    Ended g = true -> Ended (game_of (exec WriteMessage next op' g)) = true).
  { intros op' He. rewrite game_of_exec. apply exec_effect_Ended, He. }
  assert (Hrec : forall g' pc',
    pc' = AtTest \/ (pc' = Gone /\ Ended g' = true) ->
    (play WriteMessage next (schedule ops) (g', pc')).1.1
    = (run WriteMessage next ops g').1
    /\ (play WriteMessage next (schedule ops) (g', pc')).2
       = (run WriteMessage next ops g').2).
  { intros g' pc' Hpc'. pose proof (IH g' pc' Hpc') as H. cbv zeta in H.
    rewrite <- H. split; reflexivity. }
  assert (Hhandler : forall op',
    ((play WriteMessage next (schedule ops)
        (game_of (exec WriteMessage next op' g), pc)).1.1,
     (sent (exec WriteMessage next op' g) ++ [])
       ++ (play WriteMessage next (schedule ops)
             (game_of (exec WriteMessage next op' g), pc)).2)
    = ((run WriteMessage next ops (game_of (exec WriteMessage next op' g))).1,
       sent (exec WriteMessage next op' g)
         ++ (run WriteMessage next ops
               (game_of (exec WriteMessage next op' g))).2)).
  { intros op'.
    destruct (Hrec (game_of (exec WriteMessage next op' g)) pc) as [-> ->].
    - destruct Hpc as [->|[-> He]]; [left; reflexivity|].
      right. split; [reflexivity|]. apply Hkeep, He.
    - rewrite app_nil_r. reflexivity. }
  destruct op as [| |choice player|name connection id|player];
    cbn [play step handled fst snd]; try apply Hhandler.
  assert (Hturn : exec WriteMessage next OpTimer g
    = if bool_decide (State g = LobbyState) then (Returned tt, g, [])
      else if Ended g then (Returned tt, g, [])
      else (outcome (Tick WriteMessage next g),
            game_of (Tick WriteMessage next g),
            sent (Tick WriteMessage next g))).
  { cbn [exec]. unfold bind, get, timer_turn. cbn [fst snd].
    case_bool_decide; [reflexivity|].
    unfold bind, get. cbn [fst snd]. destruct (Ended g); [reflexivity|].
    destruct (Tick WriteMessage next g) as [[res g'] out]. reflexivity. }
  rewrite Hturn. clear Hturn.
  destruct Hpc as [->|[-> He]]; cbn [fst snd].
  - case_bool_decide.
    + cbn [fst snd app]. unfold game_of, sent. cbn [fst snd app].
      destruct (Hrec g AtTest) as [-> ->]; [left; reflexivity|reflexivity].
    + destruct (Ended g) eqn:He; cbn [fst snd app].
      * unfold game_of, sent. cbn [fst snd app].
        destruct (Hrec g Gone) as [-> ->]; [right; split; auto|reflexivity].
      * set (t := Tick WriteMessage next g).
        change (game_of (outcome t, game_of t, sent t)) with (game_of t).
        change (sent (outcome t, game_of t, sent t)) with (sent t).
        destruct (Hrec (game_of t) AtTest) as [-> ->]; [left; reflexivity|].
        rewrite app_nil_r. reflexivity.
  - rewrite He. unfold game_of, sent. cbn [fst snd app].
    destruct (Hrec g Gone) as [-> ->]; [right; split; auto|].
    case_bool_decide; reflexivity.
Qed.

End EndOfGame.




